(** * transformer/model_dual.py: the dual transformer, shallowly embedded

    The model follows the Python source statement by statement.  Python
    exceptions are values of [exn] carried by [result]; tensors are rank-3
    arrays with an explicit shape; the attention blocks, the recognizer
    layers, the prediction head and checkpoint files are collaborators
    gathered in the class [Backend]. *)

From Stdlib Require Import String Ascii ZArith List Bool Arith Lia Floats.
Import ListNotations.

Set Implicit Arguments.

(** ** Python results *)

Module Py.

Inductive exn : Set :=
| ValueError
| AssertionError
| NotImplementedError
| AttributeError
| KeyError
| TypeError
| IndexError
| FileNotFoundError
| RuntimeError.

Inductive result (A : Type) : Type :=
| Ok (a : A)
| Raise (e : exn).

Arguments Ok {A} a.
Arguments Raise {A} e.

Definition bind {A B : Type} (r : result A) (k : A -> result B) : result B :=
  match r with
  | Ok a => k a
  | Raise e => Raise e
  end.

(** A Python object as far as [config.pre_train] needs one: a string or a
    list of objects. *)
#[warnings="-register-all"]
Inductive pyobj : Type :=
| PStr (s : string)
| PList (l : list pyobj).

End Py.

Import Py.

Notation "x <- r ;; k" := (Py.bind r (fun x => k))
  (at level 61, r at next level, right associativity).
Notation "' p <- r ;; k" := (Py.bind r (fun p => k))
  (at level 61, p pattern, r at next level, right associativity).
Notation "'assert!' b ;; k" := (if b then k else Raise AssertionError)
  (at level 61, b at next level, right associativity).

(** ** Scalars

    The element type of a tensor with the arithmetic the model uses.  The
    instance [float_Scalar] is IEEE binary64; every general statement below
    holds for any instance. *)

Class Scalar (A : Type) : Type := {
  zero : A;
  one : A;
  add : A -> A -> A;
  sub : A -> A -> A;
  mul : A -> A -> A;
  abs : A -> A;
  (** division of an accumulated sum by an element count *)
  div_count : A -> nat -> A
}.

Definition float_of_nat (n : nat) : float :=
  PrimFloat.of_uint63 (Uint63.of_Z (Z.of_nat n)).

#[export] Instance float_Scalar : Scalar float := {
  zero := 0%float;
  one := 1%float;
  add := PrimFloat.add;
  sub := PrimFloat.sub;
  mul := PrimFloat.mul;
  abs := PrimFloat.abs;
  div_count x n := PrimFloat.div x (float_of_nat n)
}.

(** ** Tensors (the part of torch the model calls) *)

Module Torch.

(** A rank-3 tensor [batch, time, feature]: its three extents and its
    elements by index.  Only indices inside the extents are meaningful. *)
Record Tensor (A : Type) : Type := mkTensor {
  size0 : nat;
  size1 : nat;
  size2 : nat;
  item : nat -> nat -> nat -> A
}.

Definition shape {A : Type} (x : Tensor A) : nat * nat * nat :=
  (size0 x, size1 x, size2 x).

(** The tensor written as a nested Python list. *)
Definition of_list {A : Type} (d : A) (l : list (list (list A))) : Tensor A :=
  {| size0 := length l;
     size1 := length (hd [] l);
     size2 := length (hd [] (hd [] l));
     item b t f := nth f (nth t (nth b l []) []) d |}.

(** Row-major enumeration of the indices of a shape. *)
Definition indices (B T D : nat) : list (nat * nat * nat) :=
  flat_map (fun b =>
    flat_map (fun t => map (fun f => (b, t, f)) (seq 0 D)) (seq 0 T))
    (seq 0 B).

Definition to_list {A : Type} (x : Tensor A) : list (list (list A)) :=
  map (fun b => map (fun t => map (fun f => item x b t f) (seq 0 (size2 x)))
                    (seq 0 (size1 x)))
      (seq 0 (size0 x)).

(** Broadcasting of one extent against another. *)
Definition broadcast_dim (a b : nat) : option nat :=
  if a =? b then Some a
  else if a =? 1 then Some b
  else if b =? 1 then Some a
  else None.

Definition broadcast_shape (s1 s2 : nat * nat * nat) : option (nat * nat * nat) :=
  let '(a0, a1, a2) := s1 in
  let '(b0, b1, b2) := s2 in
  match broadcast_dim a0 b0, broadcast_dim a1 b1, broadcast_dim a2 b2 with
  | Some c0, Some c1, Some c2 => Some (c0, c1, c2)
  | _, _, _ => None
  end.

(** Index into an extent [n] of a broadcast operand. *)
Definition bidx (n i : nat) : nat := if n =? 1 then 0 else i.

Definition bitem {A : Type} (x : Tensor A) (b t f : nat) : A :=
  item x (bidx (size0 x) b) (bidx (size1 x) t) (bidx (size2 x) f).

Section Ops.
Context {A : Type} `{Scalar A}.

(** [x + y] *)
Definition tensor_add (x y : Tensor A) : result (Tensor A) :=
  match broadcast_shape (shape x) (shape y) with
  | Some (B, T, D) =>
      Ok {| size0 := B; size1 := T; size2 := D;
            item b t f := add (bitem x b t f) (bitem y b t f) |}
  | None => Raise RuntimeError
  end.

(** [s * x] for a one-element tensor [s] *)
Definition scale (s : A) (x : Tensor A) : Tensor A :=
  {| size0 := size0 x; size1 := size1 x; size2 := size2 x;
     item b t f := mul s (item x b t f) |}.

(** [torch.cat((x, y), dim=2)] *)
Definition cat2 (x y : Tensor A) : result (Tensor A) :=
  if (size0 x =? size0 y) && (size1 x =? size1 y) then
    Ok {| size0 := size0 x; size1 := size1 x; size2 := size2 x + size2 y;
          item b t f := if f <? size2 x then item x b t f
                        else item y b t (f - size2 x) |}
  else Raise RuntimeError.

(** [x.repeat(1, n, 1)] *)
Definition repeat1 (x : Tensor A) (n : nat) : Tensor A :=
  {| size0 := size0 x; size1 := size1 x * n; size2 := size2 x;
     item b t f := item x b (t mod size1 x) f |}.

Definition sum_list (l : list A) : A := fold_left add l zero.

Definition mean_list (l : list A) : A := div_count (sum_list l) (length l).

(** [x.mean(dim=1).unsqueeze(1)] *)
Definition mean1_unsqueeze (x : Tensor A) : Tensor A :=
  {| size0 := size0 x; size1 := 1; size2 := size2 x;
     item b _ f := mean_list (map (fun t => item x b t f) (seq 0 (size1 x))) |}.

(** [x.masked_select(mask)]: the selected elements, row-major *)
Definition masked_select (x : Tensor A) (mask : Tensor bool) : result (list A) :=
  match broadcast_shape (shape x) (shape mask) with
  | Some (B, T, D) =>
      Ok (flat_map (fun '(b, t, f) =>
                      if bitem mask b t f then [bitem x b t f] else [])
                   (indices B T D))
  | None => Raise RuntimeError
  end.

(** [mask.sum()] of a boolean tensor *)
Definition mask_sum (mask : Tensor bool) : nat :=
  length (filter (fun '(b, t, f) => item mask b t f)
                 (indices (size0 mask) (size1 mask) (size2 mask))).

(** Broadcasting of 1-D operands. *)
Definition expand1 (l : list A) (n : nat) : list A :=
  match l with
  | [a] => repeat a n
  | _ => l
  end.

Fixpoint abs_diff (xs ys : list A) : list A :=
  match xs, ys with
  | x :: xs', y :: ys' => abs (sub x y) :: abs_diff xs' ys'
  | _, _ => []
  end.

(** [nn.L1Loss()] (reduction ['mean']) on 1-D tensors *)
Definition L1Loss (input target : list A) : result A :=
  match broadcast_dim (length input) (length target) with
  | Some n => Ok (mean_list (abs_diff (expand1 input n) (expand1 target n)))
  | None => Raise RuntimeError
  end.

End Ops.

End Torch.

(** ** Python strings and dictionaries *)

Module PyStr.

(** [sub in s] *)
Fixpoint contains (sub s : string) : bool :=
  String.prefix sub s ||
  match s with
  | EmptyString => false
  | String _ s' => contains sub s'
  end.

(** [s.replace(old, new)] for a non-empty [old]: occurrences are replaced
    left to right and do not overlap; [skip] counts the characters of an
    occurrence still to be passed over. *)
Fixpoint replace_from (old new : string) (skip : nat) (s : string) : string :=
  match s with
  | EmptyString => EmptyString
  | String c s' =>
      match skip with
      | S k => replace_from old new k s'
      | O =>
          if String.prefix old s
          then new ++ replace_from old new (String.length old - 1) s'
          else String c (replace_from old new 0 s')
      end
  end.

Definition replace (old new s : string) : string := replace_from old new 0 s.

(** [s[n:]] *)
Fixpoint drop (n : nat) (s : string) : string :=
  match n, s with
  | S k, String _ s' => drop k s'
  | _, _ => s
  end.

(** [s[:-1]] *)
Fixpoint removelast (s : string) : string :=
  match s with
  | EmptyString => EmptyString
  | String c EmptyString => EmptyString
  | String c s' => String c (removelast s')
  end.

(** [s.split('.', 1)[0]] *)
Fixpoint before_dot (s : string) : string :=
  match s with
  | EmptyString => EmptyString
  | String c s' => if Ascii.eqb c "."%char then EmptyString else String c (before_dot s')
  end.

(** [s in l] for a list or the keys of a dict *)
Definition mem (s : string) (l : list string) : bool :=
  existsb (String.eqb s) l.

End PyStr.

Module PyDict.

(** An insertion-ordered dictionary with string keys. *)
Definition dict (V : Type) : Type := list (string * V).

Section Dict.
Context {V : Type}.

Definition keys (d : dict V) : list string := map fst d.

Fixpoint get (k : string) (d : dict V) : option V :=
  match d with
  | [] => None
  | (k', v) :: r => if String.eqb k k' then Some v else get k r
  end.

(** [d.pop(k)]: the value and the dictionary without the key, [None] for
    Python's KeyError. *)
Fixpoint pop (k : string) (d : dict V) : option (V * dict V) :=
  match d with
  | [] => None
  | (k', v) :: r =>
      if String.eqb k k' then Some (v, r)
      else match pop k r with
           | Some (w, r') => Some (w, (k', v) :: r')
           | None => None
           end
  end.

(** [d[k] = v]: a bound key keeps its place, a new one goes last. *)
Fixpoint set (k : string) (v : V) (d : dict V) : dict V :=
  match d with
  | [] => [(k, v)]
  | (k', v') :: r =>
      if String.eqb k k' then (k', v) :: r else (k', v') :: set k v r
  end.

End Dict.

End PyDict.

(** ** nn.Module trees and state dicts *)

Module NN.

Import PyStr PyDict.

(** A parameter tensor of any rank: its shape and its elements. *)
Record nn_Parameter (A : Type) : Type := mkParameter {
  p_shape : list nat;
  p_data : list A
}.

(** A module: its own parameters ([_parameters]) and its children
    ([_modules], a child may be [None]).  Both are ordered dicts.  Buffers
    are left out: they are loaded as parameters are. *)
#[warnings="-register-all"]
Inductive nn_Module (A : Type) : Type :=
| mkModule (parameters : dict (nn_Parameter A))
           (modules : dict (option (nn_Module A))).

Definition parameters {A : Type} (m : nn_Module A) : dict (nn_Parameter A) :=
  match m with mkModule ps _ => ps end.

Definition modules {A : Type} (m : nn_Module A) : dict (option (nn_Module A)) :=
  match m with mkModule _ cs => cs end.

(** A state dict: parameter name to tensor, with torch's optional
    [_metadata] attribute (module prefix to version information). *)
Record StateDict (A : Type) : Type := mkStateDict {
  items : dict (nn_Parameter A);
  metadata : option (dict (dict Z))
}.

(** The three lists a load fills in. *)
Record LoadLists : Type := mkLoadLists {
  missing_keys : list string;
  unexpected_keys : list string;
  error_msgs : list string
}.

Section Load.
Context {A : Type}.

Definition shape_eqb (s1 s2 : list nat) : bool :=
  if list_eq_dec Nat.eq_dec s1 s2 then true else false.

(** [param.copy_(input_param)] *)
Definition copy_ (param input_param : nn_Parameter A) : nn_Parameter A :=
  {| p_shape := p_shape param; p_data := p_data input_param |}.

(** [input_param[0]] of a 1-D tensor: its first element as a 0-dimensional
    tensor; an empty tensor has none (IndexError). *)
Definition select0 (input_param : nn_Parameter A) : result (nn_Parameter A) :=
  match p_shape input_param with
  | [S _] => Ok {| p_shape := []; p_data := firstn 1 (p_data input_param) |}
  | _ => Raise IndexError
  end.

(** torch's backward compatibility, "loading 1-dim tensor from 0.3.* to
    version 0.4+":
    [if len(param.shape) == 0 and len(input_param.shape) == 1:
       input_param = input_param[0]] *)
Definition adapt_input (param input_param : nn_Parameter A)
    : result (nn_Parameter A) :=
  if (List.length (p_shape param) =? 0)%nat &&
     (List.length (p_shape input_param) =? 1)%nat
  then select0 input_param
  else Ok input_param.

(** The loop of torch's [Module._load_from_state_dict] over the module's own
    parameters: a parameter found under [prefix + name] with the same shape
    (after the backward-compatibility step) is overwritten in place, one with
    another shape adds an error message, one not found is a missing key when
    [strict].  The loop mutates the parameters and the lists; it ends early
    when indexing an entry raises, and then returns them as they are at that
    point, with the exception. *)
Fixpoint load_local_params (state_dict : dict (nn_Parameter A)) (prefix : string)
    (strict : bool) (ps : dict (nn_Parameter A)) (l : LoadLists)
    : dict (nn_Parameter A) * LoadLists * option exn :=
  match ps with
  | [] => ([], l, None)
  | (name, param) :: rest =>
      let key := (prefix ++ name)%string in
      match get key state_dict with
      | Some input_param =>
          match adapt_input param input_param with
          | Raise e => ((name, param) :: rest, l, Some e)
          | Ok input_param =>
              if shape_eqb (p_shape input_param) (p_shape param) then
                let '(rest', l', raised) :=
                  load_local_params state_dict prefix strict rest l in
                ((name, copy_ param input_param) :: rest', l', raised)
              else
                let l1 := {| missing_keys := missing_keys l;
                             unexpected_keys := unexpected_keys l;
                             error_msgs := error_msgs l ++ [key] |} in
                let '(rest', l', raised) :=
                  load_local_params state_dict prefix strict rest l1 in
                ((name, param) :: rest', l', raised)
          end
      | None =>
          let l1 := if strict
                    then {| missing_keys := missing_keys l ++ [key];
                            unexpected_keys := unexpected_keys l;
                            error_msgs := error_msgs l |}
                    else l in
          let '(rest', l', raised) :=
            load_local_params state_dict prefix strict rest l1 in
          ((name, param) :: rest', l', raised)
      end
  end.

(** The keys under [prefix] whose next name component is neither a child nor
    a parameter of the module. *)
Definition local_unexpected (state_dict : dict (nn_Parameter A)) (prefix : string)
    (ps : dict (nn_Parameter A)) (cs : dict (option (nn_Module A))) : list string :=
  filter (fun key =>
            String.prefix prefix key &&
            (let input_name := before_dot (drop (String.length prefix) key) in
             negb (mem input_name (keys cs)) && negb (mem input_name (keys ps))))
         (keys state_dict).

(** torch's [Module._load_from_state_dict(state_dict, prefix, local_metadata,
    strict, missing_keys, unexpected_keys, error_msgs)] of the base class;
    [local_metadata] is passed and not read.  The unexpected keys are
    collected after the loop over the parameters, when that loop has not
    raised. *)
Definition _load_from_state_dict (ps : dict (nn_Parameter A))
    (cs : dict (option (nn_Module A))) (state_dict : dict (nn_Parameter A))
    (prefix : string) (local_metadata : dict Z) (strict : bool) (l : LoadLists)
    : dict (nn_Parameter A) * LoadLists * option exn :=
  let '(ps', l1, raised) := load_local_params state_dict prefix strict ps l in
  match raised with
  | Some e => (ps', l1, Some e)
  | None =>
      (ps',
       if strict
       then {| missing_keys := missing_keys l1;
               unexpected_keys :=
                 unexpected_keys l1 ++ local_unexpected state_dict prefix ps cs;
               error_msgs := error_msgs l1 |}
       else l1,
       None)
  end.

End Load.

End NN.

(** ** transformer/model_dual.py *)

Module ModelDual.

Import Torch PyStr PyDict NN.

Local Open Scope string_scope.
Local Open Scope Z_scope.

(** [class DualTransformerConfig]: the attributes this file reads;
    [hidden_size] is inherited from [TransformerConfig]. *)
Module DualTransformerConfig.

Record t : Type := mk {
  hidden_size : Z;
  dual_transformer : bool;
  decoder : bool;
  intermediate_pe : bool;
  combine : string;
  phone_type : string;
  phone_size : Z;
  phone_dim : Z;
  speaker_type : string;
  speaker_size : Z;
  speaker_dim : Z;
  average_pooling : bool;
  pre_train : list pyobj
}.

(** [config.pre_train = v] *)
Definition set_pre_train (config : t) (v : list pyobj) : t :=
  {| hidden_size := hidden_size config;
     dual_transformer := dual_transformer config;
     decoder := decoder config;
     intermediate_pe := intermediate_pe config;
     combine := combine config;
     phone_type := phone_type config;
     phone_size := phone_size config;
     phone_dim := phone_dim config;
     speaker_type := speaker_type config;
     speaker_size := speaker_size config;
     speaker_dim := speaker_dim config;
     average_pooling := average_pooling config;
     pre_train := v |}.

End DualTransformerConfig.

Module Cfg := DualTransformerConfig.

(** The recognizer layers of transformer/model_quantize.py, by constructor
    call. *)
Inductive Recognizer : Type :=
| VectorQuantizeLayer_L2 (input_dim vq_size vq_dim : Z)
| VectorQuantizeLayer_GB (input_dim vq_size vq_dim : Z)
| GlobalStyleTokenLayer (input_dim gst_size gst_dim : Z)
| LinearLayer (input_dim output_dim : Z).

(** Modelled from the spec: the layers' own code (transformer/model_quantize.py)
    is not among the sources; a recognizer built for width [dim] produces a
    code of width [dim] and exposes it as [out_dim]. *)
Definition Recognizer_out_dim (r : Recognizer) : Z :=
  match r with
  | VectorQuantizeLayer_L2 _ _ dim => dim
  | VectorQuantizeLayer_GB _ _ dim => dim
  | GlobalStyleTokenLayer _ _ dim => dim
  | LinearLayer _ dim => dim
  end.

(** [TransformerModel] of transformer/model.py: its constructor arguments and
    its parameter tree. *)
Record TransformerModel (A : Type) : Type := mkTransformerModel {
  tm_input_dim : Z;
  tm_output_attentions : bool;
  tm_keep_multihead_output : bool;
  tm_with_input_module : option bool;
  tm_module : nn_Module A
}.

Definition set_tm_module {A : Type} (m : TransformerModel A) (tree : nn_Module A)
    : TransformerModel A :=
  {| tm_input_dim := tm_input_dim m;
     tm_output_attentions := tm_output_attentions m;
     tm_keep_multihead_output := tm_keep_multihead_output m;
     tm_with_input_module := tm_with_input_module m;
     tm_module := tree |}.

(** [TransformerSpecPredictionHead(config, output_dim, input_dim)] *)
Record TransformerSpecPredictionHead : Type := mkSpecHead {
  head_output_dim : Z;
  head_input_dim : option Z
}.

(** The collaborators: what the imported classes and torch compute. *)
Class Backend (A : Type) : Type := {
  Attentions : Type;
  Mask : Type;
  (** the parameter tree a new [TransformerModel] is built with *)
  TransformerModel_new : Cfg.t -> Z -> option bool -> nn_Module A;
  (** [TransformerModel.forward(input, pos_enc, attention_mask,
      output_all_encoded_layers, head_mask)] *)
  TransformerModel_forward :
    TransformerModel A -> Tensor A -> option (Tensor A) -> option Mask ->
    bool -> option Mask -> Attentions * Tensor A;
  Recognizer_forward : Recognizer -> Tensor A -> Tensor A;
  (** [TransformerSpecPredictionHead.forward]: predicted features and state *)
  SpecHead_forward : TransformerSpecPredictionHead -> Tensor A -> Tensor A * Tensor A;
  (** [module.apply(self.init_Transformer_weights)] on a parameter tree *)
  init_Transformer_weights : nn_Module A -> nn_Module A;
  (** the checkpoint files: what [torch.load] reads at a path *)
  checkpoint_files : string -> option (dict (StateDict A))
}.

(** [self.attr] of an attribute that was set only on some paths *)
Definition attr {X : Type} (o : option X) : result X :=
  match o with
  | Some x => Ok x
  | None => Raise AttributeError
  end.

(** [d[k]] *)
Definition getitem {V : Type} (d : dict V) (k : string) : result V :=
  match get k d with
  | Some v => Ok v
  | None => Raise KeyError
  end.

Section Model.
Context {A : Type} `{Scalar A} `{Backend A}.

(** [TransformerModel(config, input_dim, output_attentions=...,
    keep_multihead_output=..., with_input_module=...)] *)
Definition TransformerModel_init (config : Cfg.t) (input_dim : Z)
    (output_attentions keep_multihead_output : bool)
    (with_input_module : option bool) : TransformerModel A :=
  {| tm_input_dim := input_dim;
     tm_output_attentions := output_attentions;
     tm_keep_multihead_output := keep_multihead_output;
     tm_with_input_module := with_input_module;
     tm_module := TransformerModel_new config input_dim with_input_module |}.

(** [torch.load(f, map_location='cpu')]: a path is opened and read; a list
    is neither a path nor a file object, and reading it as a file fails with
    AttributeError (a list has no attribute [seek]). *)
Definition torch_load (f : pyobj) : result (dict (StateDict A)) :=
  match f with
  | PStr path =>
      match checkpoint_files path with
      | Some all_states => Ok all_states
      | None => Raise FileNotFoundError
      end
  | PList _ => Raise AttributeError
  end.

(** *** load_model *)

(** Lines 310-314: the new name of a checkpoint key, [None] when it has
    neither legacy component. *)
Definition new_key_of (key : string) : option string :=
  let new_key := None in
  let new_key :=
    if contains "gamma" key then Some (replace "gamma" "weight" key) else new_key in
  let new_key :=
    if contains "beta" key then Some (replace "beta" "bias" key) else new_key in
  new_key.

(** Lines 307-317: [old_keys] and [new_keys]; [if new_key:] is false for
    [None] and for the empty string. *)
Fixpoint collect_keys (ks : list string) : list string * list string :=
  match ks with
  | [] => ([], [])
  | key :: rest =>
      let '(old_keys, new_keys) := collect_keys rest in
      match new_key_of key with
      | Some (String c s) => (key :: old_keys, String c s :: new_keys)
      | _ => (old_keys, new_keys)
      end
  end.

(** Lines 318-319: [state_dict[new_key] = state_dict.pop(old_key)] for each
    pair; the dictionary is the caller's and keeps what was done when a
    [pop] fails. *)
Fixpoint rename_all (pairs : list (string * string)) (d : dict (nn_Parameter A))
    : result unit * dict (nn_Parameter A) :=
  match pairs with
  | [] => (Ok tt, d)
  | (old_key, new_key) :: rest =>
      match pop old_key d with
      | Some (v, d') => rename_all rest (set new_key v d')
      | None => (Raise KeyError, d)
      end
  end.

(** Lines 334-336: the loop over [module._modules.items()], given what
    [load] does to a child; a child's load that raises ends the loop. *)
Definition load_children
    (load : nn_Module A -> string -> LoadLists ->
            nn_Module A * LoadLists * option exn)
    (prefix : string)
    : dict (option (nn_Module A)) -> LoadLists ->
      dict (option (nn_Module A)) * LoadLists * option exn :=
  fix children (cs : dict (option (nn_Module A))) (l : LoadLists) :=
    match cs with
    | [] => ([], l, None)
    | (name, None) :: rest =>
        let '(rest', l', raised) := children rest l in
        ((name, None) :: rest', l', raised)
    | (name, Some child) :: rest =>
        let '(child', l1, raised) := load child (prefix ++ name ++ ".") l in
        match raised with
        | Some e => ((name, Some child') :: rest, l1, Some e)
        | None =>
            let '(rest', l', raised') := children rest l1 in
            ((name, Some child') :: rest', l', raised')
        end
    end.

(** Lines 330-336: the local function [load(module, prefix)]; it mutates the
    module tree and the three lists, and returns them with the exception that
    ended it, if any. *)
Fixpoint load (metadata : option (dict (dict Z))) (state_dict : dict (nn_Parameter A))
    (module : nn_Module A) (prefix : string) (l : LoadLists) {struct module}
    : nn_Module A * LoadLists * option exn :=
  match module with
  | mkModule ps cs =>
      let local_metadata :=
        match metadata with
        | None => []
        | Some md =>
            match get (removelast prefix) md with
            | Some x => x
            | None => []
            end
        end in
      let '(ps', l1, raised) :=
        _load_from_state_dict ps cs state_dict prefix local_metadata true l in
      match raised with
      | Some e => (mkModule ps' cs, l1, Some e)
      | None =>
          let '(cs', l2, raised') :=
            load_children (load metadata state_dict) prefix cs l1 in
          (mkModule ps' cs', l2, raised')
      end
  end.

(** What [load_model] prints. *)
Inductive message : Type :=
| Weights_not_initialized (missing_keys : list string)
| Weights_not_used (unexpected_keys : list string)
| Weights_loaded.

(** A call of [load_model] as its caller sees it: what it returned or raised,
    the target module tree and the caller's state dict as the call left them,
    and the lines printed. *)
Record Outcome : Type := mkOutcome {
  returned : result (nn_Module A);
  module_after : nn_Module A;
  state_dict_after : StateDict A;
  printed : list message
}.

(** [try: ... except: raise RuntimeError(...)] *)
Definition except_all {X : Type} (body : result X) : result X :=
  match body with
  | Ok x => Ok x
  | Raise _ => Raise RuntimeError
  end.

Definition load_model (transformer_model : nn_Module A) (state_dict : StateDict A)
    : Outcome :=
  let '(old_keys, new_keys) := collect_keys (keys (items state_dict)) in
  let '(renamed, its) := rename_all (List.combine old_keys new_keys) (items state_dict) in
  let caller_dict := {| items := its; metadata := metadata state_dict |} in
  match renamed with
  | Raise e =>
      {| returned := except_all (Raise e);
         module_after := transformer_model;
         state_dict_after := caller_dict;
         printed := [] |}
  | Ok _ =>
      (* state_dict = state_dict.copy(), with _metadata put back *)
      let '(m', l, raised) :=
        load (metadata state_dict) its transformer_model ""
             {| missing_keys := []; unexpected_keys := []; error_msgs := [] |} in
      match raised with
      | Some e =>
          {| returned := except_all (Raise e);
             module_after := m';
             state_dict_after := caller_dict;
             printed := [] |}
      | None =>
          let warnings :=
            ((if (0 <? List.length (missing_keys l))%nat
              then [Weights_not_initialized (missing_keys l)] else []) ++
             (if (0 <? List.length (unexpected_keys l))%nat
              then [Weights_not_used (unexpected_keys l)] else []))%list in
          if (0 <? List.length (error_msgs l))%nat then
            {| returned := except_all (Raise RuntimeError);
               module_after := m';
               state_dict_after := caller_dict;
               printed := warnings |}
          else
            {| returned := except_all (Ok m');
               module_after := m';
               state_dict_after := caller_dict;
               printed := (warnings ++ [Weights_loaded])%list |}
      end
  end.

End Model.

(** *** class TransformerPhoneticEncoder *)

Module TransformerPhoneticEncoder.

Record t (A : Type) : Type := mk {
  output_attentions : bool;
  Transformer : TransformerModel A;
  PhoneRecognizer : option Recognizer;
  with_recognizer : bool;
  out_dim : Z
}.

Definition set_Transformer {A : Type} (self : t A) (m : TransformerModel A) : t A :=
  {| output_attentions := output_attentions self;
     Transformer := m;
     PhoneRecognizer := PhoneRecognizer self;
     with_recognizer := with_recognizer self;
     out_dim := out_dim self |}.

Section Encoder.
Context {A : Type} `{Scalar A} `{Backend A}.

Definition __init__ (config : Cfg.t) (input_dim : Z)
    (output_attentions keep_multihead_output with_recognizer : bool)
    : result (t A) :=
  let Transformer :=
    TransformerModel_init config input_dim output_attentions keep_multihead_output None in
  '(PhoneRecognizer, with_recognizer) <-
    (if (Cfg.phone_type config =? "l2")%string && with_recognizer then
       Ok (Some (VectorQuantizeLayer_L2 (Cfg.hidden_size config)
                   (Cfg.phone_size config) (Cfg.phone_dim config)), with_recognizer)
     else if (Cfg.phone_type config =? "gb")%string && with_recognizer then
       Ok (Some (VectorQuantizeLayer_GB (Cfg.hidden_size config)
                   (Cfg.phone_size config) (Cfg.phone_dim config)), with_recognizer)
     else if (Cfg.phone_type config =? "gst")%string && with_recognizer then
       Ok (Some (GlobalStyleTokenLayer (Cfg.hidden_size config)
                   (Cfg.phone_size config) (Cfg.phone_dim config)), with_recognizer)
     else if (Cfg.phone_type config =? "linear")%string && with_recognizer then
       Ok (Some (LinearLayer (Cfg.hidden_size config) (Cfg.phone_dim config)),
           with_recognizer)
     else if (Cfg.phone_type config =? "none")%string && with_recognizer then
       Ok (None, false)
     else if with_recognizer then
       Raise NotImplementedError
     else Ok (None, with_recognizer)) ;;
  (* self.apply(self.init_Transformer_weights) *)
  let Transformer :=
    set_tm_module Transformer (init_Transformer_weights (tm_module Transformer)) in
  out_dim <-
    (if with_recognizer
     then r <- attr PhoneRecognizer ;; Ok (Recognizer_out_dim r)
     else Ok (Cfg.hidden_size config)) ;;
  Ok {| output_attentions := output_attentions;
        Transformer := Transformer;
        PhoneRecognizer := PhoneRecognizer;
        with_recognizer := with_recognizer;
        out_dim := out_dim |}.

(** [forward]: the attentions (when [output_attentions]) and the code. *)
Definition forward (self : t A) (spec_input : Tensor A) (pos_enc : Tensor A)
    (attention_mask : option Mask) (output_all_encoded_layers : bool)
    (head_mask : option Mask) : result (option Attentions * Tensor A) :=
  let '(all_attentions, sequence_output) :=
    TransformerModel_forward (Transformer self) spec_input (Some pos_enc)
      attention_mask output_all_encoded_layers head_mask in
  phonetic_code <-
    (if with_recognizer self
     then r <- attr (PhoneRecognizer self) ;; Ok (Recognizer_forward r sequence_output)
     else Ok sequence_output) ;;
  if output_attentions self
  then Ok (Some all_attentions, phonetic_code)
  else Ok (None, phonetic_code).

End Encoder.

End TransformerPhoneticEncoder.

(** *** class TransformerSpeakerEncoder *)

Module TransformerSpeakerEncoder.

Record t (A : Type) : Type := mk {
  output_attentions : bool;
  Transformer : TransformerModel A;
  SpeakerRecognizer : option Recognizer;
  average_pooling : bool;
  with_recognizer : bool;
  out_dim : Z
}.

Definition set_Transformer {A : Type} (self : t A) (m : TransformerModel A) : t A :=
  {| output_attentions := output_attentions self;
     Transformer := m;
     SpeakerRecognizer := SpeakerRecognizer self;
     average_pooling := average_pooling self;
     with_recognizer := with_recognizer self;
     out_dim := out_dim self |}.

Section Encoder.
Context {A : Type} `{Scalar A} `{Backend A}.

Definition __init__ (config : Cfg.t) (input_dim : Z)
    (output_attentions keep_multihead_output with_recognizer : bool)
    : result (t A) :=
  let Transformer :=
    TransformerModel_init config input_dim output_attentions keep_multihead_output None in
  '(SpeakerRecognizer, with_recognizer) <-
    (if (Cfg.speaker_type config =? "gst")%string && with_recognizer then
       Ok (Some (GlobalStyleTokenLayer (Cfg.hidden_size config)
                   (Cfg.speaker_size config) (Cfg.speaker_dim config)), with_recognizer)
     else if (Cfg.speaker_type config =? "linear")%string && with_recognizer then
       Ok (Some (LinearLayer (Cfg.hidden_size config) (Cfg.speaker_dim config)),
           with_recognizer)
     else if (Cfg.phone_type config =? "none")%string && with_recognizer then
       Ok (None, false)
     else if with_recognizer then
       Raise NotImplementedError
     else Ok (None, with_recognizer)) ;;
  let Transformer :=
    set_tm_module Transformer (init_Transformer_weights (tm_module Transformer)) in
  out_dim <-
    (if with_recognizer
     then r <- attr SpeakerRecognizer ;; Ok (Recognizer_out_dim r)
     else Ok (Cfg.hidden_size config)) ;;
  Ok {| output_attentions := output_attentions;
        Transformer := Transformer;
        SpeakerRecognizer := SpeakerRecognizer;
        average_pooling := Cfg.average_pooling config;
        with_recognizer := with_recognizer;
        out_dim := out_dim |}.

Definition forward (self : t A) (spec_input : Tensor A) (pos_enc : Tensor A)
    (attention_mask : option Mask) (output_all_encoded_layers : bool)
    (head_mask : option Mask) : result (option Attentions * Tensor A) :=
  let '(all_attentions, sequence_output) :=
    TransformerModel_forward (Transformer self) spec_input (Some pos_enc)
      attention_mask output_all_encoded_layers head_mask in
  let sequence_output :=
    if average_pooling self then mean1_unsqueeze sequence_output
    else sequence_output in
  speaker_code <-
    (if with_recognizer self
     then r <- attr (SpeakerRecognizer self) ;; Ok (Recognizer_forward r sequence_output)
     else Ok sequence_output) ;;
  if output_attentions self
  then Ok (Some all_attentions, speaker_code)
  else Ok (None, speaker_code).

End Encoder.

End TransformerSpeakerEncoder.

(** *** class DualTransformerForMaskedAcousticModel *)

Module DualTransformerForMaskedAcousticModel.

Record t (A : Type) : Type := mk {
  output_attentions : bool;
  decoder : bool;
  use_pe : bool;
  combine : string;
  phone_dim : Z;
  speaker_dim : Z;
  average_pooling : bool;
  PhoneticTransformer : option (TransformerPhoneticEncoder.t A);
  SpeakerTransformer : option (TransformerSpeakerEncoder.t A);
  SPE : option A;
  SpecTransformer : option (TransformerModel A);
  SpecHead : TransformerSpecPredictionHead
}.

(** What [forward] returns. *)
Inductive Output (A Attn : Type) : Type :=
| Loss_and_pred (masked_spec_loss : A) (pred_spec : Tensor A)
| Attentions_and_pred (all_attentions : list (option Attn)) (pred_spec : Tensor A)
| Pred_and_state (pred_spec pred_state : Tensor A).

Arguments Loss_and_pred {A Attn}.
Arguments Attentions_and_pred {A Attn}.
Arguments Pred_and_state {A Attn}.

Section Model.
Context {A : Type} `{Scalar A} `{Backend A}.

(** Lines 114-124: the width of the fused code. *)
Definition code_dim (config : Cfg.t)
    (PhoneticTransformer : option (TransformerPhoneticEncoder.t A))
    (SpeakerTransformer : option (TransformerSpeakerEncoder.t A)) : result Z :=
  if (Cfg.phone_dim config =? 0) && (Cfg.speaker_dim config =? 0) then
    Raise ValueError
  else if (Cfg.phone_dim config =? 0) || (Cfg.speaker_dim config =? 0) then
    Ok (Z.max (Cfg.phone_dim config) (Cfg.speaker_dim config))
  else if (Cfg.combine config =? "concat")%string then
    p <- attr PhoneticTransformer ;;
    s <- attr SpeakerTransformer ;;
    Ok (TransformerPhoneticEncoder.out_dim p + TransformerSpeakerEncoder.out_dim s)
  else if (Cfg.combine config =? "add")%string then
    p <- attr PhoneticTransformer ;;
    s <- attr SpeakerTransformer ;;
    assert! (TransformerPhoneticEncoder.out_dim p =? TransformerSpeakerEncoder.out_dim s) ;;
    Ok (TransformerPhoneticEncoder.out_dim p)
  else
    Raise NotImplementedError.

(** Lines 100-133: everything [__init__] does before the weight handling. *)
Definition build (config : Cfg.t) (input_dim : Z) (output_dim : option Z)
    (output_attentions keep_multihead_output : bool) : result (t A) :=
  assert! (Cfg.dual_transformer config) ;;
  (* build encoder *)
  PhoneticTransformer <-
    (if negb (Cfg.phone_dim config =? 0) then
       p <- TransformerPhoneticEncoder.__init__ config input_dim
              output_attentions keep_multihead_output true ;;
       Ok (Some p)
     else Ok None) ;;
  SpeakerTransformer <-
    (if negb (Cfg.speaker_dim config =? 0) then
       s <- TransformerSpeakerEncoder.__init__ config input_dim
              output_attentions keep_multihead_output true ;;
       Ok (Some s)
     else Ok None) ;;
  code_dim <- code_dim config PhoneticTransformer SpeakerTransformer ;;
  (* build decoder *)
  let SPE :=
    if Cfg.decoder config && Cfg.intermediate_pe config then Some one else None in
  let SpecTransformer :=
    if Cfg.decoder config then
      Some (TransformerModel_init config code_dim output_attentions
              keep_multihead_output
              (Some (if Cfg.intermediate_pe config then true else false)))
    else None in
  let SpecHead :=
    {| head_output_dim := match output_dim with Some d => d | None => input_dim end;
       head_input_dim := if negb (Cfg.decoder config) then Some code_dim else None |} in
  Ok {| output_attentions := output_attentions;
        decoder := Cfg.decoder config;
        use_pe := Cfg.intermediate_pe config;
        combine := Cfg.combine config;
        phone_dim := Cfg.phone_dim config;
        speaker_dim := Cfg.speaker_dim config;
        average_pooling := Cfg.average_pooling config;
        PhoneticTransformer := PhoneticTransformer;
        SpeakerTransformer := SpeakerTransformer;
        SPE := SPE;
        SpecTransformer := SpecTransformer;
        SpecHead := SpecHead |}.

(** Line 137: [if len(config.pre_train) == 1: config.pre_train = [config.pre_train]],
    under the guard of line 136. *)
Definition normalize_pre_train (config : Cfg.t) : Cfg.t :=
  if (0 <? List.length (Cfg.pre_train config))%nat then
    if (List.length (Cfg.pre_train config) =? 1)%nat
    then Cfg.set_pre_train config [PList (Cfg.pre_train config)]
    else config
  else config.

(** [l[0]] and [l[-1]] *)
Definition first_item (l : list pyobj) : result pyobj :=
  match l with
  | x :: _ => Ok x
  | [] => Raise IndexError
  end.

Definition last_item (l : list pyobj) : result pyobj :=
  match rev l with
  | x :: _ => Ok x
  | [] => Raise IndexError
  end.

(** Lines 136-141 after the assignment of line 137: [config] is the
    configuration as line 137 left it. *)
Definition weight_handling (config : Cfg.t) (self : t A) : result (t A) :=
  if (0 <? List.length (Cfg.pre_train config))%nat then
    f1 <- first_item (Cfg.pre_train config) ;;
    all_states1 <- torch_load f1 ;;
    f2 <- last_item (Cfg.pre_train config) ;;
    all_states2 <- torch_load f2 ;;
    PhoneticTransformer <-
      (if negb (phone_dim self =? 0) then
         p <- attr (PhoneticTransformer self) ;;
         state_dict <- getitem all_states1 "Transformer" ;;
         m <- returned (load_model (tm_module (TransformerPhoneticEncoder.Transformer p))
                                   state_dict) ;;
         Ok (Some (TransformerPhoneticEncoder.set_Transformer p
                     (set_tm_module (TransformerPhoneticEncoder.Transformer p) m)))
       else Ok (PhoneticTransformer self)) ;;
    SpeakerTransformer <-
      (if negb (speaker_dim self =? 0) then
         s <- attr (SpeakerTransformer self) ;;
         state_dict <- getitem all_states2 "Transformer" ;;
         m <- returned (load_model (tm_module (TransformerSpeakerEncoder.Transformer s))
                                   state_dict) ;;
         Ok (Some (TransformerSpeakerEncoder.set_Transformer s
                     (set_tm_module (TransformerSpeakerEncoder.Transformer s) m)))
       else Ok (SpeakerTransformer self)) ;;
    Ok {| output_attentions := output_attentions self;
          decoder := decoder self;
          use_pe := use_pe self;
          combine := combine self;
          phone_dim := phone_dim self;
          speaker_dim := speaker_dim self;
          average_pooling := average_pooling self;
          PhoneticTransformer := PhoneticTransformer;
          SpeakerTransformer := SpeakerTransformer;
          SPE := SPE self;
          SpecTransformer := SpecTransformer self;
          SpecHead := SpecHead self |}
  else Ok self.

(** Line 142: [self.apply(self.init_Transformer_weights)] over the three
    transformers' parameter trees. *)
Definition apply_init (self : t A) : t A :=
  let init m := set_tm_module m (init_Transformer_weights (tm_module m)) in
  {| output_attentions := output_attentions self;
     decoder := decoder self;
     use_pe := use_pe self;
     combine := combine self;
     phone_dim := phone_dim self;
     speaker_dim := speaker_dim self;
     average_pooling := average_pooling self;
     PhoneticTransformer :=
       option_map (fun p => TransformerPhoneticEncoder.set_Transformer p
                              (init (TransformerPhoneticEncoder.Transformer p)))
                  (PhoneticTransformer self);
     SpeakerTransformer :=
       option_map (fun s => TransformerSpeakerEncoder.set_Transformer s
                              (init (TransformerSpeakerEncoder.Transformer s)))
                  (SpeakerTransformer self);
     SPE := SPE self;
     SpecTransformer := option_map init (SpecTransformer self);
     SpecHead := SpecHead self |}.

(** [__init__]: the configuration object as the constructor leaves it, and
    the model or the exception. *)
Definition __init__ (config : Cfg.t) (input_dim : Z) (output_dim : option Z)
    (output_attentions keep_multihead_output : bool) : Cfg.t * result (t A) :=
  match build config input_dim output_dim output_attentions keep_multihead_output with
  | Raise e => (config, Raise e)
  | Ok self =>
      let config := normalize_pre_train config in
      (config, self <- weight_handling config self ;; Ok (apply_init self))
  end.

(** [x.method(...)] or an argument use of a value that may be [None] *)
Definition tensor_of (code : option (Tensor A)) (e : exn) : result (Tensor A) :=
  match code with
  | Some x => Ok x
  | None => Raise e
  end.

(** Lines 146-162: the two encoders; the attentions (kept when
    [output_attentions]) and the two codes, [None] for an encoder that does
    not exist. *)
Definition dual_encoder_forward (self : t A) (phonetic_input speaker_input : Tensor A)
    (pos_enc : Tensor A) (attention_mask head_mask : option Mask)
    : result (list (option Attentions) * option (Tensor A) * option (Tensor A)) :=
  phonetic_outputs <-
    (if negb (phone_dim self =? 0) then
       p <- attr (PhoneticTransformer self) ;;
       '(a, c) <- TransformerPhoneticEncoder.forward p phonetic_input pos_enc
                    attention_mask false head_mask ;;
       Ok (a, Some c)
     else Ok (None, None)) ;;
  speaker_outputs <-
    (if negb (speaker_dim self =? 0) then
       s <- attr (SpeakerTransformer self) ;;
       '(a, c) <- TransformerSpeakerEncoder.forward s speaker_input pos_enc
                    attention_mask false head_mask ;;
       Ok (a, Some c)
     else Ok (None, None)) ;;
  let '(phonetic_attentions, phonetic_code) := phonetic_outputs in
  let '(speaker_attentions, speaker_code) := speaker_outputs in
  Ok ([phonetic_attentions; speaker_attentions], phonetic_code, speaker_code).

(** Lines 164-166: replicate code. *)
Definition replicate_code (self : t A) (phonetic_code speaker_code : option (Tensor A))
    : result (option (Tensor A)) :=
  if negb (speaker_dim self =? 0) && average_pooling self then
    s <- tensor_of speaker_code AttributeError ;;
    p <- tensor_of phonetic_code AttributeError ;;
    Ok (Some (repeat1 s (size1 p)))
  else Ok speaker_code.

(** Lines 168-178: combine code. *)
Definition combine_code (self : t A) (phonetic_code speaker_code : option (Tensor A))
    : result (option (Tensor A)) :=
  if speaker_dim self =? 0 then
    Ok phonetic_code
  else if phone_dim self =? 0 then
    Ok speaker_code
  else if (combine self =? "concat")%string then
    p <- tensor_of phonetic_code TypeError ;;
    s <- tensor_of speaker_code TypeError ;;
    code <- cat2 p s ;;
    Ok (Some code)
  else if (combine self =? "add")%string then
    p <- tensor_of phonetic_code TypeError ;;
    s <- tensor_of speaker_code TypeError ;;
    code <- tensor_add p s ;;
    Ok (Some code)
  else
    Raise NotImplementedError.

(** Lines 180-192: decoder forward. *)
Definition decoder_forward (self : t A) (code : Tensor A) (pos_enc : Tensor A)
    (attention_mask head_mask : option Mask) (all_attentions : list (option Attentions))
    : result (list (option Attentions) * Tensor A) :=
  if decoder self then
    spec <- attr (SpecTransformer self) ;;
    pe <- (if use_pe self
           then spe <- attr (SPE self) ;; Ok (Some (scale spe pos_enc))
           else Ok None) ;;
    let '(decoder_attentions, sequence_output) :=
      TransformerModel_forward spec code pe attention_mask false head_mask in
    if output_attentions self
    then Ok ((all_attentions ++ [Some decoder_attentions])%list, sequence_output)
    else Ok (all_attentions, sequence_output)
  else Ok (all_attentions, code).

(** Lines 195-202: compute objective, or return the predictions. *)
Definition compute_objective (self : t A) (all_attentions : list (option Attentions))
    (pred_spec pred_state : Tensor A) (spec_label : option (Tensor A))
    (mask_label : option (Tensor bool)) : result (Output A Attentions) :=
  match spec_label, mask_label with
  | Some spec_label, Some mask_label =>
      assert! (0 <? mask_sum mask_label)%nat ;;
      selected_pred <- masked_select pred_spec mask_label ;;
      selected_label <- masked_select spec_label mask_label ;;
      masked_spec_loss <- L1Loss selected_pred selected_label ;;
      Ok (Loss_and_pred masked_spec_loss pred_spec)
  | _, _ =>
      if output_attentions self
      then Ok (Attentions_and_pred all_attentions pred_spec)
      else Ok (Pred_and_state pred_spec pred_state)
  end.

Definition forward (self : t A) (phonetic_input speaker_input pos_enc : Tensor A)
    (mask_label : option (Tensor bool)) (attention_mask : option Mask)
    (spec_label : option (Tensor A)) (head_mask : option Mask)
    : result (Output A Attentions) :=
  '(all_attentions, phonetic_code, speaker_code) <-
    dual_encoder_forward self phonetic_input speaker_input pos_enc
      attention_mask head_mask ;;
  speaker_code <- replicate_code self phonetic_code speaker_code ;;
  code <- combine_code self phonetic_code speaker_code ;;
  (* a [None] code is refused by the first layer that is given it *)
  code <- tensor_of code TypeError ;;
  '(all_attentions, sequence_output) <-
    decoder_forward self code pos_enc attention_mask head_mask all_attentions ;;
  let '(pred_spec, pred_state) := SpecHead_forward (SpecHead self) sequence_output in
  compute_objective self all_attentions pred_spec pred_state spec_label mask_label.

End Model.

End DualTransformerForMaskedAcousticModel.

End ModelDual.

(** ** A concrete backend for examples

    Every collaborator is the simplest function with the right interface:
    the transformers return their input, a recognizer keeps the batch and the
    time axis and produces its [out_dim] features, the head returns its input
    twice, the initialisation leaves the parameters, and one checkpoint file
    exists. *)

Module Examples.

Import Torch PyDict NN ModelDual.

Local Open Scope string_scope.

Definition layer_norm (w b : float) : nn_Module float :=
  mkModule [("weight", {| p_shape := [1%nat]; p_data := [w] |});
            ("bias", {| p_shape := [1%nat]; p_data := [b] |})] [].

(** A transformer's parameter tree: one parameter of its own and one child. *)
Definition small_tree : nn_Module float :=
  mkModule [("scale", {| p_shape := [1%nat]; p_data := [1%float] |})]
           [("LayerNorm", Some (layer_norm 1 0))].

Definition checkpoint : dict (StateDict float) :=
  [("Transformer",
    {| items := [("LayerNorm.gamma", {| p_shape := [1%nat]; p_data := [2%float] |});
                 ("LayerNorm.beta", {| p_shape := [1%nat]; p_data := [3%float] |})];
       metadata := None |})].

#[export] Instance small_Backend : Backend float := {
  Attentions := unit;
  Mask := unit;
  TransformerModel_new _ _ _ := small_tree;
  TransformerModel_forward _ x _ _ _ _ := (tt, x);
  Recognizer_forward r x :=
    {| size0 := size0 x; size1 := size1 x;
       size2 := Z.to_nat (Recognizer_out_dim r);
       item b t f := item x b t 0 |};
  SpecHead_forward _ x := (x, x);
  init_Transformer_weights m := m;
  checkpoint_files path := if path =? "ckpt" then Some checkpoint else None
}.

(** A configuration without decoder, hidden size 768, by the attributes the
    examples vary. *)
Definition config_of (dual_transformer : bool) (combine phone_type : string)
    (phone_dim : Z) (speaker_type : string) (speaker_dim : Z)
    (average_pooling : bool) (pre_train : list pyobj) : Cfg.t :=
  {| Cfg.hidden_size := 768;
     Cfg.dual_transformer := dual_transformer;
     Cfg.decoder := false;
     Cfg.intermediate_pe := false;
     Cfg.combine := combine;
     Cfg.phone_type := phone_type;
     Cfg.phone_size := 32;
     Cfg.phone_dim := phone_dim;
     Cfg.speaker_type := speaker_type;
     Cfg.speaker_size := 8;
     Cfg.speaker_dim := speaker_dim;
     Cfg.average_pooling := average_pooling;
     Cfg.pre_train := pre_train |}.

End Examples.

(** ** The specification's words on construction

    Section 4.1 and 4.2 of the specification, as functions of the
    configuration alone; the theorems below compare them with what
    [__init__] computes. *)

Module Spec.

Import ModelDual.

Local Open Scope string_scope.
Local Open Scope Z_scope.

(** "[out_dim] = recognizer output width, or hidden_size if no recognizer" *)
Definition phonetic_out_dim (config : Cfg.t) : Z :=
  if (Cfg.phone_type config =? "none")%string then Cfg.hidden_size config
  else Cfg.phone_dim config.

Definition speaker_out_dim (config : Cfg.t) : Z :=
  if (Cfg.speaker_type config =? "none")%string then Cfg.hidden_size config
  else Cfg.speaker_dim config.

(** "Fails with ConfigError if both dims are zero", "requires
    phonetic_out_dim == speaker_out_dim (fails with ConfigError otherwise)",
    "any other combine value: fails with ConfigError": the exception the
    source raises in each case, [None] for a valid configuration. *)
Definition construction_error (config : Cfg.t) : option exn :=
  if (Cfg.phone_dim config =? 0) && (Cfg.speaker_dim config =? 0) then
    Some ValueError
  else if (Cfg.phone_dim config =? 0) || (Cfg.speaker_dim config =? 0) then
    None
  else if (Cfg.combine config =? "concat")%string then
    None
  else if (Cfg.combine config =? "add")%string then
    if phonetic_out_dim config =? speaker_out_dim config then None
    else Some AssertionError
  else Some NotImplementedError.

(** "Determine fused code dimension code_dim" *)
Definition code_dim (config : Cfg.t) : Z :=
  if Cfg.phone_dim config =? 0 then speaker_out_dim config
  else if Cfg.speaker_dim config =? 0 then phonetic_out_dim config
  else if (Cfg.combine config =? "concat")%string
       then phonetic_out_dim config + speaker_out_dim config
       else phonetic_out_dim config.

(** The type tags that name a recognizer (or none). *)
Definition phone_types : list string := ["l2"; "gb"; "gst"; "linear"; "none"].

End Spec.

(** * Notions the properties are stated with *)

Unset Implicit Arguments.

Import Torch PyStr PyDict NN ModelDual Examples.

Module PE := TransformerPhoneticEncoder.
Module SE := TransformerSpeakerEncoder.
Module D := DualTransformerForMaskedAcousticModel.

Local Open Scope string_scope.
Local Open Scope Z_scope.

(** ** Construction *)

Section ConstructedModels.
Context {A : Type} `{Scalar A} `{Backend A}.

(** What every model built by [__init__] satisfies: its attributes are the
    configuration's, and each encoder exists exactly when its dimension is
    not zero and is the encoder its constructor built, up to the weights of
    its transformer. *)
Record constructed (config : Cfg.t) (input_dim : Z) (oa kmo : bool)
    (self : D.t A) : Prop := {
  c_output_attentions : D.output_attentions self = oa;
  c_decoder : D.decoder self = Cfg.decoder config;
  c_use_pe : D.use_pe self = Cfg.intermediate_pe config;
  c_combine : D.combine self = Cfg.combine config;
  c_phone_dim : D.phone_dim self = Cfg.phone_dim config;
  c_speaker_dim : D.speaker_dim self = Cfg.speaker_dim config;
  c_average_pooling : D.average_pooling self = Cfg.average_pooling config;
  c_some_encoder : ~ (Cfg.phone_dim config = 0 /\ Cfg.speaker_dim config = 0);
  c_phonetic :
    if Cfg.phone_dim config =? 0 then D.PhoneticTransformer self = None
    else exists p0 tm, PE.__init__ config input_dim oa kmo true = Ok p0 /\
                       D.PhoneticTransformer self = Some (PE.set_Transformer p0 tm);
  c_speaker :
    if Cfg.speaker_dim config =? 0 then D.SpeakerTransformer self = None
    else exists s0 tm, SE.__init__ config input_dim oa kmo true = Ok s0 /\
                       D.SpeakerTransformer self = Some (SE.set_Transformer s0 tm);
  c_spec_transformer : D.decoder self = true -> D.SpecTransformer self <> None;
  c_SPE : D.decoder self = true -> D.use_pe self = true -> D.SPE self <> None
}.

End ConstructedModels.

(** ** The objective *)

(** The specification's words on the objective: the positions a mask
    selects, and the mean absolute difference of two tensors over given
    positions. *)
Definition masked_positions (mask : Tensor bool) : list (nat * nat * nat) :=
  filter (fun '(b, t, f) => item mask b t f)
         (indices (size0 mask) (size1 mask) (size2 mask)).

Definition mean_abs_diff {A : Type} `{Scalar A} (positions : list (nat * nat * nat))
    (pred label : Tensor A) : A :=
  div_count
    (sum_list (map (fun '(b, t, f) => abs (sub (item pred b t f) (item label b t f)))
                   positions))
    (List.length positions).

(** ** Weight loading *)

(** The pairs of line 318: a checkpoint key with its new name, for each key
    that has one. *)
Definition legacy_pair (key : string) : list (string * string) :=
  match new_key_of key with
  | Some (String c s) => [(key, String c s)]
  | _ => []
  end.

(** The parameter [name] of the module reached from the root through the
    children named in [path]. *)
Inductive param_at {A : Type}
  : nn_Module A -> list string -> string -> nn_Parameter A -> Prop :=
| param_here ps cs name p :
    In (name, p) ps -> param_at (mkModule ps cs) [] name p
| param_below ps cs c child path name p :
    In (c, Some child) cs -> param_at child path name p ->
    param_at (mkModule ps cs) (c :: path) name p.

(** Its name in a state dict: the path and the name joined by dots. *)
Definition key_of (path : list string) (name : string) : string :=
  fold_right (fun c k => c ++ "." ++ k) name path.

(** A checkpoint entry [v] against its target parameter [p], by shapes:
    torch takes the first element of a 1-D entry for a 0-dimensional
    parameter, which an empty entry does not have; any other entry has to
    have the parameter's shape.  An entry that does not fit is either empty
    for a 0-dimensional parameter, and reading it raises, or of another
    shape, and it is reported in the error messages. *)
Definition fits {A : Type} (p v : nn_Parameter A) : Prop :=
  p_shape v = p_shape p \/ (p_shape p = [] /\ exists n, p_shape v = [S n]).

Definition empty_for_scalar {A : Type} (p v : nn_Parameter A) : Prop :=
  p_shape p = [] /\ p_shape v = [0%nat].

Definition other_shape {A : Type} (p v : nn_Parameter A) : Prop :=
  p_shape v <> p_shape p /\
  ~ (p_shape p = [] /\ List.length (p_shape v) = 1%nat).

(** What a load leaves in a parameter: the checkpoint's data when the state
    dict has an entry of the parameter's shape under its key, the first
    element of the entry when the parameter is 0-dimensional and the entry
    1-D and not empty, the parameter as it was otherwise. *)
Definition assign {A : Type} (state_dict : dict (nn_Parameter A)) (key : string)
    (param : nn_Parameter A) : nn_Parameter A :=
  match get key state_dict with
  | Some input_param =>
      if shape_eqb (p_shape input_param) (p_shape param)
      then copy_ param input_param
      else match p_shape param, p_shape input_param with
           | [], [S _] =>
               {| p_shape := []; p_data := firstn 1 (p_data input_param) |}
           | _, _ => param
           end
  | None => param
  end.

(** The entry under [key], if there is one, can be read for [p]: it is not
    an empty 1-D tensor for a 0-dimensional parameter. *)
Definition readable {A : Type} (state_dict : dict (nn_Parameter A)) (key : string)
    (p : nn_Parameter A) : bool :=
  match get key state_dict with
  | Some v =>
      negb ((List.length (p_shape p) =? 0)%nat && shape_eqb (p_shape v) [0%nat])
  | None => true
  end.

Section LoadNotions.
Context {A : Type}.

Implicit Types (m child : nn_Module A) (sd : dict (nn_Parameter A))
  (l : LoadLists) (p : nn_Parameter A).

(** Nothing is ever removed from the lists. *)
Definition extends (l l' : LoadLists) : Prop :=
  incl (missing_keys l) (missing_keys l') /\
  incl (unexpected_keys l) (unexpected_keys l') /\
  incl (error_msgs l) (error_msgs l').

(** What one parameter adds to the lists (the body of the loop of
    [load_local_params], [strict] being true, for an entry that can be
    read). *)
Definition note_param sd (prefix name : string) p l : LoadLists :=
  match get (prefix ++ name) sd with
  | Some input_param =>
      if shape_eqb (p_shape input_param) (p_shape p) then l
      else match p_shape p, p_shape input_param with
           | [], [_] => l
           | _, _ =>
               {| missing_keys := missing_keys l;
                  unexpected_keys := unexpected_keys l;
                  error_msgs := error_msgs l ++ [prefix ++ name] |}
           end
  | None =>
      {| missing_keys := missing_keys l ++ [prefix ++ name];
         unexpected_keys := unexpected_keys l;
         error_msgs := error_msgs l |}
  end.

(** What [load] adds to the lists for a tree: nothing is removed; every
    parameter without an entry is a missing key; every parameter whose entry
    has another shape is an error; and no error is added when every entry
    has its parameter's shape. *)
Definition lists_after sd m (prefix : string) l l' : Prop :=
  extends l l' /\
  (forall path name p, param_at m path name p ->
     get (prefix ++ key_of path name) sd = None ->
     In (prefix ++ key_of path name) (missing_keys l')) /\
  (forall path name p v, param_at m path name p ->
     get (prefix ++ key_of path name) sd = Some v ->
     other_shape p v ->
     In (prefix ++ key_of path name) (error_msgs l')) /\
  ((forall path name p v, param_at m path name p ->
      get (prefix ++ key_of path name) sd = Some v ->
      p_shape v = p_shape p) ->
   error_msgs l' = error_msgs l).

(** *** The load of a tree whose every entry can be read

    When no 0-dimensional parameter has an empty entry nothing in [load]
    raises, and the tree and the lists it leaves are the ones these
    functions compute (lemma [load_readable] below): each parameter is
    [assign]ed and noted with [note_param], the unexpected keys of a module
    are added after its parameters, and the children follow in order. *)
Fixpoint quiet_local_params sd (prefix : string) (ps : dict (nn_Parameter A)) l
    : dict (nn_Parameter A) * LoadLists :=
  match ps with
  | [] => ([], l)
  | (name, p) :: rest =>
      let '(rest', l') :=
        quiet_local_params sd prefix rest (note_param sd prefix name p l) in
      ((name, assign sd (prefix ++ name) p) :: rest', l')
  end.

Definition quiet_children
    (quiet_load : nn_Module A -> string -> LoadLists -> nn_Module A * LoadLists)
    (prefix : string)
    : dict (option (nn_Module A)) -> LoadLists ->
      dict (option (nn_Module A)) * LoadLists :=
  fix children (cs : dict (option (nn_Module A))) (l : LoadLists) :=
    match cs with
    | [] => ([], l)
    | (name, None) :: rest =>
        let '(rest', l') := children rest l in
        ((name, None) :: rest', l')
    | (name, Some child) :: rest =>
        let '(child', l1) := quiet_load child (prefix ++ name ++ ".") l in
        let '(rest', l') := children rest l1 in
        ((name, Some child') :: rest', l')
    end.

Fixpoint quiet_load sd m (prefix : string) l {struct m} : nn_Module A * LoadLists :=
  match m with
  | mkModule ps cs =>
      let '(ps', l1) := quiet_local_params sd prefix ps l in
      let '(cs', l2) :=
        quiet_children (quiet_load sd) prefix cs
          {| missing_keys := missing_keys l1;
             unexpected_keys := unexpected_keys l1 ++ local_unexpected sd prefix ps cs;
             error_msgs := error_msgs l1 |} in
      (mkModule ps' cs', l2)
  end.

End LoadNotions.

Section LoadModelNotions.
Context {A : Type}.

Implicit Types (sd : StateDict A).

(** The entries of the caller's state dict after the renaming loop. *)
Definition renamed_items sd : dict (nn_Parameter A) :=
  snd (rename_all (flat_map legacy_pair (keys (items sd))) (items sd)).

Definition no_lists : LoadLists :=
  {| missing_keys := []; unexpected_keys := []; error_msgs := [] |}.

End LoadModelNotions.

(** [f] holds of every parameter of the tree, each with its dotted name
    after [prefix]. *)
Fixpoint all_params {A : Type} (f : string -> nn_Parameter A -> bool)
    (m : nn_Module A) (prefix : string) {struct m} : bool :=
  match m with
  | mkModule ps cs =>
      forallb (fun '(name, p) => f (prefix ++ name) p) ps &&
      forallb (fun '(c, o) =>
                 match o with
                 | Some child => all_params f child (prefix ++ c ++ ".")
                 | None => true
                 end) cs
  end.

(** Every entry of the state dict has the shape of its target parameter. *)
Definition shapes_agree {A : Type} (state_dict : dict (nn_Parameter A))
    (key : string) (p : nn_Parameter A) : bool :=
  match get key state_dict with
  | Some v => shape_eqb (p_shape v) (p_shape p)
  | None => true
  end.

(** ** Example parameter trees and checkpoints *)

Definition weight (shape : list nat) (data : list float) : nn_Parameter float :=
  {| p_shape := shape; p_data := data |}.

(** A checkpoint in the legacy naming for [small_tree], with a key the tree
    does not know; the tree's parameter "scale" has no entry. *)
Definition legacy_checkpoint : StateDict float :=
  {| items := [("LayerNorm.gamma", weight [1%nat] [2%float]);
               ("LayerNorm.beta", weight [1%nat] [3%float]);
               ("pooler.dense", weight [1%nat] [4%float])];
     metadata := None |}.

(** A checkpoint whose "weight" fits the target and whose "bias" does not. *)
Definition mismatched_checkpoint : StateDict float :=
  {| items := [("weight", weight [1%nat] [2%float]);
               ("bias", weight [2%nat] [3%float; 3%float])];
     metadata := None |}.

(** A target with the two names a key with both 'gamma' and 'beta' could be
    given, and a checkpoint with such a key. *)
Definition two_names_target : nn_Module float :=
  mkModule [("weight_beta", weight [1%nat] [0%float]);
            ("gamma_bias", weight [1%nat] [0%float])] [].

Definition gamma_beta_checkpoint : StateDict float :=
  {| items := [("gamma_beta", weight [1%nat] [7%float])];
     metadata := None |}.

(** A target with a 0-dimensional parameter "scale" between two parameters
    of shape [1]; a checkpoint in the legacy naming whose "scale" is 1-D with
    two elements; and one whose "scale" is 1-D and empty. *)
Definition scalar_target : nn_Module float :=
  mkModule [("bias", weight [1%nat] [0%float]);
            ("scale", weight [] [1%float]);
            ("weight", weight [1%nat] [0%float])] [].

Definition one_dim_checkpoint : StateDict float :=
  {| items := [("beta", weight [1%nat] [3%float]);
               ("scale", weight [2%nat] [5%float; 6%float]);
               ("gamma", weight [1%nat] [2%float])];
     metadata := None |}.

Definition empty_entry_checkpoint : StateDict float :=
  {| items := [("beta", weight [1%nat] [3%float]);
               ("scale", weight [0%nat] []);
               ("gamma", weight [1%nat] [2%float])];
     metadata := None |}.

(** ** Further notions of weight loading *)

(** Some parameter of the tree has an entry that does not fit it. *)
Definition shape_conflict {A : Type} (state_dict : dict (nn_Parameter A))
    (m : nn_Module A) : Prop :=
  exists path name p v,
    param_at m path name p /\
    get (key_of path name) state_dict = Some v /\
    ~ fits p v.

(** Some 0-dimensional parameter of the tree has an empty 1-D entry. *)
Definition unreadable_entry {A : Type} (state_dict : dict (nn_Parameter A))
    (m : nn_Module A) : Prop :=
  exists path name p v,
    param_at m path name p /\
    get (key_of path name) state_dict = Some v /\
    empty_for_scalar p v.

(** What [load] adds to the lists for a tree, read the other way: a missing
    key it adds names a parameter of the tree without an entry, an error it
    adds a parameter whose entry has another shape, and an unexpected key it
    adds is a key of the state dict. *)
Definition lists_exact {A : Type} (sd : dict (nn_Parameter A)) (m : nn_Module A)
    (prefix : string) (l l' : LoadLists) : Prop :=
  (forall key, In key (missing_keys l') ->
     In key (missing_keys l) \/
     exists path name p, param_at m path name p /\
                         key = prefix ++ key_of path name /\ get key sd = None) /\
  (forall key, In key (error_msgs l') ->
     In key (error_msgs l) \/
     exists path name p v, param_at m path name p /\
                           key = prefix ++ key_of path name /\
                           get key sd = Some v /\ other_shape p v) /\
  (forall key, In key (unexpected_keys l') ->
     In key (unexpected_keys l) \/ In key (keys sd)).

(** The warnings [load_model] prints for the lists of a load. *)
Definition warnings (l : LoadLists) : list message :=
  ((if (0 <? List.length (missing_keys l))%nat
    then [Weights_not_initialized (missing_keys l)] else []) ++
   (if (0 <? List.length (unexpected_keys l))%nat
    then [Weights_not_used (unexpected_keys l)] else []))%list.

(** ** Further notions of construction *)

(** A configuration with a decoder and the intermediate positional encoding,
    both encoders and 'concat'. *)
Definition decoder_config : Cfg.t :=
  {| Cfg.hidden_size := 768;
     Cfg.dual_transformer := true;
     Cfg.decoder := true;
     Cfg.intermediate_pe := true;
     Cfg.combine := "concat";
     Cfg.phone_type := "l2";
     Cfg.phone_size := 32;
     Cfg.phone_dim := 64;
     Cfg.speaker_type := "gst";
     Cfg.speaker_size := 8;
     Cfg.speaker_dim := 16;
     Cfg.average_pooling := false;
     Cfg.pre_train := [] |}.

(** ** Further notions of the forward pass *)

(** The predicted spectrogram, which every return of [forward] carries. *)
Definition pred_spec_of {A Attn : Type} (out : D.Output A Attn) : Tensor A :=
  match out with
  | D.Loss_and_pred _ pred_spec => pred_spec
  | D.Attentions_and_pred _ pred_spec => pred_spec
  | D.Pred_and_state pred_spec _ => pred_spec
  end.

(** * Properties *)

Ltac split_bind H :=
  repeat match type of H with
         | context [Py.bind ?r _] =>
             destruct r eqn:?; simpl in H; try discriminate H
         end.

(** ** Construction *)

Section Construction.
Context {A : Type} `{Scalar A} `{Backend A}.

Lemma phonetic_init_recognizer (config : Cfg.t) input_dim oa kmo :
  In (Cfg.phone_type config) ["l2"; "gb"; "gst"; "linear"] ->
  exists p, PE.__init__ config input_dim oa kmo true = Ok p /\
            PE.out_dim p = Cfg.phone_dim config /\
            PE.with_recognizer p = true /\
            PE.PhoneRecognizer p <> None /\
            PE.output_attentions p = oa.
Proof.
  intros Hin. unfold PE.__init__.
  simpl in Hin.
  destruct Hin as [E | [E | [E | [E | []]]]]; rewrite <- E; simpl;
    eexists; (split; [reflexivity | simpl; repeat split; congruence]).
Qed.

Lemma phonetic_init_none (config : Cfg.t) input_dim oa kmo :
  Cfg.phone_type config = "none" ->
  exists p, PE.__init__ config input_dim oa kmo true = Ok p /\
            PE.out_dim p = Cfg.hidden_size config /\
            PE.with_recognizer p = false /\
            PE.output_attentions p = oa.
Proof.
  intros E. unfold PE.__init__. rewrite E. simpl.
  eexists; split; [reflexivity | simpl; auto].
Qed.

Lemma speaker_init_recognizer (config : Cfg.t) input_dim oa kmo :
  In (Cfg.speaker_type config) ["gst"; "linear"] ->
  exists s, SE.__init__ config input_dim oa kmo true = Ok s /\
            SE.out_dim s = Cfg.speaker_dim config /\
            SE.with_recognizer s = true /\
            SE.SpeakerRecognizer s <> None /\
            SE.average_pooling s = Cfg.average_pooling config /\
            SE.output_attentions s = oa.
Proof.
  intros Hin. unfold SE.__init__.
  simpl in Hin.
  destruct Hin as [E | [E | []]]; rewrite <- E; simpl;
    eexists; (split; [reflexivity | simpl; repeat split; congruence]).
Qed.

Lemma phonetic_init_supported (config : Cfg.t) input_dim oa kmo :
  In (Cfg.phone_type config) Spec.phone_types ->
  exists p, PE.__init__ config input_dim oa kmo true = Ok p /\
            PE.out_dim p = Spec.phonetic_out_dim config /\
            (PE.with_recognizer p = true -> PE.PhoneRecognizer p <> None) /\
            PE.output_attentions p = oa.
Proof.
  intros Hin. unfold Spec.phone_types in Hin.
  assert (In (Cfg.phone_type config) ["l2"; "gb"; "gst"; "linear"] \/
          Cfg.phone_type config = "none") as [Hr | Hn].
  { simpl in *. intuition. }
  - destruct (phonetic_init_recognizer config input_dim oa kmo Hr)
      as (p & E & Hd & Hw & Hr' & Ho).
    exists p. repeat split; auto.
    unfold Spec.phonetic_out_dim.
    destruct (String.eqb_spec (Cfg.phone_type config) "none") as [E' | _]; auto.
    rewrite E' in Hr. simpl in Hr.
    destruct Hr as [X | [X | [X | [X | []]]]]; discriminate X.
  - destruct (phonetic_init_none config input_dim oa kmo Hn)
      as (p & E & Hd & Hw & Ho).
    exists p. repeat split; auto.
    + unfold Spec.phonetic_out_dim. rewrite Hn. simpl. exact Hd.
    + rewrite Hw. discriminate.
Qed.

Lemma speaker_init_supported (config : Cfg.t) input_dim oa kmo :
  In (Cfg.speaker_type config) ["gst"; "linear"] ->
  exists s, SE.__init__ config input_dim oa kmo true = Ok s /\
            SE.out_dim s = Spec.speaker_out_dim config /\
            SE.with_recognizer s = true /\
            SE.SpeakerRecognizer s <> None /\
            SE.average_pooling s = Cfg.average_pooling config /\
            SE.output_attentions s = oa.
Proof.
  intros Hin.
  destruct (speaker_init_recognizer config input_dim oa kmo Hin)
    as (s & E & Hd & Hw & Hr & Ha & Ho).
  exists s. repeat split; auto.
  unfold Spec.speaker_out_dim.
  destruct (String.eqb_spec (Cfg.speaker_type config) "none") as [E' | _]; auto.
  rewrite E' in Hin. simpl in Hin.
  destruct Hin as [X | [X | []]]; discriminate X.
Qed.

(** With the guard of line 102 passed and recognizers that can be built,
    lines 100-133 fail exactly as the specification lists, and otherwise
    yield a model. *)
Lemma build_by_spec (config : Cfg.t) input_dim output_dim oa kmo :
  Cfg.dual_transformer config = true ->
  (Cfg.phone_dim config <> 0 -> In (Cfg.phone_type config) Spec.phone_types) ->
  (Cfg.speaker_dim config <> 0 -> In (Cfg.speaker_type config) ["gst"; "linear"]) ->
  match Spec.construction_error config with
  | Some e => D.build config input_dim output_dim oa kmo = Raise e
  | None => exists self, D.build config input_dim output_dim oa kmo = Ok self
  end.
Proof.
  intros Hdual Hp Hs.
  unfold D.build, D.code_dim, Spec.construction_error. rewrite Hdual.
  destruct (Cfg.phone_dim config =? 0) eqn:Ep;
    destruct (Cfg.speaker_dim config =? 0) eqn:Es; simpl.
  - reflexivity.
  - apply Z.eqb_neq in Es.
    destruct (speaker_init_supported config input_dim oa kmo (Hs Es))
      as (s & E & _). rewrite E. simpl.
    eexists. reflexivity.
  - apply Z.eqb_neq in Ep.
    destruct (phonetic_init_supported config input_dim oa kmo (Hp Ep))
      as (p & E & _). rewrite E. simpl.
    eexists. reflexivity.
  - apply Z.eqb_neq in Ep, Es.
    destruct (phonetic_init_supported config input_dim oa kmo (Hp Ep))
      as (p & E & Hpd & _). rewrite E. simpl.
    destruct (speaker_init_supported config input_dim oa kmo (Hs Es))
      as (s & E' & Hsd & _). rewrite E'. simpl.
    destruct (Cfg.combine config =? "concat")%string.
    + simpl. eexists. reflexivity.
    + destruct (Cfg.combine config =? "add")%string; [| reflexivity].
      simpl. rewrite Hpd, Hsd.
      destruct (Spec.phonetic_out_dim config =? Spec.speaker_out_dim config).
      * eexists. reflexivity.
      * reflexivity.
Qed.

Lemma set_Transformer_self_p (p : PE.t A) : PE.set_Transformer p (PE.Transformer p) = p.
Proof. destruct p; reflexivity. Qed.

Lemma set_Transformer_self_s (s : SE.t A) : SE.set_Transformer s (SE.Transformer s) = s.
Proof. destruct s; reflexivity. Qed.

Lemma build_constructed (config : Cfg.t) input_dim output_dim oa kmo self :
  D.build config input_dim output_dim oa kmo = Ok self ->
  constructed config input_dim oa kmo self.
Proof.
  unfold D.build. intros Hb.
  destruct (Cfg.dual_transformer config); [| discriminate].
  destruct (Cfg.phone_dim config =? 0) eqn:Ep;
    destruct (Cfg.speaker_dim config =? 0) eqn:Es; simpl in Hb.
  - unfold D.code_dim in Hb. rewrite Ep, Es in Hb. discriminate.
  - destruct (SE.__init__ config input_dim oa kmo true) as [s |] eqn:E;
      [| discriminate]. simpl in Hb.
    destruct (D.code_dim config None (Some s)); [| discriminate]. simpl in Hb.
    injection Hb as <-. apply Z.eqb_eq in Ep. apply Z.eqb_neq in Es.
    constructor; simpl; try reflexivity; try tauto.
    + apply Z.eqb_eq in Ep. rewrite Ep. reflexivity.
    + apply Z.eqb_neq in Es. rewrite Es.
      exists s, (SE.Transformer s). rewrite set_Transformer_self_s. auto.
    + intros ->. discriminate.
    + intros -> ->. discriminate.
  - destruct (PE.__init__ config input_dim oa kmo true) as [p |] eqn:E;
      [| discriminate]. simpl in Hb.
    destruct (D.code_dim config (Some p) None); [| discriminate]. simpl in Hb.
    injection Hb as <-. apply Z.eqb_neq in Ep. apply Z.eqb_eq in Es.
    constructor; simpl; try reflexivity; try tauto.
    + apply Z.eqb_neq in Ep. rewrite Ep.
      exists p, (PE.Transformer p). rewrite set_Transformer_self_p. auto.
    + apply Z.eqb_eq in Es. rewrite Es. reflexivity.
    + intros ->. discriminate.
    + intros -> ->. discriminate.
  - destruct (PE.__init__ config input_dim oa kmo true) as [p |] eqn:E;
      [| discriminate]. simpl in Hb.
    destruct (SE.__init__ config input_dim oa kmo true) as [s |] eqn:E';
      [| discriminate]. simpl in Hb.
    destruct (D.code_dim config (Some p) (Some s)); [| discriminate]. simpl in Hb.
    injection Hb as <-. apply Z.eqb_neq in Ep. apply Z.eqb_neq in Es.
    constructor; simpl; try reflexivity; try tauto.
    + apply Z.eqb_neq in Ep. rewrite Ep.
      exists p, (PE.Transformer p). rewrite set_Transformer_self_p. auto.
    + apply Z.eqb_neq in Es. rewrite Es.
      exists s, (SE.Transformer s). rewrite set_Transformer_self_s. auto.
    + intros ->. discriminate.
    + intros -> ->. discriminate.
Qed.

Lemma weight_handling_constructed (config cfg' : Cfg.t) input_dim oa kmo self self' :
  constructed config input_dim oa kmo self ->
  D.weight_handling cfg' self = Ok self' ->
  constructed config input_dim oa kmo self'.
Proof.
  intros C Hw. unfold D.weight_handling in Hw.
  destruct (0 <? Datatypes.length (Cfg.pre_train cfg'))%nat.
  2:{ injection Hw as <-. exact C. }
  destruct (D.first_item (Cfg.pre_train cfg')); [| discriminate]. simpl in Hw.
  destruct (torch_load a); [| discriminate]. simpl in Hw.
  destruct (D.last_item (Cfg.pre_train cfg')); [| discriminate]. simpl in Hw.
  destruct (torch_load a1); [| discriminate]. simpl in Hw.
  match type of Hw with
  | Py.bind ?P _ = _ => destruct P as [P' |] eqn:EP; [| discriminate]
  end. simpl in Hw.
  match type of Hw with
  | Py.bind ?S _ = _ => destruct S as [S' |] eqn:ES; [| discriminate]
  end. simpl in Hw.
  injection Hw as <-.
  destruct C as [Coa Cdec Cpe Ccomb Cpd Csd Cavg Csome Cp Cs Cst Cspe].
  constructor; simpl; auto.
  - rewrite Cpd in EP.
    destruct (Cfg.phone_dim config =? 0); simpl in EP.
    + injection EP as <-. exact Cp.
    + destruct Cp as (p0 & tm & E0 & Eself). rewrite Eself in EP. simpl in EP.
      split_bind EP. injection EP as <-.
      exists p0. eexists. split; [exact E0 | reflexivity].
  - rewrite Csd in ES.
    destruct (Cfg.speaker_dim config =? 0); simpl in ES.
    + injection ES as <-. exact Cs.
    + destruct Cs as (s0 & tm & E0 & Eself). rewrite Eself in ES. simpl in ES.
      split_bind ES. injection ES as <-.
      exists s0. eexists. split; [exact E0 | reflexivity].
Qed.

Lemma apply_init_constructed (config : Cfg.t) input_dim oa kmo self :
  constructed config input_dim oa kmo self ->
  constructed config input_dim oa kmo (D.apply_init self).
Proof.
  intros [Coa Cdec Cpe Ccomb Cpd Csd Cavg Csome Cp Cs Cst Cspe].
  constructor; simpl; auto.
  - destruct (Cfg.phone_dim config =? 0).
    + rewrite Cp. reflexivity.
    + destruct Cp as (p0 & tm & E0 & ->). simpl.
      exists p0. eexists. split; [exact E0 | reflexivity].
  - destruct (Cfg.speaker_dim config =? 0).
    + rewrite Cs. reflexivity.
    + destruct Cs as (s0 & tm & E0 & ->). simpl.
      exists s0. eexists. split; [exact E0 | reflexivity].
  - intros Hd. specialize (Cst Hd).
    destruct (D.SpecTransformer self); [discriminate | contradiction].
Qed.

(** Every model [__init__] returns is [constructed]. *)
Lemma init_constructed (config : Cfg.t) input_dim output_dim oa kmo self :
  snd (D.__init__ config input_dim output_dim oa kmo) = Ok self ->
  constructed config input_dim oa kmo self.
Proof.
  unfold D.__init__.
  destruct (D.build config input_dim output_dim oa kmo) as [m |] eqn:Hb;
    [| discriminate].
  simpl. intros Hinit.
  destruct (D.weight_handling (D.normalize_pre_train config) m) as [m' |] eqn:Hw;
    [| discriminate].
  simpl in Hinit. injection Hinit as <-.
  apply apply_init_constructed.
  eapply weight_handling_constructed; [| exact Hw].
  eapply build_constructed; exact Hb.
Qed.

End Construction.

Section ConstructionClaims.
Context {A : Type} `{Scalar A} `{Backend A}.

Lemma init_without_pre_train (config : Cfg.t) input_dim output_dim oa kmo :
  Cfg.pre_train config = [] ->
  snd (D.__init__ config input_dim output_dim oa kmo) =
  (self <- D.build config input_dim output_dim oa kmo ;; Ok (D.apply_init self)).
Proof.
  intros Hpre. unfold D.__init__.
  destruct (D.build config input_dim output_dim oa kmo) as [self |]; [| reflexivity].
  simpl. unfold D.normalize_pre_train, D.weight_handling.
  rewrite Hpre. simpl. rewrite Hpre. reflexivity.
Qed.

(** C2, as amended.  With no checkpoint to load and type tags under which the
    recognizer of every instantiated encoder is built (any phone type of the
    specification; speaker type 'gst' or 'linear'), construction fails with
    AssertionError when [dual_transformer] is not set; when it is set,
    construction fails exactly in the three cases the specification lists
    (both dimensions zero: ValueError; both nonzero, 'add' and different
    out_dims: AssertionError; both nonzero and a combine value other than
    'concat' and 'add': NotImplementedError) and returns a model for every
    other configuration. *)
Theorem construction_fails_exactly_when_invalid
    (config : Cfg.t) (input_dim : Z) (output_dim : option Z) (oa kmo : bool) :
  Cfg.pre_train config = [] ->
  (Cfg.phone_dim config <> 0 -> In (Cfg.phone_type config) Spec.phone_types) ->
  (Cfg.speaker_dim config <> 0 -> In (Cfg.speaker_type config) ["gst"; "linear"]) ->
  (Cfg.dual_transformer config = false ->
   snd (D.__init__ config input_dim output_dim oa kmo) = Raise AssertionError) /\
  (Cfg.dual_transformer config = true ->
   match Spec.construction_error config with
   | Some e => snd (D.__init__ config input_dim output_dim oa kmo) = Raise e
   | None => exists self, snd (D.__init__ config input_dim output_dim oa kmo) = Ok self
   end).
Proof.
  intros Hpre Hp Hs.
  rewrite (init_without_pre_train config input_dim output_dim oa kmo Hpre).
  split; intros Hdual.
  - unfold D.build. rewrite Hdual. reflexivity.
  - pose proof (build_by_spec config input_dim output_dim oa kmo Hdual Hp Hs) as Hb.
    destruct (Spec.construction_error config) as [e |].
    + rewrite Hb. reflexivity.
    + destruct Hb as (self & ->). simpl. eexists. reflexivity.
Qed.

(** C1: with only the phonetic encoder and phone type 'none', the encoder's
    [out_dim] is [hidden_size] (768) while [code_dim] is [phone_dim] (64), and
    the prediction head is built for width 64. *)
Theorem code_dim_is_max_of_dims_not_out_dim :
  exists self p,
    snd (D.__init__ (config_of true "concat" "none" 64 "gst" 0 false [])
           80 None false false) = Ok self /\
    D.PhoneticTransformer self = Some p /\
    D.SpeakerTransformer self = None /\
    PE.out_dim p = 768 /\
    D.code_dim (config_of true "concat" "none" 64 "gst" 0 false []) (Some p) None
      = Ok 64 /\
    head_input_dim (D.SpecHead self) = Some 64 /\
    Spec.code_dim (config_of true "concat" "none" 64 "gst" 0 false []) = 768.
Proof.
  do 2 eexists. repeat split.
Qed.

(** C6: the speaker encoder's third test reads [config.phone_type]: speaker
    type 'none' is refused when the phone type is not 'none', an unknown
    speaker type is accepted when the phone type is 'none', and the phonetic
    encoder, whose third test reads its own tag, accepts 'none' whatever the
    speaker type. *)
Theorem speaker_none_depends_on_phone_type :
  SE.__init__ (A := A) (config_of true "concat" "l2" 64 "none" 16 false [])
    80 false false true = Raise NotImplementedError /\
  (exists s,
     SE.__init__ (A := A) (config_of true "concat" "none" 64 "unknown" 16 false [])
       80 false false true = Ok s /\
     SE.with_recognizer s = false /\ SE.out_dim s = 768) /\
  (exists p,
     PE.__init__ (A := A) (config_of true "concat" "none" 64 "gst" 16 false [])
       80 false false true = Ok p /\
     PE.with_recognizer p = false /\ PE.out_dim p = 768).
Proof.
  split; [reflexivity |].
  split; eexists; repeat split.
Qed.

(** C9: with a [pre_train] list of one path, line 137 leaves the list nested
    in a list, [torch.load] is given the inner list and not the path, and
    construction fails with the AttributeError of reading a list as a file,
    whatever the checkpoint files hold. *)
Theorem single_pre_train_path_fails (path : string) :
  Cfg.pre_train
    (fst (D.__init__ (A := A) (config_of true "concat" "l2" 64 "gst" 16 false [PStr path])
            80 None false false)) = [PList [PStr path]] /\
  snd (D.__init__ (A := A) (config_of true "concat" "l2" 64 "gst" 16 false [PStr path])
         80 None false false) = Raise AttributeError.
Proof.
  split; reflexivity.
Qed.

End ConstructionClaims.

(** C2 at a configuration with both encoders, 'add' and out_dims 64 and 16:
    AssertionError; and at the same one with 'concat': a model. *)
Lemma construction_fails_exactly_when_invalid_witness :
  snd (D.__init__ (A := float) (config_of true "add" "l2" 64 "gst" 16 false [])
         80 None false false) = Raise AssertionError /\
  exists self,
    snd (D.__init__ (A := float) (config_of true "concat" "l2" 64 "gst" 16 false [])
           80 None false false) = Ok self.
Proof.
  split.
  - apply (proj2 (construction_fails_exactly_when_invalid
                    (config_of true "add" "l2" 64 "gst" 16 false [])
                    80 None false false eq_refl
                    (fun _ => or_introl eq_refl) (fun _ => or_introl eq_refl))
                 eq_refl).
  - apply (proj2 (construction_fails_exactly_when_invalid
                    (config_of true "concat" "l2" 64 "gst" 16 false [])
                    80 None false false eq_refl
                    (fun _ => or_introl eq_refl) (fun _ => or_introl eq_refl))
                 eq_refl).
Defined.

(** C2 as stated fails: a configuration with [dual_transformer] unset is in
    none of the three invalid cases (only the speaker dimension is zero), and
    its construction raises. *)
Lemma dual_transformer_unset_counterexample :
  Cfg.phone_dim (config_of false "concat" "l2" 64 "gst" 0 false []) <> 0 /\
  Cfg.speaker_dim (config_of false "concat" "l2" 64 "gst" 0 false []) = 0 /\
  In (Cfg.phone_type (config_of false "concat" "l2" 64 "gst" 0 false []))
     Spec.phone_types /\
  Spec.construction_error (config_of false "concat" "l2" 64 "gst" 0 false []) = None /\
  snd (D.__init__ (A := float) (config_of false "concat" "l2" 64 "gst" 0 false [])
         80 None false false) = Raise AssertionError.
Proof.
  repeat split; try reflexivity.
  - discriminate.
  - left. reflexivity.
Qed.

(** ** The forward pass *)

Section Forward.
Context {A : Type} `{Scalar A} `{Backend A}.

Lemma phonetic_init_inv (config : Cfg.t) input_dim oa kmo p :
  PE.__init__ config input_dim oa kmo true = Ok p ->
  PE.output_attentions p = oa /\
  (PE.with_recognizer p = true -> exists r, PE.PhoneRecognizer p = Some r).
Proof.
  unfold PE.__init__. intros E.
  repeat match type of E with
         | context [(?a =? ?b)%string] => destruct (a =? b)%string; simpl in E
         end;
    try discriminate E; injection E as <-; simpl; split; auto;
    intros; try discriminate; eexists; reflexivity.
Qed.

Lemma speaker_init_inv (config : Cfg.t) input_dim oa kmo s :
  SE.__init__ config input_dim oa kmo true = Ok s ->
  SE.output_attentions s = oa /\
  SE.average_pooling s = Cfg.average_pooling config /\
  (SE.with_recognizer s = true ->
   exists r, SE.SpeakerRecognizer s = Some r /\
             Recognizer_out_dim r = Cfg.speaker_dim config) /\
  (In (Cfg.speaker_type config) ["gst"; "linear"] -> SE.with_recognizer s = true).
Proof.
  unfold SE.__init__. intros E.
  destruct (String.eqb_spec (Cfg.speaker_type config) "gst") as [Eg | Ng];
    simpl in E.
  - injection E as <-. simpl. repeat split; auto.
    intros _. eexists. split; reflexivity.
  - destruct (String.eqb_spec (Cfg.speaker_type config) "linear") as [El | Nl];
      simpl in E.
    + injection E as <-. simpl. repeat split; auto.
      intros _. eexists. split; reflexivity.
    + destruct (Cfg.phone_type config =? "none")%string; simpl in E;
        [| discriminate].
      injection E as <-. simpl. repeat split; auto.
      * intros; discriminate.
      * intros [X | [X | []]]; congruence.
Qed.

Lemma encoder_output_present {S : Type} (o : option S)
    (fwd : S -> result (option Attentions * Tensor A)) a c :
  (s <- attr o ;; ' (a, c) <- fwd s ;; Ok (a, Some c)) = Ok (a, c) ->
  c <> None.
Proof.
  intros E. split_bind E. destruct a1. simpl in E.
  injection E as <- <-. discriminate.
Qed.

(** The codes the two encoders hand to the fusion stage: each is absent
    exactly when its dimension is zero. *)
Lemma dual_encoder_forward_presence (self : D.t A) phonetic_input speaker_input
    pos_enc attention_mask head_mask all_attentions phonetic_code speaker_code :
  D.dual_encoder_forward self phonetic_input speaker_input pos_enc
    attention_mask head_mask = Ok (all_attentions, phonetic_code, speaker_code) ->
  (phonetic_code = None <-> D.phone_dim self = 0) /\
  (speaker_code = None <-> D.speaker_dim self = 0).
Proof.
  unfold D.dual_encoder_forward. intros E.
  match type of E with
  | Py.bind ?P _ = _ => destruct P as [[pa pc] |] eqn:EP; [| discriminate]
  end. simpl in E.
  match type of E with
  | Py.bind ?S _ = _ => destruct S as [[sa sc] |] eqn:ES; [| discriminate]
  end. simpl in E.
  injection E as <- <- <-.
  split.
  - destruct (Z.eqb_spec (D.phone_dim self) 0) as [Ep | Np]; simpl in EP.
    + injection EP as <- <-. tauto.
    + apply encoder_output_present in EP. tauto.
  - destruct (Z.eqb_spec (D.speaker_dim self) 0) as [Es | Ns]; simpl in ES.
    + injection ES as <- <-. tauto.
    + apply encoder_output_present in ES. tauto.
Qed.

Lemma broadcast_dim_same (a : nat) : broadcast_dim a a = Some a.
Proof. unfold broadcast_dim. rewrite Nat.eqb_refl. reflexivity. Qed.

Lemma broadcast_shape_same (s : nat * nat * nat) : broadcast_shape s s = Some s.
Proof.
  destruct s as [[a b] c]. unfold broadcast_shape.
  rewrite !broadcast_dim_same. reflexivity.
Qed.

Lemma bidx_in_range (n i : nat) : (i < n)%nat -> bidx n i = i.
Proof.
  unfold bidx. intros Hi.
  destruct (Nat.eqb_spec n 1) as [-> | _]; [lia | reflexivity].
Qed.

Lemma bitem_in_range {X : Type} (x : Tensor X) (b t f : nat) :
  (b < size0 x)%nat -> (t < size1 x)%nat -> (f < size2 x)%nat ->
  bitem x b t f = item x b t f.
Proof.
  intros Hb Ht Hf. unfold bitem. rewrite !bidx_in_range; auto.
Qed.

(** C3.  In the fusion stage (lines 168-178), with each code present exactly
    when its encoder exists: an absent speaker code returns the phonetic code
    itself; an absent phonetic code returns the speaker code; two codes under
    'concat' (same batch and time extents) give a code whose feature width is
    the sum of the two widths, the phonetic features first and the speaker
    features after them; two codes of one shape under 'add' give their
    element-wise sum. *)
Theorem fusion_by_policy (self : D.t A) (phonetic_code speaker_code : option (Tensor A)) :
  (phonetic_code = None <-> D.phone_dim self = 0) ->
  (speaker_code = None <-> D.speaker_dim self = 0) ->
  (speaker_code = None ->
   D.combine_code self phonetic_code speaker_code = Ok phonetic_code) /\
  (phonetic_code = None -> speaker_code <> None ->
   D.combine_code self phonetic_code speaker_code = Ok speaker_code) /\
  (forall p s, phonetic_code = Some p -> speaker_code = Some s ->
     (D.combine self = "concat" -> size0 p = size0 s -> size1 p = size1 s ->
      exists code,
        D.combine_code self phonetic_code speaker_code = Ok (Some code) /\
        shape code = (size0 p, size1 p, (size2 p + size2 s)%nat) /\
        (forall b t f, (f < size2 p)%nat -> item code b t f = item p b t f) /\
        (forall b t f, item code b t (size2 p + f) = item s b t f)) /\
     (D.combine self = "add" -> shape p = shape s ->
      exists code,
        D.combine_code self phonetic_code speaker_code = Ok (Some code) /\
        shape code = shape p /\
        (forall b t f, (b < size0 p)%nat -> (t < size1 p)%nat -> (f < size2 p)%nat ->
           item code b t f = add (item p b t f) (item s b t f)))).
Proof.
  intros Hp Hs. unfold D.combine_code.
  split; [| split].
  - intros Hnone. apply Hs in Hnone. rewrite Hnone. reflexivity.
  - intros Hnone Hsome.
    destruct (Z.eqb_spec (D.speaker_dim self) 0) as [Es | _].
    + apply Hs in Es. contradiction.
    + apply Hp in Hnone. rewrite Hnone. reflexivity.
  - intros p s -> ->.
    destruct (Z.eqb_spec (D.speaker_dim self) 0) as [Es | _].
    { apply Hs in Es. discriminate. }
    destruct (Z.eqb_spec (D.phone_dim self) 0) as [Ep | _].
    { apply Hp in Ep. discriminate. }
    split.
    + intros -> E0 E1. simpl. unfold cat2.
      rewrite E0, E1, !Nat.eqb_refl. simpl.
      eexists. split; [reflexivity |]. split; [reflexivity |]. simpl. split.
      * intros b t f Hf. apply Nat.ltb_lt in Hf. rewrite Hf. reflexivity.
      * intros b t f.
        destruct (Nat.ltb_spec (size2 p + f) (size2 p)); [lia |].
        f_equal. lia.
    + intros -> Eshape. simpl. unfold tensor_add.
      rewrite Eshape, broadcast_shape_same.
      destruct s as [s0 s1 s2 si]. destruct p as [p0 p1 p2 pi].
      unfold shape in Eshape. simpl in Eshape.
      injection Eshape as -> -> ->. simpl.
      eexists. split; [reflexivity |]. split; [reflexivity |].
      simpl. intros b t f Hb Ht Hf.
      unfold bitem. simpl. rewrite !bidx_in_range; auto.
Qed.

Lemma phonetic_forward_ok (p : PE.t A) spec_input pos_enc attention_mask oael head_mask :
  (PE.with_recognizer p = true -> exists r, PE.PhoneRecognizer p = Some r) ->
  exists a c, PE.forward p spec_input pos_enc attention_mask oael head_mask = Ok (a, c).
Proof.
  intros Hr. unfold PE.forward.
  destruct (TransformerModel_forward (PE.Transformer p) spec_input (Some pos_enc)
              attention_mask oael head_mask) as [att out].
  destruct (PE.with_recognizer p).
  - destruct (Hr eq_refl) as (r & ->). simpl.
    destruct (PE.output_attentions p); do 2 eexists; reflexivity.
  - simpl. destruct (PE.output_attentions p); do 2 eexists; reflexivity.
Qed.

(** The speaker encoder with average pooling and a recognizer: the code is
    the recognizer applied to the time average of the transformer's output. *)
Lemma speaker_forward_pooled (s : SE.t A) r spec_input pos_enc attention_mask oael head_mask :
  SE.average_pooling s = true ->
  SE.with_recognizer s = true ->
  SE.SpeakerRecognizer s = Some r ->
  exists a,
    SE.forward s spec_input pos_enc attention_mask oael head_mask =
    Ok (a, Recognizer_forward r
             (mean1_unsqueeze
                (snd (TransformerModel_forward (SE.Transformer s) spec_input
                        (Some pos_enc) attention_mask oael head_mask)))).
Proof.
  intros Hp Hw Hr. unfold SE.forward.
  destruct (TransformerModel_forward (SE.Transformer s) spec_input (Some pos_enc)
              attention_mask oael head_mask) as [att out].
  rewrite Hp, Hw, Hr. simpl.
  destruct (SE.output_attentions s); eexists; reflexivity.
Qed.

Lemma speaker_forward_ok (s : SE.t A) spec_input pos_enc attention_mask oael head_mask :
  (SE.with_recognizer s = true -> exists r, SE.SpeakerRecognizer s = Some r) ->
  exists a c, SE.forward s spec_input pos_enc attention_mask oael head_mask = Ok (a, c).
Proof.
  intros Hr. unfold SE.forward.
  destruct (TransformerModel_forward (SE.Transformer s) spec_input (Some pos_enc)
              attention_mask oael head_mask) as [att out].
  destruct (SE.with_recognizer s).
  - destruct (Hr eq_refl) as (r & ->). simpl.
    destruct (SE.output_attentions s); do 2 eexists; reflexivity.
  - simpl. destruct (SE.output_attentions s); do 2 eexists; reflexivity.
Qed.

(** [x.mean(dim=1).unsqueeze(1)], element by element: one timestep, each
    element the sum over time of the input's elements at its batch and
    feature indices, divided by the number of timesteps. *)
Lemma mean1_unsqueeze_items (x : Tensor A) :
  shape (mean1_unsqueeze x) = (size0 x, 1%nat, size2 x) /\
  (forall b t f,
     item (mean1_unsqueeze x) b t f =
     div_count (fold_left add (map (fun t' => item x b t' f) (seq 0 (size1 x))) zero)
               (size1 x)).
Proof.
  split; [reflexivity |].
  intros b t f. simpl. unfold mean_list, sum_list.
  rewrite length_map, length_seq. reflexivity.
Qed.

(** C4.  For a constructed model with both encoders, average pooling and a
    speaker recognizer ('gst' or 'linear') that keeps the batch and time
    extents and produces [out_dim] features: the speaker encoder applies the
    recognizer to the time average of its transformer's output, a tensor of
    one timestep whose every element is the sum over time of the output's
    elements at its batch and feature indices divided by the number of
    timesteps, so the speaker code has shape [batch, 1, speaker_dim];
    line 166 then yields a code of shape [batch, T, speaker_dim], T the
    phonetic sequence length, whose every timestep is the singleton
    timestep. *)
Theorem average_pooled_speaker_code_is_tiled
    (config : Cfg.t) (input_dim : Z) (output_dim : option Z) (oa kmo : bool)
    (self : D.t A) :
  snd (D.__init__ config input_dim output_dim oa kmo) = Ok self ->
  Cfg.average_pooling config = true ->
  Cfg.phone_dim config <> 0 ->
  Cfg.speaker_dim config <> 0 ->
  In (Cfg.speaker_type config) ["gst"; "linear"] ->
  (forall r x, size0 (Recognizer_forward r x) = size0 x /\
               size1 (Recognizer_forward r x) = size1 x /\
               size2 (Recognizer_forward r x) = Z.to_nat (Recognizer_out_dim r)) ->
  forall phonetic_input speaker_input pos_enc attention_mask head_mask,
  exists all_attentions p s enc r out pooled tiled,
    D.dual_encoder_forward self phonetic_input speaker_input pos_enc
      attention_mask head_mask = Ok (all_attentions, Some p, Some s) /\
    D.SpeakerTransformer self = Some enc /\
    SE.SpeakerRecognizer enc = Some r /\
    out = snd (TransformerModel_forward (SE.Transformer enc) speaker_input
                 (Some pos_enc) attention_mask false head_mask) /\
    pooled = mean1_unsqueeze out /\
    shape pooled = (size0 out, 1%nat, size2 out) /\
    (forall b t f,
       item pooled b t f =
       div_count
         (fold_left add (map (fun t' => item out b t' f) (seq 0 (size1 out))) zero)
         (size1 out)) /\
    s = Recognizer_forward r pooled /\
    shape s = (size0 out, 1%nat, Z.to_nat (Cfg.speaker_dim config)) /\
    D.replicate_code self (Some p) (Some s) = Ok (Some tiled) /\
    shape tiled = (size0 s, size1 p, size2 s) /\
    (forall b t f, (t < size1 p)%nat -> item tiled b t f = item s b 0 f).
Proof.
  intros Hinit Havg Hpd Hsd Htype Hrec phonetic_input speaker_input pos_enc
    attention_mask head_mask.
  pose proof Hinit as C. apply init_constructed in C.
  destruct C as [Coa Cdec Cpe Ccomb Cpd Csd Cavg Csome Cp Cs Cst Cspe].
  apply Z.eqb_neq in Hpd, Hsd. rewrite Hpd in Cp. rewrite Hsd in Cs.
  destruct Cp as (p0 & tmp & Ep0 & Ep).
  destruct Cs as (s0 & tms & Es0 & Es).
  pose proof Ep0 as Ip. apply phonetic_init_inv in Ip. destruct Ip as (_ & Hprec).
  pose proof Es0 as Is. apply speaker_init_inv in Is.
  destruct Is as (_ & Hsavg & Hsrec & Hswith).
  specialize (Hswith Htype). destruct (Hsrec Hswith) as (r & Er & Edim).
  assert (exists pa p, PE.forward (PE.set_Transformer p0 tmp) phonetic_input pos_enc
                         attention_mask false head_mask = Ok (pa, p))
    as (pa & p & Epf) by (apply phonetic_forward_ok; exact Hprec).
  assert (exists sa,
            SE.forward (SE.set_Transformer s0 tms) speaker_input pos_enc
              attention_mask false head_mask =
            Ok (sa, Recognizer_forward r
                      (mean1_unsqueeze
                         (snd (TransformerModel_forward tms speaker_input
                                 (Some pos_enc) attention_mask false head_mask)))))
    as (sa & Esf).
  { apply speaker_forward_pooled; simpl; congruence. }
  set (out := snd (TransformerModel_forward tms speaker_input (Some pos_enc)
                     attention_mask false head_mask)) in *.
  set (s := Recognizer_forward r (mean1_unsqueeze out)) in *.
  exists [pa; sa], p, s, (SE.set_Transformer s0 tms), r, out, (mean1_unsqueeze out),
    (repeat1 s (size1 p)).
  destruct (Hrec r (mean1_unsqueeze out)) as (R0 & R1 & R2).
  destruct (mean1_unsqueeze_items out) as (Hpshape & Hpitem).
  assert (Hs1 : size1 s = 1%nat) by exact R1.
  split; [| split; [| split; [| split; [| split; [| split; [| split; [| split;
    [| split; [| split; [| split]]]]]]]]]].
  - unfold D.dual_encoder_forward.
    rewrite Cpd, Csd, Hpd, Hsd, Ep, Es. simpl.
    rewrite Epf. simpl. rewrite Esf. reflexivity.
  - exact Es.
  - exact Er.
  - reflexivity.
  - reflexivity.
  - exact Hpshape.
  - exact Hpitem.
  - reflexivity.
  - unfold shape. subst s. rewrite R0, R1, R2, Edim. reflexivity.
  - unfold D.replicate_code. rewrite Csd, Hsd, Cavg, Havg. reflexivity.
  - unfold shape. simpl. rewrite Hs1. f_equal. f_equal. lia.
  - intros b t f _. simpl. rewrite Hs1. reflexivity.
Qed.

(** C10.  A constructed model with no phonetic encoder, a speaker encoder and
    average pooling: the encoder stage yields no phonetic code, line 166
    reads the sequence length of that absent code and raises, and so does
    every call of [forward]. *)
Theorem forward_fails_without_phonetic_code
    (config : Cfg.t) (input_dim : Z) (output_dim : option Z) (oa kmo : bool)
    (self : D.t A) :
  snd (D.__init__ config input_dim output_dim oa kmo) = Ok self ->
  Cfg.phone_dim config = 0 ->
  Cfg.speaker_dim config <> 0 ->
  Cfg.average_pooling config = true ->
  forall phonetic_input speaker_input pos_enc mask_label attention_mask
         spec_label head_mask,
    (exists all_attentions s,
       D.dual_encoder_forward self phonetic_input speaker_input pos_enc
         attention_mask head_mask = Ok (all_attentions, None, Some s) /\
       D.replicate_code self None (Some s) = Raise AttributeError) /\
    D.forward self phonetic_input speaker_input pos_enc mask_label attention_mask
      spec_label head_mask = Raise AttributeError.
Proof.
  intros Hinit Hpd Hsd Havg phonetic_input speaker_input pos_enc mask_label
    attention_mask spec_label head_mask.
  pose proof Hinit as C. apply init_constructed in C.
  destruct C as [Coa Cdec Cpe Ccomb Cpd Csd Cavg Csome Cp Cs Cst Cspe].
  apply Z.eqb_neq in Hsd. rewrite Hsd in Cs.
  destruct Cs as (s0 & tms & Es0 & Es).
  pose proof Es0 as Is. apply speaker_init_inv in Is.
  destruct Is as (_ & _ & Hsrec & _).
  assert (exists sa s,
            SE.forward (SE.set_Transformer s0 tms) speaker_input pos_enc
              attention_mask false head_mask = Ok (sa, s))
    as (sa & s & Esf).
  { apply speaker_forward_ok.
    intros Hw. destruct (Hsrec Hw) as (r & Er & _). exists r. exact Er. }
  assert (Henc : D.dual_encoder_forward self phonetic_input speaker_input pos_enc
                   attention_mask head_mask = Ok ([None; sa], None, Some s)).
  { unfold D.dual_encoder_forward.
    rewrite Cpd, Csd, Hpd, Hsd, Es. simpl. rewrite Esf. reflexivity. }
  assert (Hrep : D.replicate_code self None (Some s) = Raise AttributeError).
  { unfold D.replicate_code. rewrite Csd, Hsd, Cavg, Havg. reflexivity. }
  split.
  - exists [None; sa], s. split; assumption.
  - unfold D.forward. rewrite Henc. simpl. rewrite Hrep. reflexivity.
Qed.

Lemma in_indices (B T D b t f : nat) :
  In (b, t, f) (indices B T D) <-> (b < B /\ t < T /\ f < D)%nat.
Proof.
  unfold indices. rewrite in_flat_map. split.
  - intros (b' & Hb & Hin). apply in_flat_map in Hin.
    destruct Hin as (t' & Ht & Hin). apply in_map_iff in Hin.
    destruct Hin as (f' & Heq & Hf). injection Heq as <- <- <-.
    apply in_seq in Hb, Ht, Hf. lia.
  - intros (Hb & Ht & Hf). exists b. split; [apply in_seq; lia |].
    apply in_flat_map. exists t. split; [apply in_seq; lia |].
    apply in_map_iff. exists f. split; [reflexivity | apply in_seq; lia].
Qed.

Lemma flat_map_select {I X : Type} (sel sel' : I -> bool) (g g' : I -> X) (l : list I) :
  (forall i, In i l -> sel' i = sel i /\ g' i = g i) ->
  flat_map (fun i => if sel' i then [g' i] else []) l = map g (filter sel l).
Proof.
  induction l as [| i l IH]; intros Hext; simpl; [reflexivity |].
  destruct (Hext i (or_introl eq_refl)) as (-> & ->).
  rewrite IH by (intros j Hj; apply Hext; right; exact Hj).
  destruct (sel i); reflexivity.
Qed.

(** [masked_select] with a mask of the tensor's shape: the elements at the
    masked positions, in row-major order. *)
Lemma masked_select_same_shape (x : Tensor A) (mask : Tensor bool) :
  shape x = shape mask ->
  masked_select x mask =
  Ok (map (fun '(b, t, f) => item x b t f) (masked_positions mask)).
Proof.
  intros Hshape. unfold masked_select. rewrite Hshape, broadcast_shape_same.
  unfold shape in *. injection Hshape as E0 E1 E2.
  f_equal. unfold masked_positions.
  rewrite <- (flat_map_select (fun '(b, t, f) => item mask b t f)
                (fun '(b, t, f) => bitem mask b t f)
                (fun '(b, t, f) => item x b t f)
                (fun '(b, t, f) => bitem x b t f)).
  - apply flat_map_ext. intros [[b t] f]. reflexivity.
  - intros [[b t] f] Hin.
    apply in_indices in Hin. destruct Hin as (Hb & Ht & Hf).
    rewrite !bitem_in_range by lia. split; reflexivity.
Qed.

Lemma expand1_length (l : list A) : expand1 l (List.length l) = l.
Proof. destruct l as [| a [| b l]]; reflexivity. Qed.

Lemma abs_diff_map {I : Type} (g g' : I -> A) (l : list I) :
  abs_diff (map g l) (map g' l) = map (fun i => abs (sub (g i) (g' i))) l.
Proof. induction l as [| i l IH]; simpl; [| rewrite IH]; reflexivity. Qed.

Lemma L1Loss_map {I : Type} (g g' : I -> A) (l : list I) :
  L1Loss (map g l) (map g' l) =
  Ok (div_count (sum_list (map (fun i => abs (sub (g i) (g' i))) l)) (List.length l)).
Proof.
  unfold L1Loss. rewrite !length_map, broadcast_dim_same.
  rewrite <- (length_map g l) at 1. rewrite expand1_length.
  rewrite <- (length_map g' l) at 1. rewrite expand1_length.
  rewrite abs_diff_map. unfold mean_list. rewrite length_map. reflexivity.
Qed.

Lemma mean_abs_diff_ext (positions : list (nat * nat * nat))
    (pred label pred' label' : Tensor A) :
  (forall b t f, In (b, t, f) positions ->
     item pred' b t f = item pred b t f /\ item label' b t f = item label b t f) ->
  mean_abs_diff positions pred' label' = mean_abs_diff positions pred label.
Proof.
  intros Hext. unfold mean_abs_diff. f_equal. f_equal.
  apply map_ext_in. intros [[b t] f] Hin.
  destruct (Hext b t f Hin) as (-> & ->). reflexivity.
Qed.

(** The objective on a prediction, a label and a mask of one shape with at
    least one masked position. *)
Lemma compute_objective_masked (self : D.t A) all_attentions
    (pred_spec pred_state spec_label : Tensor A) (mask_label : Tensor bool) :
  shape pred_spec = shape mask_label ->
  shape spec_label = shape mask_label ->
  (0 < mask_sum mask_label)%nat ->
  D.compute_objective self all_attentions pred_spec pred_state
    (Some spec_label) (Some mask_label) =
  Ok (D.Loss_and_pred
        (mean_abs_diff (masked_positions mask_label) pred_spec spec_label)
        pred_spec).
Proof.
  intros Hp Hl Hk. unfold D.compute_objective.
  apply Nat.ltb_lt in Hk. rewrite Hk.
  rewrite (@masked_select_same_shape pred_spec mask_label Hp). simpl.
  rewrite (@masked_select_same_shape spec_label mask_label Hl). simpl.
  rewrite L1Loss_map. simpl. unfold mean_abs_diff. do 4 f_equal.
  apply map_ext. intros [[b t] f]. reflexivity.
Qed.

(** C5.  With both labels supplied: a mask that selects no position makes
    the objective fail (the assertion of line 197); with a prediction, a
    label and a mask of one shape and exactly k > 0 selected positions, the
    loss returned is the mean absolute difference of prediction and label over
    exactly those k positions, and a prediction and a label that differ from
    them at unmasked positions only give the same loss. *)
Theorem masked_objective (self : D.t A) (all_attentions : list (option Attentions))
    (pred_spec pred_state spec_label : Tensor A) (mask_label : Tensor bool) :
  (mask_sum mask_label = 0%nat ->
   D.compute_objective self all_attentions pred_spec pred_state
     (Some spec_label) (Some mask_label) = Raise AssertionError) /\
  (forall k : nat,
     mask_sum mask_label = k -> (0 < k)%nat ->
     shape pred_spec = shape mask_label ->
     shape spec_label = shape mask_label ->
     List.length (masked_positions mask_label) = k /\
     D.compute_objective self all_attentions pred_spec pred_state
       (Some spec_label) (Some mask_label) =
     Ok (D.Loss_and_pred
           (mean_abs_diff (masked_positions mask_label) pred_spec spec_label)
           pred_spec) /\
     (forall pred_spec' pred_state' spec_label' : Tensor A,
        shape pred_spec' = shape mask_label ->
        shape spec_label' = shape mask_label ->
        (forall b t f, In (b, t, f) (masked_positions mask_label) ->
           item pred_spec' b t f = item pred_spec b t f /\
           item spec_label' b t f = item spec_label b t f) ->
        D.compute_objective self all_attentions pred_spec' pred_state'
          (Some spec_label') (Some mask_label) =
        Ok (D.Loss_and_pred
              (mean_abs_diff (masked_positions mask_label) pred_spec spec_label)
              pred_spec'))).
Proof.
  split.
  - intros Hzero. unfold D.compute_objective. rewrite Hzero. reflexivity.
  - intros k Hk Hpos Hp Hl. subst k. split; [reflexivity |]. split.
    + apply compute_objective_masked; assumption.
    + intros pred_spec' pred_state' spec_label' Hp' Hl' Hext.
      rewrite compute_objective_masked by assumption.
      rewrite (@mean_abs_diff_ext (masked_positions mask_label)
                 pred_spec spec_label pred_spec' spec_label' Hext).
      reflexivity.
Qed.

End Forward.

(** C3 on the literal example: phonetic code [[1.0, 2.0]] and speaker code
    [[3.0, 4.0]] (one batch entry each) fuse under 'add' to [[4.0, 6.0]]. *)
Lemma fusion_by_policy_witness :
  exists self code,
    snd (D.__init__ (A := float) (config_of true "add" "l2" 2 "gst" 2 false [])
           80 None false false) = Ok self /\
    D.combine_code self (Some (of_list 0%float [[[1%float; 2%float]]]))
      (Some (of_list 0%float [[[3%float; 4%float]]])) = Ok (Some code) /\
    to_list code = [[[4%float; 6%float]]].
Proof.
  let r := eval vm_compute in
    (snd (D.__init__ (A := float) (config_of true "add" "l2" 2 "gst" 2 false [])
            80 None false false)) in
  match r with Ok ?m => exists m end.
  match goal with
  | |- exists code, _ = Ok ?m /\ _ =>
      destruct (fusion_by_policy m
                  (Some (of_list 0%float [[[1%float; 2%float]]]))
                  (Some (of_list 0%float [[[3%float; 4%float]]])))
        as (_ & _ & Hboth)
  end.
  - split; [discriminate | intros E; vm_compute in E; discriminate E].
  - split; [discriminate | intros E; vm_compute in E; discriminate E].
  - destruct (Hboth _ _ eq_refl eq_refl) as (_ & Hadd).
    destruct (Hadd eq_refl eq_refl) as (code & Hcode & Hshape & Hitem).
    exists code. split; [reflexivity |]. split; [exact Hcode |].
    unfold shape in Hshape. injection Hshape as S0 S1 S2.
    unfold to_list. rewrite S0, S1, S2. simpl.
    rewrite !Hitem by (simpl; lia). reflexivity.
Defined.

(** C4 at a model with phone type 'l2' (64), speaker type 'gst' (16) and
    average pooling, on a phonetic input of three timesteps and a speaker
    input of two, with the example backend, whose transformers return their
    input and whose recognizers copy the first feature: the speaker input
    being 4 then 8, the speaker code is 6, and so is every timestep of the
    tiled code. *)
Lemma average_pooled_speaker_code_is_tiled_witness :
  exists self all_attentions p s tiled,
    snd (D.__init__ (A := float) (config_of true "concat" "l2" 64 "gst" 16 true [])
           80 None false false) = Ok self /\
    D.dual_encoder_forward self
      (of_list 0%float [[[1%float]; [2%float]; [3%float]]])
      (of_list 0%float [[[4%float]; [8%float]]])
      (of_list 0%float [[[0%float]; [0%float]; [0%float]]]) None None
    = Ok (all_attentions, Some p, Some s) /\
    shape s = (1%nat, 1%nat, 16%nat) /\
    item s 0 0 0 = 6%float /\
    D.replicate_code self (Some p) (Some s) = Ok (Some tiled) /\
    shape tiled = (1%nat, 3%nat, 16%nat) /\
    (forall b t f, (t < 3)%nat -> item tiled b t f = item s b 0 f) /\
    item tiled 0 2 0 = 6%float.
Proof.
  let r := eval vm_compute in
    (snd (D.__init__ (A := float) (config_of true "concat" "l2" 64 "gst" 16 true [])
            80 None false false)) in
  match r with Ok ?m => exists m end.
  match goal with
  | |- exists a p s tiled, ?I = Ok ?m /\ _ =>
      assert (Hinit : I = Ok m) by (vm_compute; reflexivity)
  end.
  assert (Hpd : Cfg.phone_dim (config_of true "concat" "l2" 64 "gst" 16 true []) <> 0)
    by discriminate.
  assert (Hsd : Cfg.speaker_dim (config_of true "concat" "l2" 64 "gst" 16 true []) <> 0)
    by discriminate.
  destruct (average_pooled_speaker_code_is_tiled
              (config_of true "concat" "l2" 64 "gst" 16 true [])
              80 None false false _ Hinit eq_refl Hpd Hsd (or_introl eq_refl)
              (fun r x => conj eq_refl (conj eq_refl eq_refl))
              (of_list 0%float [[[1%float]; [2%float]; [3%float]]])
              (of_list 0%float [[[4%float]; [8%float]]])
              (of_list 0%float [[[0%float]; [0%float]; [0%float]]]) None None)
    as (a & p & s & enc & r & out & pooled & tiled &
        Henc & _ & _ & Hout & _ & _ & Hmean & Hs & Hshape & Hrep & Htiled & Hitem).
  exists a, p, s, tiled.
  split; [exact Hinit |]. split; [exact Henc |].
  assert (Hp : size1 p = 3%nat).
  { vm_compute in Henc. injection Henc as _ <- _. reflexivity. }
  assert (Hsix : item s 0 0 0 = 6%float).
  { rewrite Hs. change (item pooled 0 0 0 = 6%float).
    rewrite Hmean, Hout. vm_compute. reflexivity. }
  rewrite Hout in Hshape.
  split; [exact Hshape |]. split; [exact Hsix |]. split; [exact Hrep |].
  rewrite Hp in Htiled, Hitem.
  unfold shape in Hshape. injection Hshape as S0 S1 S2.
  rewrite S0, S2 in Htiled.
  split; [exact Htiled |]. split; [exact Hitem |].
  rewrite Hitem by lia. exact Hsix.
Defined.

(** C10 at a model with no phonetic encoder, speaker type 'gst' and average
    pooling: construction succeeds and [forward] raises. *)
Lemma forward_fails_without_phonetic_code_witness :
  exists self,
    snd (D.__init__ (A := float) (config_of true "concat" "l2" 0 "gst" 16 true [])
           80 None false false) = Ok self /\
    D.forward self
      (of_list 0%float [[[1%float]; [2%float]; [3%float]]])
      (of_list 0%float [[[4%float]; [8%float]]])
      (of_list 0%float [[[0%float]; [0%float]; [0%float]]])
      None None None None = Raise AttributeError.
Proof.
  let r := eval vm_compute in
    (snd (D.__init__ (A := float) (config_of true "concat" "l2" 0 "gst" 16 true [])
            80 None false false)) in
  match r with Ok ?m => exists m end.
  match goal with
  | |- ?I = Ok ?m /\ _ => assert (Hinit : I = Ok m) by (vm_compute; reflexivity)
  end.
  split; [exact Hinit |].
  assert (Hsd : Cfg.speaker_dim (config_of true "concat" "l2" 0 "gst" 16 true []) <> 0)
    by discriminate.
  apply (forward_fails_without_phonetic_code
           (config_of true "concat" "l2" 0 "gst" 16 true [])
           80 None false false _ Hinit eq_refl Hsd eq_refl).
Defined.

(** C5 on the literal examples: predictions [1, 5, 9] against labels
    [2, 0, 7] under the mask [true, false, true] give (1 + 2) / 2 = 1.5,
    against labels [1, 0, 9] give 0, and under an all-false mask the
    assertion fails. *)
Lemma masked_objective_witness :
  exists self,
    snd (D.__init__ (A := float) (config_of true "concat" "l2" 64 "gst" 16 false [])
           80 None false false) = Ok self /\
    D.compute_objective self []
      (of_list 0%float [[[1%float]; [5%float]; [9%float]]])
      (of_list 0%float [[[1%float]; [5%float]; [9%float]]])
      (Some (of_list 0%float [[[2%float]; [0%float]; [7%float]]]))
      (Some (of_list false [[[true]; [false]; [true]]]))
    = Ok (D.Loss_and_pred 1.5%float
            (of_list 0%float [[[1%float]; [5%float]; [9%float]]])) /\
    D.compute_objective self []
      (of_list 0%float [[[1%float]; [5%float]; [9%float]]])
      (of_list 0%float [[[1%float]; [5%float]; [9%float]]])
      (Some (of_list 0%float [[[1%float]; [0%float]; [9%float]]]))
      (Some (of_list false [[[true]; [false]; [true]]]))
    = Ok (D.Loss_and_pred 0%float
            (of_list 0%float [[[1%float]; [5%float]; [9%float]]])) /\
    D.compute_objective self []
      (of_list 0%float [[[1%float]; [5%float]; [9%float]]])
      (of_list 0%float [[[1%float]; [5%float]; [9%float]]])
      (Some (of_list 0%float [[[1%float]; [0%float]; [9%float]]]))
      (Some (of_list false [[[false]; [false]; [false]]]))
    = Raise AssertionError.
Proof.
  let r := eval vm_compute in
    (snd (D.__init__ (A := float) (config_of true "concat" "l2" 64 "gst" 16 false [])
            80 None false false)) in
  match r with Ok ?m => exists m end.
  match goal with
  | |- _ = Ok ?m /\ _ => set (self := m)
  end.
  split; [vm_compute; reflexivity |].
  split; [| split].
  - destruct (masked_objective self []
                (of_list 0%float [[[1%float]; [5%float]; [9%float]]])
                (of_list 0%float [[[1%float]; [5%float]; [9%float]]])
                (of_list 0%float [[[2%float]; [0%float]; [7%float]]])
                (of_list false [[[true]; [false]; [true]]])) as (_ & Hk).
    destruct (Hk 2%nat eq_refl (Nat.lt_0_succ 1) eq_refl eq_refl) as (_ & Hloss & _).
    rewrite Hloss. reflexivity.
  - destruct (masked_objective self []
                (of_list 0%float [[[1%float]; [5%float]; [9%float]]])
                (of_list 0%float [[[1%float]; [5%float]; [9%float]]])
                (of_list 0%float [[[1%float]; [0%float]; [9%float]]])
                (of_list false [[[true]; [false]; [true]]])) as (_ & Hk).
    destruct (Hk 2%nat eq_refl (Nat.lt_0_succ 1) eq_refl eq_refl) as (_ & Hloss & _).
    rewrite Hloss. reflexivity.
  - apply (proj1 (masked_objective self []
                    (of_list 0%float [[[1%float]; [5%float]; [9%float]]])
                    (of_list 0%float [[[1%float]; [5%float]; [9%float]]])
                    (of_list 0%float [[[1%float]; [0%float]; [9%float]]])
                    (of_list false [[[false]; [false]; [false]]]))).
    reflexivity.
Defined.

(** ** Weight loading *)

Section DictFacts.
Context {V : Type}.

Lemma get_set (k k' : string) (v : V) (d : dict V) :
  get k' (set k v d) = if (k' =? k)%string then Some v else get k' d.
Proof.
  induction d as [| [j w] d IH]; simpl.
  - reflexivity.
  - destruct (String.eqb_spec k j) as [-> | Hkj]; simpl.
    + destruct (k' =? j)%string; reflexivity.
    + rewrite IH.
      destruct (String.eqb_spec k' j) as [-> | _]; [| reflexivity].
      destruct (String.eqb_spec j k) as [E | _]; [congruence | reflexivity].
Qed.

(** What [pop] returns and leaves. *)
Lemma pop_spec (k : string) (d : dict V) :
  match pop k d with
  | Some (v, d') =>
      get k d = Some v /\ forall k', k' <> k -> get k' d' = get k' d
  | None => get k d = None
  end.
Proof.
  induction d as [| [j w] d IH]; simpl.
  - reflexivity.
  - destruct (String.eqb_spec k j) as [-> | Hkj].
    + split; [reflexivity |]. intros k' Hk'.
      destruct (String.eqb_spec k' j); [contradiction | reflexivity].
    + destruct (pop k d) as [[v d'] |].
      * destruct IH as (Hget & Hrest). split; [exact Hget |].
        intros k' Hk'. simpl. rewrite (Hrest k' Hk'). reflexivity.
      * exact IH.
Qed.

Lemma get_in_keys (k : string) (d : dict V) :
  In k (keys d) <-> get k d <> None.
Proof.
  induction d as [| [j w] d IH]; simpl.
  - split; [intros [] | congruence].
  - destruct (String.eqb_spec k j) as [-> | Hkj].
    + split; [discriminate | auto].
    + rewrite <- IH. split; [intros [E | Hin]; [congruence | exact Hin] | auto].
Qed.

End DictFacts.

Lemma collect_keys_pairs (ks : list string) :
  List.combine (fst (collect_keys ks)) (snd (collect_keys ks)) =
  flat_map legacy_pair ks.
Proof.
  induction ks as [| key ks IH]; simpl; [reflexivity |].
  destruct (collect_keys ks) as [old_keys new_keys]. simpl in IH.
  unfold legacy_pair.
  destruct (new_key_of key) as [[| c s] |]; simpl; rewrite IH; reflexivity.
Qed.

Lemma in_legacy_pairs (ks : list string) (j j' : string) :
  In (j, j') (flat_map legacy_pair ks) <->
  In j ks /\ new_key_of j = Some j' /\ j' <> "".
Proof.
  rewrite in_flat_map. unfold legacy_pair. split.
  - intros (key & Hin & Hpair).
    destruct (new_key_of key) as [[| c s] |] eqn:E; simpl in Hpair;
      try contradiction.
    destruct Hpair as [Heq | []]. injection Heq as <- <-.
    repeat split; auto. discriminate.
  - intros (Hin & E & Hne). exists j. split; [exact Hin |].
    rewrite E. destruct j' as [| c s]; [congruence | left; reflexivity].
Qed.

Lemma legacy_pairs_fst_in (ks : list string) (j : string) :
  In j (map fst (flat_map legacy_pair ks)) -> In j ks.
Proof.
  intros Hin. apply in_map_iff in Hin. destruct Hin as ([j0 j'] & <- & Hin).
  apply in_legacy_pairs in Hin. tauto.
Qed.

Lemma legacy_pairs_NoDup (ks : list string) :
  NoDup ks -> NoDup (map fst (flat_map legacy_pair ks)).
Proof.
  induction 1 as [| key ks Hnotin Hnd IH]; simpl; [constructor |].
  rewrite map_app. unfold legacy_pair at 1.
  destruct (new_key_of key) as [[| c s] |]; simpl; auto.
  constructor; [| exact IH].
  intros Hin. apply legacy_pairs_fst_in in Hin. contradiction.
Qed.

Section Rename.
Context {A : Type}.

Implicit Types (d : dict (nn_Parameter A)) (ps : list (string * string)).

(** The renaming loop raises nothing when its old keys are distinct keys of
    the dictionary. *)
Lemma rename_all_ok ps d :
  NoDup (map fst ps) ->
  (forall j, In j (map fst ps) -> get j d <> None) ->
  fst (rename_all ps d) = Ok tt.
Proof.
  revert d. induction ps as [| [j j'] ps IH]; intros d Hnd Hin; simpl.
  - reflexivity.
  - inversion Hnd as [| ? ? Hnotin Hnd']; subst.
    pose proof (pop_spec j d) as Hpop.
    destruct (pop j d) as [[v d'] |].
    + destruct Hpop as (_ & Hrest).
      apply IH; [exact Hnd' |].
      intros j2 Hj2. rewrite get_set.
      destruct (j2 =? j')%string; [discriminate |].
      rewrite Hrest by (intros ->; contradiction).
      apply Hin. right. exact Hj2.
    + exfalso. apply (Hin j); [left; reflexivity | exact Hpop].
Qed.

(** A name no pair reads or writes keeps its value. *)
Lemma rename_all_keeps (k' : string) ps d :
  (forall j j', In (j, j') ps -> j <> k' /\ j' <> k') ->
  get k' (snd (rename_all ps d)) = get k' d.
Proof.
  revert d. induction ps as [| [j j'] ps IH]; intros d Hother; simpl.
  - reflexivity.
  - pose proof (pop_spec j d) as Hpop.
    destruct (Hother j j' (or_introl eq_refl)) as (Hj & Hj').
    destruct (pop j d) as [[v d'] |]; [| reflexivity].
    destruct Hpop as (_ & Hrest).
    rewrite IH by (intros; apply Hother; right; assumption).
    rewrite get_set.
    destruct (String.eqb_spec k' j'); [congruence |].
    apply Hrest. auto.
Qed.

(** The value under an old key ends under its new name, when no other pair
    reads the new name or writes the old or the new one. *)
Lemma rename_all_moves (k k' : string) (v : nn_Parameter A) ps d :
  NoDup (map fst ps) ->
  In (k, k') ps ->
  (forall j, In j (map fst ps) -> get j d <> None) ->
  (forall j j', In (j, j') ps -> j <> k -> j <> k' /\ j' <> k /\ j' <> k') ->
  get k d = Some v ->
  get k' (snd (rename_all ps d)) = Some v.
Proof.
  revert d. induction ps as [| [j j'] ps IH]; intros d Hnd Hin Hpresent Hother Hget;
    simpl.
  - destruct Hin.
  - inversion Hnd as [| ? ? Hnotin Hnd']; subst.
    pose proof (pop_spec j d) as Hpop.
    destruct (pop j d) as [[w d'] |].
    2:{ exfalso. apply (Hpresent j); [left; reflexivity | exact Hpop]. }
    destruct Hpop as (Hw & Hrest).
    destruct (String.eqb_spec j k) as [-> | Hjk].
    + (* the pair of [k] itself *)
      assert (j' = k') as ->.
      { destruct Hin as [E | Hin]; [congruence |].
        exfalso. apply Hnotin. apply in_map_iff. exists (k, k'). auto. }
      rewrite rename_all_keeps.
      * rewrite get_set, String.eqb_refl. congruence.
      * intros j2 j2' Hin2.
        assert (j2 <> k).
        { intros ->. apply Hnotin. apply in_map_iff. exists (k, j2'). auto. }
        destruct (Hother j2 j2' (or_intror Hin2)); tauto.
    + destruct (Hother j j' (or_introl eq_refl) Hjk) as (Hjk' & Hj'k & Hj'k').
      apply IH.
      * exact Hnd'.
      * destruct Hin as [E | Hin]; [congruence | exact Hin].
      * intros j2 Hj2. rewrite get_set.
        destruct (j2 =? j')%string; [discriminate |].
        rewrite Hrest by (intros ->; contradiction).
        apply Hpresent. right. exact Hj2.
      * intros j2 j2' Hin2. apply Hother. right. exact Hin2.
      * rewrite get_set.
        destruct (String.eqb_spec k j'); [congruence |].
        rewrite Hrest by congruence. exact Hget.
Qed.

End Rename.

Lemma append_assoc (a b c : string) : (a ++ b) ++ c = a ++ b ++ c.
Proof. induction a as [| x a IH]; simpl; [| rewrite IH]; reflexivity. Qed.

Lemma key_of_cons (prefix c : string) (path : list string) (name : string) :
  prefix ++ key_of (c :: path) name = (prefix ++ c ++ ".") ++ key_of path name.
Proof. simpl. rewrite !append_assoc. reflexivity. Qed.

Section Tree.
Context {A : Type}.

Implicit Types (m child : nn_Module A) (sd : dict (nn_Parameter A))
  (l : LoadLists) (p : nn_Parameter A).

(** Induction on module trees: a module has a property when its children
    have it. *)
Lemma nn_Module_tree_ind (P : nn_Module A -> Prop) :
  (forall ps cs,
     (forall c child, In (c, Some child) cs -> P child) -> P (mkModule ps cs)) ->
  forall m, P m.
Proof.
  intros Hstep. fix IH 1. intros [ps cs]. apply Hstep.
  induction cs as [| [c0 [child0 |]] cs IHcs]; intros c child Hin.
  - destruct Hin.
  - destruct Hin as [E | Hin]; [| exact (IHcs c child Hin)].
    injection E as _ <-. apply IH.
  - destruct Hin as [E | Hin]; [discriminate E | exact (IHcs c child Hin)].
Qed.

Lemma quiet_local_params_fst sd prefix ps l :
  fst (quiet_local_params sd prefix ps l) =
  map (fun '(name, p) => (name, assign sd (prefix ++ name) p)) ps.
Proof.
  revert l. induction ps as [| [name p] ps IH]; intros l; simpl; [reflexivity |].
  specialize (IH (note_param sd prefix name p l)).
  destruct (quiet_local_params sd prefix ps (note_param sd prefix name p l)).
  simpl in *. rewrite IH. reflexivity.
Qed.

Lemma in_assigned sd prefix ps name p' :
  In (name, p') (map (fun '(name, p) => (name, assign sd (prefix ++ name) p)) ps) <->
  exists p, In (name, p) ps /\ p' = assign sd (prefix ++ name) p.
Proof.
  rewrite in_map_iff. split.
  - intros ([n p] & E & Hin). injection E as -> <-. exists p. auto.
  - intros (p & Hin & ->). exists (name, p). auto.
Qed.

(** The children after the loop of lines 334-336 when every entry can be
    read, given what [quiet_load] does to each child. *)
Lemma quiet_children_params sd prefix cs :
  (forall c child, In (c, Some child) cs ->
     forall prefix l path name p',
       param_at (fst (quiet_load sd child prefix l)) path name p' <->
       exists p, param_at child path name p /\
                 p' = assign sd (prefix ++ key_of path name) p) ->
  forall l c path name p',
    (exists child', In (c, Some child') (fst (quiet_children (quiet_load sd) prefix cs l)) /\
                    param_at child' path name p') <->
    (exists child p, In (c, Some child) cs /\ param_at child path name p /\
                     p' = assign sd ((prefix ++ c ++ ".") ++ key_of path name) p).
Proof.
  induction cs as [| [c0 [child0 |]] cs IHcs]; intros Hload l c path name p'; simpl.
  - split; [intros (? & [] & _) | intros (? & ? & [] & _)].
  - destruct (quiet_load sd child0 (prefix ++ c0 ++ ".") l) as [child0' l1] eqn:E0.
    specialize (IHcs (fun c child Hin => Hload c child (or_intror Hin)) l1 c path name p').
    destruct (quiet_children (quiet_load sd) prefix cs l1) as [cs' l'] eqn:Ecs.
    simpl in *. split.
    + intros (child' & [E | Hin] & Hat).
      * injection E as -> <-.
        pose proof (Hload c child0 (or_introl eq_refl) (prefix ++ c ++ ".") l
                      path name p') as H0.
        rewrite E0 in H0. simpl in H0. apply H0 in Hat.
        destruct Hat as (p & Hat & ->). exists child0, p. auto.
      * destruct (proj1 IHcs (ex_intro _ child' (conj Hin Hat)))
          as (child & p & Hin' & Hat' & ->).
        exists child, p. auto.
    + intros (child & p & [E | Hin] & Hat & ->).
      * injection E as -> <-. exists child0'. split; [left; reflexivity |].
        pose proof (Hload c child0 (or_introl eq_refl) (prefix ++ c ++ ".") l
                      path name (assign sd ((prefix ++ c ++ ".") ++ key_of path name) p))
          as H0.
        rewrite E0 in H0. simpl in H0. apply H0. exists p. auto.
      * destruct (proj2 IHcs) as (child' & Hin' & Hat').
        { exists child, p. auto. }
        exists child'. auto.
  - specialize (IHcs (fun c child Hin => Hload c child (or_intror Hin)) l c path name p').
    destruct (quiet_children (quiet_load sd) prefix cs l) as [cs' l'] eqn:Ecs.
    simpl in *. split.
    + intros (child' & [E | Hin] & Hat); [discriminate E |].
      destruct (proj1 IHcs (ex_intro _ child' (conj Hin Hat)))
        as (child & p & Hin' & Hat' & ->).
      exists child, p. auto.
    + intros (child & p & [E | Hin] & Hat & ->); [discriminate E |].
      destruct (proj2 IHcs) as (child' & Hin' & Hat').
      { exists child, p. auto. }
      exists child'. auto.
Qed.

(** The parameters of the tree [quiet_load] leaves: each one [assign]ed
    from the state dict under its dotted name. *)
Lemma quiet_params sd m :
  forall prefix l path name p',
    param_at (fst (quiet_load sd m prefix l)) path name p' <->
    exists p, param_at m path name p /\
              p' = assign sd (prefix ++ key_of path name) p.
Proof.
  induction m as [ps cs IH] using nn_Module_tree_ind.
  intros prefix l path name p'. simpl.
  pose proof (quiet_local_params_fst sd prefix ps l) as Hps.
  destruct (quiet_local_params sd prefix ps l) as [ps' l1]. simpl in Hps.
  pose proof (quiet_children_params sd prefix cs IH) as Hcs.
  match goal with
  | |- context [quiet_children (quiet_load sd) prefix cs ?l2] =>
      specialize (Hcs l2); destruct (quiet_children (quiet_load sd) prefix cs l2) as [cs' l']
  end.
  simpl in *. subst ps'. split.
  - intros Hat. inversion Hat as [? ? ? ? Hin | ? ? c child' ? ? ? Hin Hat']; subst.
    + apply in_assigned in Hin. destruct Hin as (p & Hin & ->).
      exists p. split; [constructor; exact Hin | reflexivity].
    + destruct (proj1 (Hcs c path0 name p') (ex_intro _ child' (conj Hin Hat')))
        as (child & p & Hin' & Hat'' & ->).
      exists p. split; [econstructor; eassumption |].
      rewrite key_of_cons. reflexivity.
  - intros (p & Hat & ->).
    inversion Hat as [? ? ? ? Hin | ? ? c child ? ? ? Hin Hat']; subst.
    + constructor. apply in_assigned. exists p. auto.
    + destruct (proj2 (Hcs c path0 name
                         (assign sd ((prefix ++ c ++ ".") ++ key_of path0 name) p)))
        as (child' & Hin' & Hat'').
      { exists child, p. auto. }
      rewrite key_of_cons. econstructor; eassumption.
Qed.

(** *** The three lists *)

Lemma extends_refl l : extends l l.
Proof. repeat split; apply incl_refl. Qed.

Lemma extends_trans l1 l2 l3 : extends l1 l2 -> extends l2 l3 -> extends l1 l3.
Proof.
  intros (M1 & U1 & E1) (M2 & U2 & E2).
  repeat split; eapply incl_tran; eassumption.
Qed.

Lemma shape_eqb_true (s1 s2 : list nat) : shape_eqb s1 s2 = true <-> s1 = s2.
Proof.
  unfold shape_eqb. destruct (list_eq_dec Nat.eq_dec s1 s2); split; congruence.
Qed.

Lemma quiet_local_params_snd_cons sd prefix name p ps l :
  snd (quiet_local_params sd prefix ((name, p) :: ps) l) =
  snd (quiet_local_params sd prefix ps (note_param sd prefix name p l)).
Proof.
  simpl.
  destruct (quiet_local_params sd prefix ps (note_param sd prefix name p l)).
  reflexivity.
Qed.

(** What [note_param] does with an entry: an error exactly when the entry
    has another shape. *)
Lemma note_param_some sd prefix name p l v :
  get (prefix ++ name) sd = Some v ->
  (other_shape p v /\
   note_param sd prefix name p l =
   {| missing_keys := missing_keys l;
      unexpected_keys := unexpected_keys l;
      error_msgs := error_msgs l ++ [prefix ++ name] |}) \/
  (~ other_shape p v /\ note_param sd prefix name p l = l).
Proof.
  intros Hget. unfold note_param, other_shape. rewrite Hget.
  destruct (shape_eqb (p_shape v) (p_shape p)) eqn:Eb.
  - apply shape_eqb_true in Eb. right. split; [| reflexivity].
    intros (Hne & _). contradiction.
  - assert (Hne : p_shape v <> p_shape p).
    { intros E. apply shape_eqb_true in E. congruence. }
    destruct (p_shape p) as [| d ds] eqn:Ep.
    + destruct (p_shape v) as [| n [| n' ns]] eqn:Ev.
      * contradiction.
      * right. split; [| reflexivity]. intros (_ & Hn). apply Hn. auto.
      * left. split; [| reflexivity]. split; [exact Hne |].
        intros (_ & X). discriminate X.
    + left. split; [| reflexivity]. split; [exact Hne |].
      intros (X & _). discriminate X.
Qed.

Lemma note_param_none sd prefix name p l :
  get (prefix ++ name) sd = None ->
  note_param sd prefix name p l =
  {| missing_keys := missing_keys l ++ [prefix ++ name];
     unexpected_keys := unexpected_keys l;
     error_msgs := error_msgs l |}.
Proof. intros Hget. unfold note_param. rewrite Hget. reflexivity. Qed.

Lemma note_param_extends sd prefix name p l :
  extends l (note_param sd prefix name p l) /\
  unexpected_keys (note_param sd prefix name p l) = unexpected_keys l.
Proof.
  unfold extends.
  destruct (get (prefix ++ name) sd) as [v |] eqn:Hget.
  - destruct (note_param_some sd prefix name p l v Hget) as [(_ & ->) | (_ & ->)]; simpl;
      repeat split; try apply incl_refl; apply incl_appl, incl_refl.
  - rewrite (note_param_none sd prefix name p l Hget). simpl.
    repeat split; try apply incl_refl; apply incl_appl, incl_refl.
Qed.

(** The lists after the loop over a module's own parameters. *)
Lemma quiet_local_params_lists sd prefix ps :
  forall l,
    let l' := snd (quiet_local_params sd prefix ps l) in
    extends l l' /\
    unexpected_keys l' = unexpected_keys l /\
    (forall name p, In (name, p) ps -> get (prefix ++ name) sd = None ->
       In (prefix ++ name) (missing_keys l')) /\
    (forall name p v, In (name, p) ps -> get (prefix ++ name) sd = Some v ->
       other_shape p v -> In (prefix ++ name) (error_msgs l')) /\
    ((forall name p v, In (name, p) ps -> get (prefix ++ name) sd = Some v ->
        p_shape v = p_shape p) ->
     error_msgs l' = error_msgs l).
Proof.
  induction ps as [| [name p] ps IH]; intros l.
  - simpl. repeat split; try apply incl_refl; intros; try contradiction; reflexivity.
  - cbv zeta. rewrite quiet_local_params_snd_cons.
    destruct (IH (note_param sd prefix name p l)) as (Hext & Hun & Hmiss & Herr & Hnone).
    destruct (note_param_extends sd prefix name p l) as (Hext0 & Hun0).
    split; [eapply extends_trans; eassumption |].
    split; [congruence |].
    split; [| split].
    + intros name' p' [E | Hin] Hget.
      * injection E as <- <-.
        apply Hext. rewrite (note_param_none sd prefix name p l Hget). simpl.
        apply in_or_app. right. left. reflexivity.
      * eapply Hmiss; eassumption.
    + intros name' p' v [E | Hin] Hget Hshape.
      * injection E as <- <-.
        apply Hext.
        destruct (note_param_some sd prefix name p l v Hget) as [(_ & ->) | (Hn & _)];
          [| contradiction].
        simpl. apply in_or_app. right. left. reflexivity.
      * eapply Herr; eassumption.
    + intros Hall. rewrite Hnone.
      * destruct (get (prefix ++ name) sd) as [v |] eqn:Hget.
        -- destruct (note_param_some sd prefix name p l v Hget) as [((Hne & _) & _) | (_ & ->)];
             [| reflexivity].
           exfalso. apply Hne. exact (Hall name p v (or_introl eq_refl) Hget).
        -- rewrite (note_param_none sd prefix name p l Hget). reflexivity.
      * intros name' p' v Hin. apply Hall. right. exact Hin.
Qed.

Lemma quiet_children_lists sd prefix cs :
  (forall c child, In (c, Some child) cs ->
     forall prefix l, lists_after sd child prefix l (snd (quiet_load sd child prefix l))) ->
  forall l,
    let l' := snd (quiet_children (quiet_load sd) prefix cs l) in
    extends l l' /\
    (forall c child path name p, In (c, Some child) cs -> param_at child path name p ->
       get ((prefix ++ c ++ ".") ++ key_of path name) sd = None ->
       In ((prefix ++ c ++ ".") ++ key_of path name) (missing_keys l')) /\
    (forall c child path name p v, In (c, Some child) cs -> param_at child path name p ->
       get ((prefix ++ c ++ ".") ++ key_of path name) sd = Some v ->
       other_shape p v ->
       In ((prefix ++ c ++ ".") ++ key_of path name) (error_msgs l')) /\
    ((forall c child path name p v, In (c, Some child) cs -> param_at child path name p ->
        get ((prefix ++ c ++ ".") ++ key_of path name) sd = Some v ->
        p_shape v = p_shape p) ->
     error_msgs l' = error_msgs l).
Proof.
  induction cs as [| [c0 [child0 |]] cs IHcs]; intros Hload l; cbv zeta; simpl.
  - repeat split; try apply incl_refl; intros; try contradiction; reflexivity.
  - pose proof (Hload c0 child0 (or_introl eq_refl) (prefix ++ c0 ++ ".") l) as H0.
    destruct (quiet_load sd child0 (prefix ++ c0 ++ ".") l) as [child0' l1]. simpl in H0.
    specialize (IHcs (fun c child Hin => Hload c child (or_intror Hin)) l1).
    cbv zeta in IHcs.
    destruct (quiet_children (quiet_load sd) prefix cs l1) as [cs' l'].
    simpl in *.
    destruct H0 as (Hext0 & Hmiss0 & Herr0 & Hnone0).
    destruct IHcs as (Hext & Hmiss & Herr & Hnone).
    split; [eapply extends_trans; eassumption |].
    split; [| split].
    + intros c child path name p [E | Hin] Hat Hget.
      * injection E as <- <-. apply Hext. eapply Hmiss0; eassumption.
      * eapply Hmiss; eassumption.
    + intros c child path name p v [E | Hin] Hat Hget Hshape.
      * injection E as <- <-. apply Hext. eapply Herr0; eassumption.
      * eapply Herr; eassumption.
    + intros Hall. rewrite Hnone.
      * apply Hnone0. intros path name p v Hat. eapply Hall; [left; reflexivity | exact Hat].
      * intros c child path name p v Hin. eapply Hall. right. exact Hin.
  - specialize (IHcs (fun c child Hin => Hload c child (or_intror Hin)) l).
    cbv zeta in IHcs.
    destruct (quiet_children (quiet_load sd) prefix cs l) as [cs' l'].
    simpl in *.
    destruct IHcs as (Hext & Hmiss & Herr & Hnone).
    split; [exact Hext |].
    split; [| split].
    + intros c child path name p [E | Hin] Hat Hget; [discriminate E |].
      eapply Hmiss; eassumption.
    + intros c child path name p v [E | Hin] Hat Hget Hshape; [discriminate E |].
      eapply Herr; eassumption.
    + intros Hall. apply Hnone.
      intros c child path name p v Hin. eapply Hall. right. exact Hin.
Qed.

Lemma quiet_unfold sd ps cs prefix l :
  snd (quiet_load sd (mkModule ps cs) prefix l) =
  snd (quiet_children (quiet_load sd) prefix cs
         {| missing_keys := missing_keys (snd (quiet_local_params sd prefix ps l));
            unexpected_keys :=
              unexpected_keys (snd (quiet_local_params sd prefix ps l)) ++
              local_unexpected sd prefix ps cs;
            error_msgs := error_msgs (snd (quiet_local_params sd prefix ps l)) |}).
Proof.
  simpl.
  destruct (quiet_local_params sd prefix ps l) as [ps' l1]. simpl.
  match goal with
  | |- context [quiet_children (quiet_load sd) prefix cs ?l2] =>
      destruct (quiet_children (quiet_load sd) prefix cs l2)
  end. reflexivity.
Qed.

Lemma quiet_lists sd m :
  forall prefix l, lists_after sd m prefix l (snd (quiet_load sd m prefix l)).
Proof.
  induction m as [ps cs IH] using nn_Module_tree_ind.
  intros prefix l. rewrite quiet_unfold.
  destruct (quiet_local_params_lists sd prefix ps l)
    as (Hext1 & Hun1 & Hmiss1 & Herr1 & Hnone1).
  set (l1 := snd (quiet_local_params sd prefix ps l)) in *.
  set (l2 := {| missing_keys := missing_keys l1;
                unexpected_keys := unexpected_keys l1 ++ local_unexpected sd prefix ps cs;
                error_msgs := error_msgs l1 |}).
  assert (Hext2 : extends l1 l2).
  { repeat split; simpl; try apply incl_refl. apply incl_appl, incl_refl. }
  destruct (quiet_children_lists sd prefix cs IH l2)
    as (Hext3 & Hmiss3 & Herr3 & Hnone3).
  set (l3 := snd (quiet_children (quiet_load sd) prefix cs l2)) in *.
  assert (Hext : extends l l3).
  { eapply extends_trans; [exact Hext1 |]. eapply extends_trans; eassumption. }
  split; [exact Hext |].
  split; [| split].
  - intros path name p Hat Hget.
    inversion Hat as [? ? ? ? Hin | ? ? c child ? ? ? Hin Hat']; subst.
    + simpl in *. apply Hext3. simpl. eapply Hmiss1; eassumption.
    + rewrite key_of_cons in *. eapply Hmiss3; eassumption.
  - intros path name p v Hat Hget Hshape.
    inversion Hat as [? ? ? ? Hin | ? ? c child ? ? ? Hin Hat']; subst.
    + simpl in *. apply Hext3. simpl. eapply Herr1; eassumption.
    + rewrite key_of_cons in *. eapply Herr3; eassumption.
  - intros Hall. rewrite Hnone3.
    + simpl. apply Hnone1. intros name p v Hin Hget.
      apply (Hall [] name p v); [constructor; exact Hin | exact Hget].
    + intros c child path name p v Hin Hat Hget.
      apply (Hall (c :: path) name p v).
      * econstructor; eassumption.
      * rewrite key_of_cons. exact Hget.
Qed.

(** A key whose first name component is neither a child nor a parameter of
    the root is reported as unexpected. *)
Lemma quiet_unexpected_at_root sd ps cs l key :
  In key (keys sd) ->
  PyStr.mem (before_dot key) (keys cs) = false ->
  PyStr.mem (before_dot key) (keys ps) = false ->
  In key (unexpected_keys (snd (quiet_load sd (mkModule ps cs) "" l))).
Proof.
  intros Hin Hcs Hps. rewrite quiet_unfold.
  match goal with
  | |- context [quiet_children (quiet_load sd) "" cs ?l2] =>
      destruct (quiet_children_lists sd "" cs
                  (fun c child _ prefix l => quiet_lists sd child prefix l) l2)
        as ((_ & Hun & _) & _)
  end.
  apply Hun. simpl. apply in_or_app. right.
  unfold local_unexpected. apply filter_In. split; [exact Hin |].
  simpl. rewrite Hcs, Hps.
  destruct key; reflexivity.
Qed.

End Tree.

(** *** Checking every parameter of a tree *)

Lemma all_params_spec {A : Type} (f : string -> nn_Parameter A -> bool)
    (m : nn_Module A) :
  forall prefix, all_params f m prefix = true ->
  forall path name p, param_at m path name p ->
    f (prefix ++ key_of path name) p = true.
Proof.
  induction m as [ps cs IH] using nn_Module_tree_ind.
  intros prefix Hall path name p Hat. simpl in Hall.
  apply andb_true_iff in Hall. destruct Hall as (Hps & Hcs).
  rewrite forallb_forall in Hps, Hcs.
  inversion Hat as [? ? ? ? Hin | ? ? c child ? ? ? Hin Hat']; subst.
  - exact (Hps _ Hin).
  - rewrite key_of_cons.
    apply (IH c child Hin). exact (Hcs _ Hin). exact Hat'.
Qed.

Lemma forallb_false {X : Type} (g : X -> bool) (xs : list X) :
  forallb g xs = false -> exists x, In x xs /\ g x = false.
Proof.
  induction xs as [| x xs IH]; simpl; [discriminate |].
  destruct (g x) eqn:Hg; simpl.
  - intros Hxs. destruct (IH Hxs) as (y & Hin & Hy). exists y. auto.
  - intros _. exists x. auto.
Qed.

Lemma all_params_false {A : Type} (f : string -> nn_Parameter A -> bool)
    (m : nn_Module A) :
  forall prefix, all_params f m prefix = false ->
  exists path name p, param_at m path name p /\
                      f (prefix ++ key_of path name) p = false.
Proof.
  induction m as [ps cs IH] using nn_Module_tree_ind.
  intros prefix Hall. simpl in Hall.
  apply andb_false_iff in Hall. destruct Hall as [Hps | Hcs].
  - apply forallb_false in Hps. destruct Hps as ([name p] & Hin & Hf).
    exists [], name, p. split; [constructor; exact Hin | exact Hf].
  - apply forallb_false in Hcs. destruct Hcs as ([c [child |]] & Hin & Hf);
      [| discriminate Hf].
    destruct (IH c child Hin _ Hf) as (path & name & p & Hat & Hp).
    exists (c :: path), name, p. rewrite key_of_cons.
    split; [econstructor; eassumption | exact Hp].
Qed.

Lemma shapes_agree_all {A : Type} (state_dict : dict (nn_Parameter A))
    (m : nn_Module A) :
  all_params (shapes_agree state_dict) m "" = true ->
  forall path name p v, param_at m path name p ->
    get (key_of path name) state_dict = Some v -> p_shape v = p_shape p.
Proof.
  intros Hall path name p v Hat Hget.
  pose proof (all_params_spec _ m "" Hall path name p Hat) as Hf.
  simpl in Hf. unfold shapes_agree in Hf. rewrite Hget in Hf.
  apply shape_eqb_true. exact Hf.
Qed.

(** *** Entries that cannot be read

    [load] raises exactly when a 0-dimensional parameter has an empty entry;
    when none has, it leaves what [quiet_load] computes. *)

Section Unreadable.
Context {A : Type}.

Implicit Types (m child : nn_Module A) (sd : dict (nn_Parameter A))
  (l : LoadLists) (p v : nn_Parameter A).

Lemma not_fits p v : ~ fits p v <-> other_shape p v \/ empty_for_scalar p v.
Proof.
  unfold fits, other_shape, empty_for_scalar. split.
  - intros Hn.
    assert (Hne : p_shape v <> p_shape p) by (intros E; apply Hn; left; exact E).
    destruct (p_shape p) as [| d ds] eqn:Ep.
    + destruct (p_shape v) as [| [| n] [| n' ns]] eqn:Ev.
      * contradiction.
      * right. auto.
      * left. split; [exact Hne |]. intros (_ & X). discriminate X.
      * exfalso. apply Hn. right. split; [reflexivity |]. exists n. reflexivity.
      * left. split; [exact Hne |]. intros (_ & X). discriminate X.
    + left. split; [exact Hne |]. intros (X & _). discriminate X.
  - intros [(Hne & Hn) | (Hp & Hv)] [E | (Hp' & n & Hv')].
    + contradiction.
    + apply Hn. rewrite Hv'. auto.
    + rewrite Hp, Hv in E. discriminate E.
    + rewrite Hv in Hv'. discriminate Hv'.
Qed.

Lemma readable_false sd key p :
  readable sd key p = false <->
  exists v, get key sd = Some v /\ empty_for_scalar p v.
Proof.
  unfold readable, empty_for_scalar. destruct (get key sd) as [v |].
  - rewrite negb_false_iff, andb_true_iff, Nat.eqb_eq, shape_eqb_true,
      length_zero_iff_nil.
    split.
    + intros (Hp & Hv). exists v. auto.
    + intros (v' & E & Hp & Hv). injection E as <-. auto.
  - split; [discriminate | intros (v & E & _); discriminate E].
Qed.

Lemma adapt_input_unreadable p v :
  empty_for_scalar p v -> adapt_input p v = Raise IndexError.
Proof.
  intros (Hp & Hv). unfold adapt_input, select0. rewrite Hp, Hv. reflexivity.
Qed.

(** The body of the loop of [load_local_params] on an entry that can be
    read is [assign] and [note_param]. *)
Lemma adapt_input_readable sd prefix name p v l :
  get (prefix ++ name) sd = Some v ->
  readable sd (prefix ++ name) p = true ->
  exists v',
    adapt_input p v = Ok v' /\
    assign sd (prefix ++ name) p =
      (if shape_eqb (p_shape v') (p_shape p) then copy_ p v' else p) /\
    note_param sd prefix name p l =
      (if shape_eqb (p_shape v') (p_shape p) then l
       else {| missing_keys := missing_keys l;
               unexpected_keys := unexpected_keys l;
               error_msgs := error_msgs l ++ [prefix ++ name] |}).
Proof.
  intros Hget Hr. unfold readable in Hr. rewrite Hget in Hr.
  unfold assign, note_param, adapt_input, select0, copy_. rewrite Hget.
  destruct p as [ps pd], v as [vs vd]. cbn [p_shape p_data] in *.
  destruct ps as [| d ds].
  - destruct vs as [| [| n] [| n' ns]].
    + eexists. split; [reflexivity |]. split; reflexivity.
    + discriminate Hr.
    + eexists. split; [reflexivity |]. cbn [p_shape p_data].
      destruct (shape_eqb (0%nat :: n' :: ns) []); split; reflexivity.
    + eexists. split; [reflexivity |]. cbn [p_shape p_data].
      replace (shape_eqb [S n] []) with false
        by (symmetry; apply not_true_is_false; rewrite shape_eqb_true; discriminate).
      replace (shape_eqb [] []) with true
        by (symmetry; apply shape_eqb_true; reflexivity).
      split; reflexivity.
    + eexists. split; [reflexivity |]. cbn [p_shape p_data].
      destruct (shape_eqb (S n :: n' :: ns) []); split; reflexivity.
  - eexists. split; [reflexivity |]. cbn [p_shape p_data].
    destruct (shape_eqb vs (d :: ds)); split; reflexivity.
Qed.


Lemma load_local_params_readable sd prefix ps :
  forallb (fun '(name, p) => readable sd (prefix ++ name) p) ps = true ->
  forall l,
    load_local_params sd prefix true ps l =
    (fst (quiet_local_params sd prefix ps l),
     snd (quiet_local_params sd prefix ps l), None).
Proof.
  induction ps as [| [name p] ps IH]; intros Hall l; [reflexivity |].
  simpl in Hall. apply andb_true_iff in Hall. destruct Hall as (Hr & Hall).
  specialize (IH Hall). cbn [load_local_params quiet_local_params].
  destruct (get (prefix ++ name) sd) as [v |] eqn:Hget.
  - destruct (adapt_input_readable sd prefix name p v l Hget Hr) as (v' & -> & -> & ->).
    destruct (shape_eqb (p_shape v') (p_shape p)); rewrite IH;
      match goal with
      | |- context [quiet_local_params sd prefix ps ?l1] =>
          destruct (quiet_local_params sd prefix ps l1)
      end; reflexivity.
  - rewrite (note_param_none sd prefix name p l Hget).
    unfold assign. rewrite Hget, IH.
    match goal with
    | |- context [quiet_local_params sd prefix ps ?l1] =>
        destruct (quiet_local_params sd prefix ps l1)
    end. reflexivity.
Qed.

Lemma load_local_params_unreadable sd prefix ps :
  forallb (fun '(name, p) => readable sd (prefix ++ name) p) ps = false ->
  forall l, snd (load_local_params sd prefix true ps l) = Some IndexError.
Proof.
  induction ps as [| [name p] ps IH]; intros Hall l; [discriminate Hall |].
  simpl in Hall. cbn [load_local_params].
  destruct (readable sd (prefix ++ name) p) eqn:Hr.
  - simpl in Hall. specialize (IH Hall).
    destruct (get (prefix ++ name) sd) as [v |] eqn:Hget.
    + destruct (adapt_input_readable sd prefix name p v l Hget Hr) as (v' & -> & _).
      destruct (shape_eqb (p_shape v') (p_shape p));
        match goal with
        | |- context [load_local_params sd prefix true ps ?l1] =>
            specialize (IH l1);
            destruct (load_local_params sd prefix true ps l1) as [[rest' l'] r]
        end; exact IH.
    + match goal with
      | |- context [load_local_params sd prefix true ps ?l1] =>
          specialize (IH l1);
          destruct (load_local_params sd prefix true ps l1) as [[rest' l'] r]
      end. exact IH.
  - apply readable_false in Hr. destruct Hr as (v & Hget & He).
    rewrite Hget, (adapt_input_unreadable p v He). reflexivity.
Qed.

Lemma load_children_readable md sd prefix cs :
  (forall c child, In (c, Some child) cs ->
     forall prefix l, all_params (readable sd) child prefix = true ->
       load md sd child prefix l =
       (fst (quiet_load sd child prefix l), snd (quiet_load sd child prefix l), None)) ->
  forallb (fun '(c, o) =>
             match o with
             | Some child => all_params (readable sd) child (prefix ++ c ++ ".")
             | None => true
             end) cs = true ->
  forall l,
    load_children (load md sd) prefix cs l =
    (fst (quiet_children (quiet_load sd) prefix cs l),
     snd (quiet_children (quiet_load sd) prefix cs l), None).
Proof.
  induction cs as [| [c0 [child0 |]] cs IHcs]; intros Hload Hall l.
  - reflexivity.
  - simpl in Hall. apply andb_true_iff in Hall. destruct Hall as (H0 & Hall).
    cbn [load_children quiet_children].
    rewrite (Hload c0 child0 (or_introl eq_refl) _ l H0).
    destruct (quiet_load sd child0 (prefix ++ c0 ++ ".") l) as [child0' l1].
    cbn [fst snd].
    rewrite (IHcs (fun c child Hin => Hload c child (or_intror Hin)) Hall l1).
    destruct (quiet_children (quiet_load sd) prefix cs l1). reflexivity.
  - simpl in Hall. cbn [load_children quiet_children].
    rewrite (IHcs (fun c child Hin => Hload c child (or_intror Hin)) Hall l).
    destruct (quiet_children (quiet_load sd) prefix cs l). reflexivity.
Qed.

(** When every entry can be read, [load] raises nothing and leaves the tree
    and the lists of [quiet_load], whatever the metadata. *)
Lemma load_readable md sd m :
  forall prefix l, all_params (readable sd) m prefix = true ->
    load md sd m prefix l =
    (fst (quiet_load sd m prefix l), snd (quiet_load sd m prefix l), None).
Proof.
  induction m as [ps cs IH] using nn_Module_tree_ind.
  intros prefix l Hall. simpl in Hall.
  apply andb_true_iff in Hall. destruct Hall as (Hps & Hcs).
  cbn [load quiet_load]. unfold _load_from_state_dict.
  rewrite (load_local_params_readable sd prefix ps Hps l).
  destruct (quiet_local_params sd prefix ps l) as [ps' l1]. cbn [fst snd].
  rewrite (load_children_readable md sd prefix cs IH Hcs).
  match goal with
  | |- context [quiet_children (quiet_load sd) prefix cs ?l2] =>
      destruct (quiet_children (quiet_load sd) prefix cs l2)
  end. reflexivity.
Qed.

Lemma load_children_unreadable md sd prefix cs :
  (forall c child, In (c, Some child) cs ->
     forall prefix l, all_params (readable sd) child prefix = false ->
       snd (load md sd child prefix l) = Some IndexError) ->
  forallb (fun '(c, o) =>
             match o with
             | Some child => all_params (readable sd) child (prefix ++ c ++ ".")
             | None => true
             end) cs = false ->
  forall l, snd (load_children (load md sd) prefix cs l) = Some IndexError.
Proof.
  induction cs as [| [c0 [child0 |]] cs IHcs]; intros Hload Hall l.
  - discriminate Hall.
  - simpl in Hall. cbn [load_children].
    destruct (all_params (readable sd) child0 (prefix ++ c0 ++ ".")) eqn:H0.
    + simpl in Hall. rewrite (load_readable md sd child0 _ l H0).
      specialize (IHcs (fun c child Hin => Hload c child (or_intror Hin)) Hall
                    (snd (quiet_load sd child0 (prefix ++ c0 ++ ".") l))).
      destruct (load_children (load md sd) prefix cs
                  (snd (quiet_load sd child0 (prefix ++ c0 ++ ".") l)))
        as [[rest' l'] r].
      exact IHcs.
    + pose proof (Hload c0 child0 (or_introl eq_refl) _ l H0) as Hr.
      destruct (load md sd child0 (prefix ++ c0 ++ ".") l) as [[child0' l1] r].
      simpl in Hr. subst r. reflexivity.
  - simpl in Hall. cbn [load_children].
    specialize (IHcs (fun c child Hin => Hload c child (or_intror Hin)) Hall l).
    destruct (load_children (load md sd) prefix cs l) as [[rest' l'] r].
    exact IHcs.
Qed.

(** When some entry cannot be read, [load] raises IndexError. *)
Lemma load_unreadable md sd m :
  forall prefix l, all_params (readable sd) m prefix = false ->
    snd (load md sd m prefix l) = Some IndexError.
Proof.
  induction m as [ps cs IH] using nn_Module_tree_ind.
  intros prefix l Hall. simpl in Hall.
  cbn [load]. unfold _load_from_state_dict.
  destruct (forallb (fun '(name, p) => readable sd (prefix ++ name) p) ps) eqn:Hps.
  - simpl in Hall.
    rewrite (load_local_params_readable sd prefix ps Hps l).
    match goal with
    | |- context [load_children (load md sd) prefix cs ?l2] =>
        pose proof (load_children_unreadable md sd prefix cs IH Hall l2) as Hr;
        destruct (load_children (load md sd) prefix cs l2) as [[cs' l'] r]
    end.
    exact Hr.
  - pose proof (load_local_params_unreadable sd prefix ps Hps l) as Hr.
    destruct (load_local_params sd prefix true ps l) as [[ps' l1] r].
    simpl in Hr. subst r. reflexivity.
Qed.

Lemma unreadable_entry_iff sd m :
  unreadable_entry sd m <-> all_params (readable sd) m "" = false.
Proof.
  split.
  - intros (path & name & p & v & Hat & Hget & He).
    destruct (all_params (readable sd) m "") eqn:Hall; [| reflexivity].
    pose proof (all_params_spec _ m "" Hall path name p Hat) as Hr.
    simpl in Hr. rewrite <- Hr. apply readable_false. exists v. auto.
  - intros Hall. apply all_params_false in Hall.
    destruct Hall as (path & name & p & Hat & Hr). simpl in Hr.
    apply readable_false in Hr. destruct Hr as (v & Hget & He).
    exists path, name, p, v. auto.
Qed.

Lemma no_unreadable_entry sd m :
  ~ unreadable_entry sd m <-> all_params (readable sd) m "" = true.
Proof.
  rewrite unreadable_entry_iff. destruct (all_params (readable sd) m ""); split;
    congruence.
Qed.

(** The load of a tree a load has left: the assignments and the lists depend
    on the names and the shapes of the parameters only, which a load keeps,
    so that a second load does what the first did, and raises when it
    raised. *)
Lemma adapt_input_copy_ p x v : adapt_input (copy_ p x) v = adapt_input p v.
Proof. reflexivity. Qed.

Lemma load_local_params_twice sd prefix ps :
  forall l ps' l' r,
    load_local_params sd prefix true ps l = (ps', l', r) ->
    load_local_params sd prefix true ps' l = (ps', l', r) /\ keys ps' = keys ps.
Proof.
  induction ps as [| [name p] ps IH]; intros l ps' l' r E.
  - injection E as <- <- <-. split; reflexivity.
  - cbn [load_local_params] in E.
    destruct (get (prefix ++ name) sd) as [v |] eqn:Hget.
    + destruct (adapt_input p v) as [v' | e] eqn:Ha.
      * destruct (shape_eqb (p_shape v') (p_shape p)) eqn:Hs.
        -- destruct (load_local_params sd prefix true ps l) as [[rest' l1] r1] eqn:Er.
           injection E as <- <- <-.
           destruct (IH _ _ _ _ Er) as (IH1 & IH2).
           cbn [load_local_params]. rewrite Hget, adapt_input_copy_, Ha.
           cbn [copy_ p_shape p_data]. rewrite Hs, IH1.
           split; [reflexivity |]. unfold keys in *. simpl. rewrite IH2. reflexivity.
        -- match type of E with
           | context [load_local_params sd prefix true ps ?l0] =>
               destruct (load_local_params sd prefix true ps l0) as [[rest' l1] r1] eqn:Er
           end.
           injection E as <- <- <-.
           destruct (IH _ _ _ _ Er) as (IH1 & IH2).
           cbn [load_local_params]. rewrite Hget, Ha, Hs, IH1.
           split; [reflexivity |]. unfold keys in *. simpl. rewrite IH2. reflexivity.
      * injection E as <- <- <-.
        cbn [load_local_params]. rewrite Hget, Ha. split; reflexivity.
    + match type of E with
      | context [load_local_params sd prefix true ps ?l0] =>
          destruct (load_local_params sd prefix true ps l0) as [[rest' l1] r1] eqn:Er
      end.
      injection E as <- <- <-.
      destruct (IH _ _ _ _ Er) as (IH1 & IH2).
      cbn [load_local_params]. rewrite Hget, IH1.
      split; [reflexivity |]. unfold keys in *. simpl. rewrite IH2. reflexivity.
Qed.

Lemma load_children_twice md sd prefix cs :
  (forall c child, In (c, Some child) cs ->
     forall prefix l m' l' r,
       load md sd child prefix l = (m', l', r) ->
       load md sd m' prefix l = (m', l', r)) ->
  forall l cs' l' r,
    load_children (load md sd) prefix cs l = (cs', l', r) ->
    load_children (load md sd) prefix cs' l = (cs', l', r) /\ keys cs' = keys cs.
Proof.
  induction cs as [| [c0 [child0 |]] cs IHcs]; intros Hload l cs' l' r E.
  - injection E as <- <- <-. split; reflexivity.
  - cbn [load_children] in E.
    destruct (load md sd child0 (prefix ++ c0 ++ ".") l) as [[child0' l1] r1] eqn:E0.
    pose proof (Hload c0 child0 (or_introl eq_refl) _ _ _ _ _ E0) as H0.
    destruct r1 as [e |].
    + injection E as <- <- <-. cbn [load_children]. rewrite H0.
      split; reflexivity.
    + destruct (load_children (load md sd) prefix cs l1) as [[rest' l2] r2] eqn:Er.
      injection E as <- <- <-.
      destruct (IHcs (fun c child Hin => Hload c child (or_intror Hin)) _ _ _ _ Er)
        as (IH1 & IH2).
      cbn [load_children]. rewrite H0, IH1.
      split; [reflexivity |]. unfold keys in *. simpl. rewrite IH2. reflexivity.
  - cbn [load_children] in E.
    destruct (load_children (load md sd) prefix cs l) as [[rest' l2] r2] eqn:Er.
    injection E as <- <- <-.
    destruct (IHcs (fun c child Hin => Hload c child (or_intror Hin)) _ _ _ _ Er)
      as (IH1 & IH2).
    cbn [load_children]. rewrite IH1.
    split; [reflexivity |]. unfold keys in *. simpl. rewrite IH2. reflexivity.
Qed.

Lemma load_twice md sd m :
  forall prefix l m' l' r,
    load md sd m prefix l = (m', l', r) ->
    load md sd m' prefix l = (m', l', r).
Proof.
  induction m as [ps cs IH] using nn_Module_tree_ind.
  intros prefix l m' l' r E. cbn [load] in E. unfold _load_from_state_dict in E.
  destruct (load_local_params sd prefix true ps l) as [[ps' l1] r1] eqn:Eps.
  destruct (load_local_params_twice sd prefix ps _ _ _ _ Eps) as (Hps & Hkeys).
  destruct r1 as [e |].
  - injection E as <- <- <-. cbn [load]. unfold _load_from_state_dict.
    rewrite Hps. reflexivity.
  - match type of E with
    | context [load_children (load md sd) prefix cs ?l2] =>
        destruct (load_children (load md sd) prefix cs l2) as [[cs' l3] r3] eqn:Ecs
    end.
    injection E as <- <- <-.
    destruct (load_children_twice md sd prefix cs IH _ _ _ _ Ecs) as (Hcs & Hkeys').
    cbn [load]. unfold _load_from_state_dict. rewrite Hps.
    unfold local_unexpected in *. rewrite Hkeys, Hkeys', Hcs. reflexivity.
Qed.


(** Whatever the entries, a parameter of the tree [load] leaves is a
    parameter of the tree it was given, as it was or [assign]ed. *)
Lemma adapt_input_assign sd key p v v' :
  get key sd = Some v -> adapt_input p v = Ok v' ->
  shape_eqb (p_shape v') (p_shape p) = true ->
  copy_ p v' = assign sd key p.
Proof.
  intros Hget Ha Hs.
  destruct (readable sd key p) eqn:Hr.
  - destruct (adapt_input_readable sd "" key p v no_lists Hget Hr) as (v'' & Ha' & Has & _).
    simpl in Has. rewrite Has. rewrite Ha in Ha'. injection Ha' as <-.
    rewrite Hs. reflexivity.
  - apply readable_false in Hr. destruct Hr as (v0 & Hget0 & He).
    rewrite Hget in Hget0. injection Hget0 as <-.
    rewrite (adapt_input_unreadable p v He) in Ha. discriminate Ha.
Qed.

Lemma load_local_params_either sd prefix ps :
  forall l name p',
    In (name, p') (fst (fst (load_local_params sd prefix true ps l))) ->
    exists p, In (name, p) ps /\
              (p' = p \/ p' = assign sd (prefix ++ name) p).
Proof.
  induction ps as [| [name0 p0] ps IH]; intros l name p' Hin; [destruct Hin |].
  cbn [load_local_params] in Hin.
  assert (Hrest : forall l0,
            In (name, p') (fst (fst (load_local_params sd prefix true ps l0))) ->
            exists p, In (name, p) ((name0, p0) :: ps) /\
                      (p' = p \/ p' = assign sd (prefix ++ name) p)).
  { intros l0 H0. destruct (IH l0 name p' H0) as (p & Hp & Hor).
    exists p. split; [right; exact Hp | exact Hor]. }
  assert (Hhead : (name0, p0) = (name, p') ->
            exists p, In (name, p) ((name0, p0) :: ps) /\
                      (p' = p \/ p' = assign sd (prefix ++ name) p)).
  { intros E. injection E as <- <-. exists p0. split; left; reflexivity. }
  destruct (get (prefix ++ name0) sd) as [v |] eqn:Hget.
  - destruct (adapt_input p0 v) as [v' | e] eqn:Ha.
    + destruct (shape_eqb (p_shape v') (p_shape p0)) eqn:Hs.
      * specialize (Hrest l).
        destruct (load_local_params sd prefix true ps l) as [[rest' l1] r1].
        simpl in Hin, Hrest. destruct Hin as [E | Hin]; [| exact (Hrest Hin)].
        injection E as <- <-. exists p0. split; [left; reflexivity |].
        right. apply (adapt_input_assign sd _ p0 v v' Hget Ha Hs).
      * match type of Hin with
        | context [load_local_params sd prefix true ps ?l0] =>
            specialize (Hrest l0);
            destruct (load_local_params sd prefix true ps l0) as [[rest' l1] r1]
        end.
        simpl in Hin, Hrest. destruct Hin as [E | Hin]; [exact (Hhead E) | exact (Hrest Hin)].
    + simpl in Hin. destruct Hin as [E | Hin]; [exact (Hhead E) |].
      exists p'. split; [right; exact Hin | left; reflexivity].
  - match type of Hin with
    | context [load_local_params sd prefix true ps ?l0] =>
        specialize (Hrest l0);
        destruct (load_local_params sd prefix true ps l0) as [[rest' l1] r1]
    end.
    simpl in Hin, Hrest. destruct Hin as [E | Hin]; [exact (Hhead E) | exact (Hrest Hin)].
Qed.

Lemma load_children_either md sd prefix cs :
  (forall c child, In (c, Some child) cs ->
     forall prefix l path name p',
       param_at (fst (fst (load md sd child prefix l))) path name p' ->
       exists p, param_at child path name p /\
                 (p' = p \/ p' = assign sd (prefix ++ key_of path name) p)) ->
  forall l c child' path name p',
    In (c, Some child') (fst (fst (load_children (load md sd) prefix cs l))) ->
    param_at child' path name p' ->
    exists child p, In (c, Some child) cs /\ param_at child path name p /\
                    (p' = p \/
                     p' = assign sd ((prefix ++ c ++ ".") ++ key_of path name) p).
Proof.
  induction cs as [| [c0 [child0 |]] cs IHcs]; intros Hload l c child' path name p' Hin Hat.
  - destruct Hin.
  - cbn [load_children] in Hin.
    pose proof (Hload c0 child0 (or_introl eq_refl) (prefix ++ c0 ++ ".") l path name p')
      as H0.
    destruct (load md sd child0 (prefix ++ c0 ++ ".") l) as [[child0' l1] r1].
    cbn [fst] in H0.
    assert (Hhead : (c0, Some child0') = (c, Some child') ->
              exists child p, In (c, Some child) ((c0, Some child0) :: cs) /\
                              param_at child path name p /\
                              (p' = p \/
                               p' = assign sd ((prefix ++ c ++ ".") ++ key_of path name) p)).
    { intros E. injection E as <- <-. destruct (H0 Hat) as (p & Hp & Hor).
      exists child0, p. split; [left; reflexivity | auto]. }
    destruct r1 as [e |].
    + simpl in Hin. destruct Hin as [E | Hin]; [exact (Hhead E) |].
      exists child', p'. split; [right; exact Hin |]. split; [exact Hat | left; reflexivity].
    + specialize (IHcs (fun c child Hin => Hload c child (or_intror Hin)) l1 c child'
                    path name p').
      destruct (load_children (load md sd) prefix cs l1) as [[rest' l2] r2].
      simpl in Hin, IHcs. destruct Hin as [E | Hin]; [exact (Hhead E) |].
      destruct (IHcs Hin Hat) as (child & p & Hc & Hp & Hor).
      exists child, p. split; [right; exact Hc | auto].
  - cbn [load_children] in Hin.
    specialize (IHcs (fun c child Hin => Hload c child (or_intror Hin)) l c child'
                  path name p').
    destruct (load_children (load md sd) prefix cs l) as [[rest' l2] r2].
    simpl in Hin, IHcs. destruct Hin as [E | Hin]; [discriminate E |].
    destruct (IHcs Hin Hat) as (child & p & Hc & Hp & Hor).
    exists child, p. split; [right; exact Hc | auto].
Qed.

Lemma load_params_either md sd m :
  forall prefix l path name p',
    param_at (fst (fst (load md sd m prefix l))) path name p' ->
    exists p, param_at m path name p /\
              (p' = p \/ p' = assign sd (prefix ++ key_of path name) p).
Proof.
  induction m as [ps cs IH] using nn_Module_tree_ind.
  intros prefix l path name p' Hat. cbn [load] in Hat.
  unfold _load_from_state_dict in Hat.
  pose proof (load_local_params_either sd prefix ps l) as Hps.
  destruct (load_local_params sd prefix true ps l) as [[ps' l1] r1].
  cbn [fst] in Hps.
  assert (Hown : forall cs', param_at (mkModule ps' cs') [] name p' ->
            exists p, param_at (mkModule ps cs) [] name p /\
                      (p' = p \/ p' = assign sd (prefix ++ key_of [] name) p)).
  { intros cs' H0. inversion H0 as [? ? ? ? Hin |]; subst.
    destruct (Hps name p' Hin) as (p & Hp & Hor).
    exists p. split; [constructor; exact Hp | exact Hor]. }
  destruct r1 as [e |].
  - cbn [fst] in Hat.
    inversion Hat as [? ? ? ? Hin | ? ? c child ? ? ? Hin Hat']; subst.
    + apply (Hown cs). exact Hat.
    + exists p'. split; [econstructor; eassumption | left; reflexivity].
  - match type of Hat with
    | context [load_children (load md sd) prefix cs ?l2] =>
        pose proof (load_children_either md sd prefix cs IH l2) as Hcs;
        destruct (load_children (load md sd) prefix cs l2) as [[cs' l3] r3]
    end.
    cbn [fst] in Hat, Hcs.
    inversion Hat as [? ? ? ? Hin | ? ? c child' ? ? ? Hin Hat']; subst.
    + apply (Hown cs'). exact Hat.
    + destruct (Hcs c child' path0 name p' Hin Hat') as (child & p & Hc & Hp & Hor).
      exists p. split; [econstructor; eassumption |].
      rewrite key_of_cons. exact Hor.
Qed.

End Unreadable.

(** *** The lists, read the other way *)

Section TreeFacts.
Context {A : Type}.

Implicit Types (m child : nn_Module A) (sd : dict (nn_Parameter A))
  (l : LoadLists) (p : nn_Parameter A).

(** The missing keys and the error messages a load adds are exactly those of
    the tree's parameters without an entry and with an entry of another
    shape. *)
Lemma quiet_local_params_exact sd prefix ps :
  forall l,
    let l' := snd (quiet_local_params sd prefix ps l) in
    (forall key, In key (missing_keys l') ->
       In key (missing_keys l) \/
       exists name p, In (name, p) ps /\ key = prefix ++ name /\ get key sd = None) /\
    (forall key, In key (error_msgs l') ->
       In key (error_msgs l) \/
       exists name p v, In (name, p) ps /\ key = prefix ++ name /\
                        get key sd = Some v /\ other_shape p v).
Proof.
  induction ps as [| [name p] ps IH]; intros l.
  - simpl. split; intros key Hin; left; exact Hin.
  - cbv zeta. rewrite quiet_local_params_snd_cons.
    destruct (IH (note_param sd prefix name p l)) as (Hmiss & Herr).
    split; intros key Hin.
    + destruct (Hmiss key Hin) as [Hold | (name' & p' & Hin' & -> & Hget)].
      * destruct (get (prefix ++ name) sd) as [v |] eqn:Hget.
        { destruct (note_param_some sd prefix name p l v Hget) as [(_ & E) | (_ & E)];
            rewrite E in Hold; left; exact Hold. }
        rewrite (note_param_none sd prefix name p l Hget) in Hold.
        simpl in Hold. apply in_app_or in Hold.
        destruct Hold as [Hold | [<- | []]]; [left; exact Hold |].
        right. exists name, p. repeat split; auto. left. reflexivity.
      * right. exists name', p'. repeat split; auto. right. exact Hin'.
    + destruct (Herr key Hin) as [Hold | (name' & p' & v & Hin' & -> & Hget & Hs)].
      * destruct (get (prefix ++ name) sd) as [v |] eqn:Hget.
        2:{ rewrite (note_param_none sd prefix name p l Hget) in Hold.
            left; exact Hold. }
        destruct (note_param_some sd prefix name p l v Hget) as [(Ho & E) | (_ & E)];
          rewrite E in Hold; [| left; exact Hold].
        simpl in Hold. apply in_app_or in Hold.
        destruct Hold as [Hold | [<- | []]]; [left; exact Hold |].
        right. exists name, p, v. split; [left; reflexivity |]. auto.
      * right. exists name', p', v. split; [right; exact Hin' |]. auto.
Qed.

Ltac below Hat :=
  inversion Hat as [? ? ? ? Hin' | ? ? c child ? ? ? Hin' Hat']; subst;
  [destruct Hin' | econstructor; [right; exact Hin' | exact Hat']].

Lemma quiet_children_exact sd prefix cs :
  (forall c child, In (c, Some child) cs ->
     forall prefix l, lists_exact sd child prefix l (snd (quiet_load sd child prefix l))) ->
  forall l,
    lists_exact sd (mkModule [] cs) prefix l
      (snd (quiet_children (quiet_load sd) prefix cs l)).
Proof.
  induction cs as [| [c0 [child0 |]] cs IHcs]; intros Hload l; simpl.
  - repeat split; intros key Hin; left; exact Hin.
  - pose proof (Hload c0 child0 (or_introl eq_refl) (prefix ++ c0 ++ ".") l) as H0.
    destruct (quiet_load sd child0 (prefix ++ c0 ++ ".") l) as [child0' l1]. simpl in H0.
    specialize (IHcs (fun c child Hin => Hload c child (or_intror Hin)) l1).
    destruct (quiet_children (quiet_load sd) prefix cs l1) as [cs' l'].
    simpl in *.
    destruct H0 as (Hmiss0 & Herr0 & Hun0). destruct IHcs as (Hmiss & Herr & Hun).
    repeat split; intros key Hin.
    + destruct (Hmiss key Hin) as [Hold | (path & name & p & Hat & -> & Hget)].
      * destruct (Hmiss0 key Hold) as [Hold' | (path & name & p & Hat & -> & Hget)];
          [left; exact Hold' |].
        right. exists (c0 :: path), name, p. rewrite key_of_cons.
        repeat split; auto. econstructor; [left; reflexivity | exact Hat].
      * right. exists path, name, p. repeat split; auto. below Hat.
    + destruct (Herr key Hin) as [Hold | (path & name & p & v & Hat & -> & Hget & Hs)].
      * destruct (Herr0 key Hold)
          as [Hold' | (path & name & p & v & Hat & -> & Hget & Hs)];
          [left; exact Hold' |].
        right. exists (c0 :: path), name, p, v. rewrite key_of_cons.
        split; [econstructor; [left; reflexivity | exact Hat] | auto].
      * right. exists path, name, p, v. split; [below Hat | auto].
    + destruct (Hun key Hin) as [Hold | Hk]; [| right; exact Hk].
      apply Hun0. exact Hold.
  - specialize (IHcs (fun c child Hin => Hload c child (or_intror Hin)) l).
    destruct (quiet_children (quiet_load sd) prefix cs l) as [cs' l'].
    simpl in *. destruct IHcs as (Hmiss & Herr & Hun).
    repeat split; intros key Hin.
    + destruct (Hmiss key Hin) as [Hold | (path & name & p & Hat & -> & Hget)];
        [left; exact Hold |].
      right. exists path, name, p. repeat split; auto. below Hat.
    + destruct (Herr key Hin) as [Hold | (path & name & p & v & Hat & -> & Hget & Hs)];
        [left; exact Hold |].
      right. exists path, name, p, v. split; [below Hat | auto].
    + apply Hun. exact Hin.
Qed.

Lemma quiet_exact sd m :
  forall prefix l, lists_exact sd m prefix l (snd (quiet_load sd m prefix l)).
Proof.
  induction m as [ps cs IH] using nn_Module_tree_ind.
  intros prefix l. rewrite quiet_unfold.
  destruct (quiet_local_params_exact sd prefix ps l) as (Hmiss1 & Herr1).
  destruct (quiet_local_params_lists sd prefix ps l) as (_ & Hun1 & _).
  match goal with
  | |- context [quiet_children (quiet_load sd) prefix cs ?l2] =>
      destruct (quiet_children_exact sd prefix cs IH l2) as (Hmiss & Herr & Hun)
  end.
  simpl in Hmiss, Herr, Hun.
  repeat split; intros key Hin.
  - destruct (Hmiss key Hin) as [Hold | (path & name & p & Hat & -> & Hget)].
    + destruct (Hmiss1 key Hold) as [Hold' | (name & p & Hin' & -> & Hget)];
        [left; exact Hold' |].
      right. exists [], name, p. repeat split; auto. constructor. exact Hin'.
    + right. exists path, name, p. repeat split; auto.
      inversion Hat as [? ? ? ? Hin' | ? ? c child ? ? ? Hin' Hat']; subst.
      { destruct Hin'. }
      econstructor; eassumption.
  - destruct (Herr key Hin) as [Hold | (path & name & p & v & Hat & -> & Hget & Hs)].
    + destruct (Herr1 key Hold) as [Hold' | (name & p & v & Hin' & -> & Hget & Hs)];
        [left; exact Hold' |].
      right. exists [], name, p, v. split; [constructor; exact Hin' | auto].
    + right. exists path, name, p, v. split; [| auto].
      inversion Hat as [? ? ? ? Hin' | ? ? c child ? ? ? Hin' Hat']; subst.
      { destruct Hin'. }
      econstructor; eassumption.
  - destruct (Hun key Hin) as [Hold | Hk]; [| right; exact Hk].
    apply in_app_or in Hold. destruct Hold as [Hold | Hloc].
    + left. rewrite <- Hun1. exact Hold.
    + right. unfold local_unexpected in Hloc. apply filter_In in Hloc. tauto.
Qed.

End TreeFacts.

(** *** The warnings *)

Section Warnings.
Context {A : Type}.

Lemma in_warnings_missing (l : LoadLists) (ks : list string) :
  In (Weights_not_initialized ks) (warnings l) <->
  ks = missing_keys l /\ ks <> [].
Proof.
  unfold warnings. rewrite in_app_iff. split.
  - intros [Hin | Hin].
    + destruct (missing_keys l) as [| k r] eqn:E; simpl in Hin; [destruct Hin |].
      destruct Hin as [Heq | []]. injection Heq as <-. split; [reflexivity | discriminate].
    + destruct (0 <? List.length (unexpected_keys l))%nat; simpl in Hin;
        [destruct Hin as [Heq | []]; discriminate Heq | destruct Hin].
  - intros (-> & Hne). left.
    destruct (missing_keys l); [congruence | left; reflexivity].
Qed.

Lemma in_warnings_unexpected (l : LoadLists) (ks : list string) :
  In (Weights_not_used ks) (warnings l) <->
  ks = unexpected_keys l /\ ks <> [].
Proof.
  unfold warnings. rewrite in_app_iff. split.
  - intros [Hin | Hin].
    + destruct (0 <? List.length (missing_keys l))%nat; simpl in Hin;
        [destruct Hin as [Heq | []]; discriminate Heq | destruct Hin].
    + destruct (unexpected_keys l) as [| k r] eqn:E; simpl in Hin; [destruct Hin |].
      destruct Hin as [Heq | []]. injection Heq as <-. split; [reflexivity | discriminate].
  - intros (-> & Hne). right.
    destruct (unexpected_keys l); [congruence | left; reflexivity].
Qed.

Lemma loaded_not_in_warnings (l : LoadLists) : ~ In Weights_loaded (warnings l).
Proof.
  unfold warnings. rewrite in_app_iff. intros [Hin | Hin].
  - destruct (0 <? List.length (missing_keys l))%nat; simpl in Hin;
      [destruct Hin as [Heq | []]; discriminate Heq | destruct Hin].
  - destruct (0 <? List.length (unexpected_keys l))%nat; simpl in Hin;
      [destruct Hin as [Heq | []]; discriminate Heq | destruct Hin].
Qed.

End Warnings.

(** *** load_model *)

Lemma replace_nonempty (old new s : string) :
  s <> "" -> new <> "" -> replace old new s <> "".
Proof.
  intros Hs Hnew. destruct s as [| c s]; [contradiction |].
  unfold replace. cbn [replace_from].
  destruct (String.prefix old (String c s)).
  - destruct new; [contradiction | cbn [append]; discriminate].
  - discriminate.
Qed.

Lemma contains_nonempty (sub s : string) :
  sub <> "" -> contains sub s = true -> s <> "".
Proof.
  intros Hsub Hc ->. destruct sub; [contradiction | discriminate Hc].
Qed.

(** Lines 311-314 on a key with 'gamma' and without 'beta', and on a key with
    'beta'. *)
Lemma new_key_of_gamma (key : string) :
  contains "gamma" key = true -> contains "beta" key = false ->
  new_key_of key = Some (replace "gamma" "weight" key).
Proof. intros Hg Hb. unfold new_key_of. rewrite Hg, Hb. reflexivity. Qed.

Lemma new_key_of_beta (key : string) :
  contains "beta" key = true ->
  new_key_of key = Some (replace "beta" "bias" key).
Proof. intros Hb. unfold new_key_of. rewrite Hb. reflexivity. Qed.

Section LoadModel.
Context {A : Type}.

Implicit Types (m : nn_Module A) (sd : StateDict A).

Lemma rename_distinct_keys sd :
  NoDup (keys (items sd)) ->
  fst (rename_all (flat_map legacy_pair (keys (items sd))) (items sd)) = Ok tt.
Proof.
  intros Hnd. apply rename_all_ok.
  - apply legacy_pairs_NoDup. exact Hnd.
  - intros j Hj. apply legacy_pairs_fst_in in Hj. apply get_in_keys. exact Hj.
Qed.

(** [load_model] when the renaming loop raises. *)
Lemma load_model_raised m sd e :
  fst (rename_all (flat_map legacy_pair (keys (items sd))) (items sd)) = Raise e ->
  load_model m sd =
  {| returned := Raise RuntimeError;
     module_after := m;
     state_dict_after := {| items := renamed_items sd; metadata := metadata sd |};
     printed := [] |}.
Proof.
  intros Hr. unfold load_model, renamed_items.
  pose proof (collect_keys_pairs (keys (items sd))) as Hpairs.
  destruct (collect_keys (keys (items sd))) as [old_keys new_keys].
  simpl in Hpairs. rewrite Hpairs.
  destruct (rename_all (flat_map legacy_pair (keys (items sd))) (items sd))
    as [r its].
  simpl in Hr. subst r. reflexivity.
Qed.

(** [load_model] when the renaming loop raises nothing: what [load] leaves,
    and RuntimeError when it raised or reported an error. *)
Lemma load_model_loaded m sd :
  fst (rename_all (flat_map legacy_pair (keys (items sd))) (items sd)) = Ok tt ->
  load_model m sd =
  match load (metadata sd) (renamed_items sd) m "" no_lists with
  | (m', l, Some _) =>
      {| returned := Raise RuntimeError;
         module_after := m';
         state_dict_after := {| items := renamed_items sd; metadata := metadata sd |};
         printed := [] |}
  | (m', l, None) =>
      {| returned := if (0 <? List.length (error_msgs l))%nat
                     then Raise RuntimeError else Ok m';
         module_after := m';
         state_dict_after := {| items := renamed_items sd; metadata := metadata sd |};
         printed := (warnings l ++
                     if (0 <? List.length (error_msgs l))%nat
                     then [] else [Weights_loaded])%list |}
  end.
Proof.
  intros Hr. unfold load_model, renamed_items.
  pose proof (collect_keys_pairs (keys (items sd))) as Hpairs.
  destruct (collect_keys (keys (items sd))) as [old_keys new_keys].
  simpl in Hpairs. rewrite Hpairs.
  destruct (rename_all (flat_map legacy_pair (keys (items sd))) (items sd))
    as [r its].
  simpl in Hr. subst r. simpl.
  change {| missing_keys := []; unexpected_keys := []; error_msgs := [] |}
    with no_lists.
  destruct (load (metadata sd) its m "" no_lists) as [[m' l] [e |]]; [reflexivity |].
  unfold warnings.
  destruct (0 <? List.length (error_msgs l))%nat; simpl.
  - rewrite app_nil_r. reflexivity.
  - reflexivity.
Qed.

(** [load_model] on a state dict with distinct keys whose every entry can be
    read, and on one with an entry that cannot. *)
Lemma load_model_readable m sd :
  NoDup (keys (items sd)) ->
  ~ unreadable_entry (renamed_items sd) m ->
  load_model m sd =
  {| returned :=
       if (0 <? List.length
                  (error_msgs (snd (quiet_load (renamed_items sd) m "" no_lists))))%nat
       then Raise RuntimeError
       else Ok (fst (quiet_load (renamed_items sd) m "" no_lists));
     module_after := fst (quiet_load (renamed_items sd) m "" no_lists);
     state_dict_after := {| items := renamed_items sd; metadata := metadata sd |};
     printed :=
       (warnings (snd (quiet_load (renamed_items sd) m "" no_lists)) ++
        if (0 <? List.length
                   (error_msgs (snd (quiet_load (renamed_items sd) m "" no_lists))))%nat
        then [] else [Weights_loaded])%list |}.
Proof.
  intros Hnd Hread. rewrite (load_model_loaded m sd (rename_distinct_keys sd Hnd)).
  apply no_unreadable_entry in Hread.
  rewrite (load_readable (metadata sd) (renamed_items sd) m "" no_lists Hread).
  reflexivity.
Qed.

Lemma load_model_unreadable m sd :
  NoDup (keys (items sd)) ->
  unreadable_entry (renamed_items sd) m ->
  load_model m sd =
  {| returned := Raise RuntimeError;
     module_after := fst (fst (load (metadata sd) (renamed_items sd) m "" no_lists));
     state_dict_after := {| items := renamed_items sd; metadata := metadata sd |};
     printed := [] |}.
Proof.
  intros Hnd Hun. rewrite (load_model_loaded m sd (rename_distinct_keys sd Hnd)).
  apply unreadable_entry_iff in Hun.
  pose proof (load_unreadable (metadata sd) (renamed_items sd) m "" no_lists Hun) as Hr.
  destruct (load (metadata sd) (renamed_items sd) m "" no_lists) as [[m' l] r].
  simpl in Hr. subst r. reflexivity.
Qed.

Lemma state_dict_after_renamed m sd :
  NoDup (keys (items sd)) ->
  state_dict_after (load_model m sd) =
  {| items := renamed_items sd; metadata := metadata sd |}.
Proof.
  intros Hnd. rewrite (load_model_loaded m sd (rename_distinct_keys sd Hnd)).
  destruct (load (metadata sd) (renamed_items sd) m "" no_lists) as [[m' l] [e |]];
    reflexivity.
Qed.

Lemma unreadable_entry_dec (its : dict (nn_Parameter A)) m :
  unreadable_entry its m \/ ~ unreadable_entry its m.
Proof.
  destruct (all_params (readable its) m "") eqn:Hall.
  - right. apply no_unreadable_entry. exact Hall.
  - left. apply unreadable_entry_iff. exact Hall.
Qed.

(** The error list of a load from the empty lists is not empty exactly when
    some entry has another shape. *)
Lemma load_errors_iff_other_shape (its : dict (nn_Parameter A)) m :
  error_msgs (snd (quiet_load its m "" no_lists)) <> [] <->
  exists path name p v,
    param_at m path name p /\ get (key_of path name) its = Some v /\ other_shape p v.
Proof.
  split.
  - intros Hne.
    destruct (quiet_exact its m "" no_lists) as (_ & Herr & _).
    destruct (error_msgs (snd (quiet_load its m "" no_lists))) as [| e es] eqn:E;
      [congruence |].
    destruct (Herr e (or_introl eq_refl)) as [[] | (path & name & p & v & Hat & -> & Hget & Hs)].
    exists path, name, p, v. auto.
  - intros (path & name & p & v & Hat & Hget & Hs) E.
    destruct (quiet_lists its m "" no_lists) as (_ & _ & Herr & _).
    specialize (Herr path name p v Hat Hget Hs). simpl in Herr.
    rewrite E in Herr. destruct Herr.
Qed.

Lemma shape_conflict_cases (its : dict (nn_Parameter A)) m :
  shape_conflict its m <->
  (exists path name p v,
     param_at m path name p /\ get (key_of path name) its = Some v /\ other_shape p v) \/
  unreadable_entry its m.
Proof.
  split.
  - intros (path & name & p & v & Hat & Hget & Hn).
    apply not_fits in Hn. destruct Hn as [Ho | He].
    + left. exists path, name, p, v. auto.
    + right. exists path, name, p, v. auto.
  - intros [(path & name & p & v & Hat & Hget & Ho) | (path & name & p & v & Hat & Hget & He)];
      exists path, name, p, v; (split; [exact Hat |]); (split; [exact Hget |]);
      apply not_fits; auto.
Qed.

(** A checkpoint entry under [k] whose new name is [k'] is found under [k']
    after the renaming loop, when no other renamed key is [k'] or is renamed
    to [k] or [k']. *)
Lemma renamed_items_moves sd (k k' : string) (v : nn_Parameter A) :
  NoDup (keys (items sd)) ->
  get k (items sd) = Some v ->
  new_key_of k = Some k' -> k' <> "" ->
  (forall j j', In j (keys (items sd)) -> j <> k -> new_key_of j = Some j' ->
     j <> k' /\ j' <> k /\ j' <> k') ->
  get k' (renamed_items sd) = Some v.
Proof.
  intros Hnd Hget Hnew Hne Hother. unfold renamed_items.
  apply rename_all_moves with (k := k).
  - apply legacy_pairs_NoDup. exact Hnd.
  - apply in_legacy_pairs. repeat split; auto.
    apply get_in_keys. congruence.
  - intros j Hj. apply legacy_pairs_fst_in in Hj. apply get_in_keys. exact Hj.
  - intros j j' Hin Hjk. apply in_legacy_pairs in Hin.
    destruct Hin as (Hin & Hj' & _). eapply Hother; eassumption.
  - exact Hget.
Qed.

(** C7, as amended.  For a checkpoint (a state dict, its keys distinct):
    when no 0-dimensional target parameter has an empty entry, whose reading
    would end the load, an entry whose key contains 'gamma' and not 'beta'
    is assigned to the target parameter named by the key with 'gamma'
    replaced by 'weight', and an entry whose key contains 'beta' to the one
    named by the key with 'beta' replaced by 'bias' (whatever else the key
    contains), provided the shapes agree and no other renamed key is that
    name or is renamed to the old or the new name; and when no entry of the
    renamed checkpoint has a shape other than its target parameter's, the
    load returns the module and prints that the weights were loaded, a
    target parameter without an entry and a checkpoint key the root module
    does not know being printed as warnings. *)
Theorem legacy_names_are_remapped m sd :
  NoDup (keys (items sd)) ->
  (~ unreadable_entry (items (state_dict_after (load_model m sd))) m ->
   forall k k' v path name p,
     get k (items sd) = Some v ->
     (contains "gamma" k = true /\ contains "beta" k = false /\
      k' = replace "gamma" "weight" k) \/
     (contains "beta" k = true /\ k' = replace "beta" "bias" k) ->
     (forall j j', In j (keys (items sd)) -> j <> k -> new_key_of j = Some j' ->
        j <> k' /\ j' <> k /\ j' <> k') ->
     param_at m path name p -> key_of path name = k' ->
     p_shape v = p_shape p ->
     param_at (module_after (load_model m sd)) path name (copy_ p v)) /\
  ((forall path name p v,
      param_at m path name p ->
      get (key_of path name) (items (state_dict_after (load_model m sd))) = Some v ->
      p_shape v = p_shape p) ->
   returned (load_model m sd) = Ok (module_after (load_model m sd)) /\
   In Weights_loaded (printed (load_model m sd)) /\
   (forall path name p,
      param_at m path name p ->
      get (key_of path name) (items (state_dict_after (load_model m sd))) = None ->
      exists ks, In (Weights_not_initialized ks) (printed (load_model m sd)) /\
                 In (key_of path name) ks) /\
   (forall key,
      In key (keys (items (state_dict_after (load_model m sd)))) ->
      PyStr.mem (before_dot key) (keys (modules m)) = false ->
      PyStr.mem (before_dot key) (keys (parameters m)) = false ->
      exists ks, In (Weights_not_used ks) (printed (load_model m sd)) /\
                 In key ks)).
Proof.
  intros Hnd. rewrite (state_dict_after_renamed m sd Hnd). cbn [items].
  split.
  - intros Hread k k' v path name p Hget Hkind Hother Hat Hkey Hshape.
    rewrite (load_model_readable m sd Hnd Hread). cbn [module_after].
    assert (Hnew : new_key_of k = Some k' /\ k' <> "").
    { destruct Hkind as [(Hg & Hb & ->) | (Hb & ->)].
      - split; [apply new_key_of_gamma; assumption |].
        apply replace_nonempty; [| discriminate].
        apply (contains_nonempty "gamma"); [discriminate | exact Hg].
      - split; [apply new_key_of_beta; assumption |].
        apply replace_nonempty; [| discriminate].
        apply (contains_nonempty "beta"); [discriminate | exact Hb]. }
    destruct Hnew as (Hnew & Hne).
    pose proof (renamed_items_moves sd k k' v Hnd Hget Hnew Hne Hother) as Hk'.
    apply quiet_params. exists p. split; [exact Hat |].
    simpl. rewrite Hkey. unfold assign. rewrite Hk'.
    rewrite (proj2 (shape_eqb_true _ _) Hshape). reflexivity.
  - intros Hshapes.
    assert (Hread : ~ unreadable_entry (renamed_items sd) m).
    { intros (path & name & p & v & Hat & Hget & Hp & Hv).
      pose proof (Hshapes path name p v Hat Hget) as E.
      rewrite Hp, Hv in E. discriminate E. }
    rewrite (load_model_readable m sd Hnd Hread).
    cbn [returned module_after printed].
    set (loaded := quiet_load (renamed_items sd) m "" no_lists).
    destruct (quiet_lists (renamed_items sd) m "" no_lists)
      as (_ & Hmissing & _ & Hnone).
    fold loaded in Hmissing, Hnone.
    assert (Herr : error_msgs (snd loaded) = []).
    { apply Hnone. intros path name p v Hat Hget. simpl in Hget.
      eapply Hshapes; eassumption. }
    rewrite Herr. simpl.
    split; [reflexivity |].
    split; [apply in_or_app; right; left; reflexivity |]. split.
    + intros path name p Hat Hget.
      exists (missing_keys (snd loaded)).
      assert (Hin : In (key_of path name) (missing_keys (snd loaded))).
      { apply (Hmissing path name p Hat). simpl. exact Hget. }
      split; [| exact Hin].
      apply in_or_app. left. apply in_warnings_missing.
      split; [reflexivity |]. intros E. rewrite E in Hin. destruct Hin.
    + intros key Hin Hcs Hps.
      exists (unexpected_keys (snd loaded)).
      assert (Hin' : In key (unexpected_keys (snd loaded))).
      { unfold loaded. destruct m as [ps cs].
        apply quiet_unexpected_at_root; assumption. }
      split; [| exact Hin'].
      apply in_or_app. left. apply in_warnings_unexpected.
      split; [reflexivity |]. intros E. rewrite E in Hin'. destruct Hin'.
Qed.

(** C8, as amended.  For a state dict with distinct keys: [load_model]
    returns the module or raises RuntimeError and nothing else; it raises
    when an entry of the renamed checkpoint does not fit its target
    parameter; and failed or not it leaves the target tree loaded, not
    restored: when no 0-dimensional parameter has an empty entry, every
    parameter whose entry fits holds the checkpoint's data (of shape [] and
    the first element of the entry when the parameter is 0-dimensional and
    the entry 1-D) and every other parameter is as it was; and in every case
    each parameter is as it was or holds the checkpoint's data. *)
Theorem load_fails_with_RuntimeError_and_keeps_assignments m sd :
  NoDup (keys (items sd)) ->
  (returned (load_model m sd) = Ok (module_after (load_model m sd)) \/
   returned (load_model m sd) = Raise RuntimeError) /\
  (shape_conflict (items (state_dict_after (load_model m sd))) m ->
   returned (load_model m sd) = Raise RuntimeError) /\
  (~ unreadable_entry (items (state_dict_after (load_model m sd))) m ->
   forall path name p',
     param_at (module_after (load_model m sd)) path name p' <->
     exists p, param_at m path name p /\
               p' = assign (items (state_dict_after (load_model m sd)))
                      (key_of path name) p) /\
  (forall path name p',
     param_at (module_after (load_model m sd)) path name p' ->
     exists p, param_at m path name p /\
               (p' = p \/
                p' = assign (items (state_dict_after (load_model m sd)))
                       (key_of path name) p)).
Proof.
  intros Hnd. rewrite (state_dict_after_renamed m sd Hnd). cbn [items].
  destruct (unreadable_entry_dec (renamed_items sd) m) as [Hun | Hread].
  - rewrite (load_model_unreadable m sd Hnd Hun). cbn [returned module_after].
    split; [right; reflexivity |].
    split; [reflexivity |].
    split; [intros Hread; contradiction |].
    intros path name p' Hat.
    apply (load_params_either (metadata sd) (renamed_items sd) m "" no_lists). exact Hat.
  - rewrite (load_model_readable m sd Hnd Hread). cbn [returned module_after].
    set (loaded := quiet_load (renamed_items sd) m "" no_lists).
    split; [| split; [| split]].
    + destruct (0 <? List.length (error_msgs (snd loaded)))%nat; auto.
    + intros Hc. apply shape_conflict_cases in Hc.
      destruct Hc as [Ho | Hun]; [| contradiction].
      apply load_errors_iff_other_shape in Ho. fold loaded in Ho.
      destruct (error_msgs (snd loaded)); [congruence | reflexivity].
    + intros _ path name p'. unfold loaded. rewrite quiet_params. reflexivity.
    + intros path name p' Hat. unfold loaded in Hat. rewrite quiet_params in Hat.
      destruct Hat as (p & Hat & ->). exists p. auto.
Qed.

End LoadModel.

(** *** load_model on examples *)

(** C7 on [small_tree] and [legacy_checkpoint]: "LayerNorm.gamma" ends in the
    parameter "weight" of the child "LayerNorm" and "LayerNorm.beta" in its
    "bias"; the load returns the module; the parameter without entry and the
    unknown key are printed. *)
Lemma legacy_names_are_remapped_witness :
  param_at (module_after (load_model small_tree legacy_checkpoint))
    ["LayerNorm"] "weight" (weight [1%nat] [2%float]) /\
  param_at (module_after (load_model small_tree legacy_checkpoint))
    ["LayerNorm"] "bias" (weight [1%nat] [3%float]) /\
  returned (load_model small_tree legacy_checkpoint) =
    Ok (module_after (load_model small_tree legacy_checkpoint)) /\
  In Weights_loaded (printed (load_model small_tree legacy_checkpoint)) /\
  (exists ks, In (Weights_not_initialized ks)
                 (printed (load_model small_tree legacy_checkpoint)) /\
              In "scale" ks) /\
  (exists ks, In (Weights_not_used ks)
                 (printed (load_model small_tree legacy_checkpoint)) /\
              In "pooler.dense" ks).
Proof.
  assert (Hnd : NoDup (keys (items legacy_checkpoint))).
  { repeat constructor; simpl; intuition discriminate. }
  destruct (legacy_names_are_remapped small_tree legacy_checkpoint Hnd)
    as (Hassign & Hwarn).
  assert (Hread : ~ unreadable_entry
                      (items (state_dict_after (load_model small_tree legacy_checkpoint)))
                      small_tree).
  { apply no_unreadable_entry. vm_compute. reflexivity. }
  specialize (Hassign Hread).
  split; [| split].
  - apply (Hassign "LayerNorm.gamma" "LayerNorm.weight" (weight [1%nat] [2%float])
             ["LayerNorm"] "weight" (weight [1%nat] [1%float])).
    + reflexivity.
    + left. repeat split.
    + intros j j' Hin Hj Hnew. simpl in Hin.
      destruct Hin as [<- | [<- | [<- | []]]]; try congruence;
        vm_compute in Hnew; try discriminate Hnew;
        injection Hnew as <-; repeat split; discriminate.
    + econstructor; [left; reflexivity |]. constructor. left. reflexivity.
    + reflexivity.
    + reflexivity.
  - apply (Hassign "LayerNorm.beta" "LayerNorm.bias" (weight [1%nat] [3%float])
             ["LayerNorm"] "bias" (weight [1%nat] [0%float])).
    + reflexivity.
    + right. repeat split.
    + intros j j' Hin Hj Hnew. simpl in Hin.
      destruct Hin as [<- | [<- | [<- | []]]]; try congruence;
        vm_compute in Hnew; try discriminate Hnew;
        injection Hnew as <-; repeat split; discriminate.
    + econstructor; [left; reflexivity |]. constructor. right. left. reflexivity.
    + reflexivity.
    + reflexivity.
  - destruct Hwarn as (Hret & Hloaded & Hmissing & Hunexpected).
    { apply shapes_agree_all. vm_compute. reflexivity. }
    split; [exact Hret |]. split; [exact Hloaded |]. split.
    + apply (Hmissing [] "scale" (weight [1%nat] [1%float])).
      * constructor. left. reflexivity.
      * reflexivity.
    + apply (Hunexpected "pooler.dense").
      * vm_compute. auto.
      * reflexivity.
      * reflexivity.
Defined.

(** C7 as stated fails: the key "gamma_beta" contains 'gamma', the target has
    the parameter "weight_beta" of its shape, the load succeeds, and that
    parameter keeps its value while "gamma_bias" receives the entry. *)
Lemma gamma_and_beta_key_counterexample :
  contains "gamma" "gamma_beta" = true /\
  replace "gamma" "weight" "gamma_beta" = "weight_beta" /\
  get "gamma_beta" (items gamma_beta_checkpoint) = Some (weight [1%nat] [7%float]) /\
  returned (load_model two_names_target gamma_beta_checkpoint) =
    Ok (mkModule [("weight_beta", weight [1%nat] [0%float]);
                  ("gamma_bias", weight [1%nat] [7%float])] []) /\
  ~ param_at (module_after (load_model two_names_target gamma_beta_checkpoint))
      [] "weight_beta" (weight [1%nat] [7%float]).
Proof.
  repeat split.
  intros Hat. vm_compute in Hat.
  inversion Hat as [? ? ? ? Hin |]; subst. clear Hat.
  destruct Hin as [E | [E | []]].
  - apply (f_equal (fun e => match p_data (snd e) with
                             | x :: _ => PrimFloat.eqb x 7
                             | [] => false
                             end)) in E.
    vm_compute in E. discriminate E.
  - discriminate E.
Qed.

(** An empty entry for a 0-dimensional parameter ends the load where it is
    read: on [scalar_target] and [empty_entry_checkpoint] the load raises,
    "bias", which comes before "scale", holds the entry "beta", and
    "weight", which comes after, has not received the entry "gamma" although
    the shapes agree. *)
Lemma empty_entry_stops_the_load :
  unreadable_entry
    (items (state_dict_after (load_model scalar_target empty_entry_checkpoint)))
    scalar_target /\
  get "gamma" (items empty_entry_checkpoint) = Some (weight [1%nat] [2%float]) /\
  returned (load_model scalar_target empty_entry_checkpoint) = Raise RuntimeError /\
  printed (load_model scalar_target empty_entry_checkpoint) = [] /\
  parameters (module_after (load_model scalar_target empty_entry_checkpoint)) =
    [("bias", weight [1%nat] [3%float]);
     ("scale", weight [] [1%float]);
     ("weight", weight [1%nat] [0%float])].
Proof.
  split; [| repeat split].
  exists [], "scale", (weight [] [1%float]), (weight [0%nat] []).
  split; [constructor; right; left; reflexivity |].
  split; [reflexivity | split; reflexivity].
Qed.

(** C8 on a layer with parameters "weight" and "bias" of shape [1] and
    [mismatched_checkpoint]: the load raises RuntimeError and "weight" holds
    the checkpoint's data; on [scalar_target] and [one_dim_checkpoint]: the
    0-dimensional "scale" holds the first element of its 1-D entry; and on
    [scalar_target] and [empty_entry_checkpoint]: the load raises
    RuntimeError. *)
Lemma load_fails_with_RuntimeError_and_keeps_assignments_witness :
  returned (load_model (layer_norm 1 0) mismatched_checkpoint) = Raise RuntimeError /\
  param_at (module_after (load_model (layer_norm 1 0) mismatched_checkpoint))
    [] "weight" (weight [1%nat] [2%float]) /\
  param_at (module_after (load_model (layer_norm 1 0) mismatched_checkpoint))
    [] "bias" (weight [1%nat] [0%float]) /\
  param_at (module_after (load_model scalar_target one_dim_checkpoint))
    [] "scale" (weight [] [5%float]) /\
  returned (load_model scalar_target empty_entry_checkpoint) = Raise RuntimeError.
Proof.
  assert (Hnd : NoDup (keys (items mismatched_checkpoint))).
  { repeat constructor; simpl; intuition discriminate. }
  assert (Hnd1 : NoDup (keys (items one_dim_checkpoint))).
  { repeat constructor; simpl; intuition discriminate. }
  assert (Hnd2 : NoDup (keys (items empty_entry_checkpoint))).
  { repeat constructor; simpl; intuition discriminate. }
  destruct (load_fails_with_RuntimeError_and_keeps_assignments
              (layer_norm 1 0) mismatched_checkpoint Hnd)
    as (_ & Hraise & Hparams & _).
  destruct (load_fails_with_RuntimeError_and_keeps_assignments
              scalar_target one_dim_checkpoint Hnd1)
    as (_ & _ & Hparams1 & _).
  destruct (load_fails_with_RuntimeError_and_keeps_assignments
              scalar_target empty_entry_checkpoint Hnd2)
    as (_ & Hraise2 & _).
  assert (Hread : ~ unreadable_entry
                      (items (state_dict_after
                                (load_model (layer_norm 1 0) mismatched_checkpoint)))
                      (layer_norm 1 0)).
  { apply no_unreadable_entry. vm_compute. reflexivity. }
  assert (Hread1 : ~ unreadable_entry
                       (items (state_dict_after
                                 (load_model scalar_target one_dim_checkpoint)))
                       scalar_target).
  { apply no_unreadable_entry. vm_compute. reflexivity. }
  split; [| split; [| split; [| split]]].
  - apply Hraise.
    exists [], "bias", (weight [1%nat] [0%float]), (weight [2%nat] [3%float; 3%float]).
    split; [constructor; right; left; reflexivity |].
    split; [reflexivity |].
    intros [E | (E & _)]; discriminate E.
  - apply (Hparams Hread). exists (weight [1%nat] [1%float]).
    split; [constructor; left; reflexivity | reflexivity].
  - apply (Hparams Hread). exists (weight [1%nat] [0%float]).
    split; [constructor; right; left; reflexivity | reflexivity].
  - apply (Hparams1 Hread1). exists (weight [] [1%float]).
    split; [constructor; right; left; reflexivity | reflexivity].
  - apply Hraise2.
    exists [], "scale", (weight [] [1%float]), (weight [0%nat] []).
    split; [constructor; right; left; reflexivity |].
    split; [reflexivity |].
    intros [E | (_ & n & E)]; discriminate E.
Defined.

(** C8 as stated fails: a load that raises has already overwritten "weight";
    the target tree is not what it was before the call. *)
Lemma failed_load_is_not_rolled_back_counterexample :
  returned (load_model (layer_norm 1 0) mismatched_checkpoint) = Raise RuntimeError /\
  parameters (layer_norm 1 0) =
    [("weight", weight [1%nat] [1%float]); ("bias", weight [1%nat] [0%float])] /\
  parameters (module_after (load_model (layer_norm 1 0) mismatched_checkpoint)) =
    [("weight", weight [1%nat] [2%float]); ("bias", weight [1%nat] [0%float])] /\
  module_after (load_model (layer_norm 1 0) mismatched_checkpoint) <> layer_norm 1 0.
Proof.
  repeat split.
  intros E.
  apply (f_equal (fun m => match parameters m with
                           | (_, w) :: _ =>
                               match p_data w with
                               | x :: _ => PrimFloat.eqb x 1
                               | [] => false
                               end
                           | [] => false
                           end)) in E.
  vm_compute in E. discriminate E.
Qed.

(** ** Further properties of construction *)

Section ConstructionFacts.
Context {A : Type} `{Scalar A} `{Backend A}.

(** X1.  With both encoders (lines 118-124): under 'concat' the width of the fused
    code is the sum of the two encoders' [out_dim]; under 'add' it is their
    common [out_dim], and different [out_dim]s fail the assertion. *)
Theorem code_dim_of_two_encoders (config : Cfg.t) (p : PE.t A) (s : SE.t A) :
  Cfg.phone_dim config <> 0 ->
  Cfg.speaker_dim config <> 0 ->
  (Cfg.combine config = "concat" ->
   D.code_dim config (Some p) (Some s) = Ok (PE.out_dim p + SE.out_dim s)) /\
  (Cfg.combine config = "add" -> PE.out_dim p = SE.out_dim s ->
   D.code_dim config (Some p) (Some s) = Ok (PE.out_dim p)) /\
  (Cfg.combine config = "add" -> PE.out_dim p <> SE.out_dim s ->
   D.code_dim config (Some p) (Some s) = Raise AssertionError).
Proof.
  intros Hp Hs. unfold D.code_dim.
  apply Z.eqb_neq in Hp, Hs. rewrite Hp, Hs. simpl.
  split; [| split].
  - intros ->. reflexivity.
  - intros -> E. simpl. apply Z.eqb_eq in E. rewrite E. reflexivity.
  - intros -> E. simpl. apply Z.eqb_neq in E. rewrite E. reflexivity.
Qed.

(** X2.  A model [__init__] returns has a phonetic encoder exactly when
    [phone_dim] is not zero and a speaker encoder exactly when [speaker_dim]
    is not zero, and at least one of the two. *)
Theorem encoders_follow_dims (config : Cfg.t) (input_dim : Z) (output_dim : option Z)
    (oa kmo : bool) (self : D.t A) :
  snd (D.__init__ config input_dim output_dim oa kmo) = Ok self ->
  (D.PhoneticTransformer self = None <-> Cfg.phone_dim config = 0) /\
  (D.SpeakerTransformer self = None <-> Cfg.speaker_dim config = 0) /\
  ~ (D.PhoneticTransformer self = None /\ D.SpeakerTransformer self = None).
Proof.
  intros Hinit. apply init_constructed in Hinit.
  destruct Hinit as [_ _ _ _ _ _ _ Csome Cp Cs _ _].
  assert (Hp : D.PhoneticTransformer self = None <-> Cfg.phone_dim config = 0).
  { destruct (Z.eqb_spec (Cfg.phone_dim config) 0) as [E | N].
    - tauto.
    - destruct Cp as (p0 & tm & _ & ->). split; [discriminate | contradiction]. }
  assert (Hs : D.SpeakerTransformer self = None <-> Cfg.speaker_dim config = 0).
  { destruct (Z.eqb_spec (Cfg.speaker_dim config) 0) as [E | N].
    - tauto.
    - destruct Cs as (s0 & tm & _ & ->). split; [discriminate | contradiction]. }
  split; [exact Hp |]. split; [exact Hs |]. tauto.
Qed.

End ConstructionFacts.

(** With out_dims 64 and 16, 'concat' gives 80. *)
Lemma code_dim_of_two_encoders_witness :
  exists p s,
    PE.__init__ (A := float) (config_of true "concat" "l2" 64 "gst" 16 false [])
      80 false false true = Ok p /\
    SE.__init__ (A := float) (config_of true "concat" "l2" 64 "gst" 16 false [])
      80 false false true = Ok s /\
    D.code_dim (config_of true "concat" "l2" 64 "gst" 16 false []) (Some p) (Some s)
    = Ok 80.
Proof.
  do 2 eexists. split; [reflexivity |]. split; [reflexivity |].
  assert (Hp : Cfg.phone_dim (config_of true "concat" "l2" 64 "gst" 16 false []) <> 0)
    by discriminate.
  assert (Hs : Cfg.speaker_dim (config_of true "concat" "l2" 64 "gst" 16 false []) <> 0)
    by discriminate.
  exact (proj1 (code_dim_of_two_encoders
                  (config_of true "concat" "l2" 64 "gst" 16 false []) _ _ Hp Hs)
               eq_refl).
Defined.

(** A model with only the speaker encoder. *)
Lemma encoders_follow_dims_witness :
  exists self,
    snd (D.__init__ (A := float) (config_of true "concat" "l2" 0 "gst" 16 false [])
           80 None false false) = Ok self /\
    D.PhoneticTransformer self = None /\
    D.SpeakerTransformer self <> None.
Proof.
  let r := eval vm_compute in
    (snd (D.__init__ (A := float) (config_of true "concat" "l2" 0 "gst" 16 false [])
            80 None false false)) in
  match r with Ok ?m => exists m end.
  match goal with
  | |- ?I = Ok ?m /\ _ => assert (Hinit : I = Ok m) by (vm_compute; reflexivity)
  end.
  split; [exact Hinit |].
  destruct (encoders_follow_dims _ _ _ _ _ _ Hinit) as (Hp & Hs & _).
  split.
  - apply Hp. reflexivity.
  - intros E. apply Hs in E. discriminate E.
Defined.

(** ** Further properties of weight loading *)

(** *** The renaming loop and the caller's dictionary *)

Section DictNoDup.
Context {V : Type}.

Lemma set_NoDup (k : string) (v : V) (d : dict V) :
  NoDup (keys d) -> NoDup (keys (set k v d)).
Proof.
  induction d as [| [j w] d IH]; simpl; intros Hnd.
  - constructor; [intros [] | constructor].
  - inversion Hnd as [| ? ? Hnotin Hnd']; subst.
    destruct (String.eqb_spec k j) as [-> | Hkj]; simpl.
    + constructor; assumption.
    + constructor; [| apply IH; exact Hnd'].
      intros Hin. apply get_in_keys in Hin. rewrite get_set in Hin.
      destruct (String.eqb_spec j k) as [E | _]; [congruence |].
      apply Hnotin. apply get_in_keys. exact Hin.
Qed.

Lemma pop_NoDup (k : string) (d : dict V) :
  NoDup (keys d) ->
  match pop k d with
  | Some (v, d') => NoDup (keys d') /\ get k d' = None
  | None => True
  end.
Proof.
  induction d as [| [j w] d IH]; simpl; intros Hnd; [exact I |].
  inversion Hnd as [| ? ? Hnotin Hnd']; subst.
  destruct (String.eqb_spec k j) as [-> | Hkj].
  - split; [exact Hnd' |].
    destruct (get j d) eqn:E; [| reflexivity].
    exfalso. apply Hnotin. apply get_in_keys. congruence.
  - specialize (IH Hnd'). pose proof (pop_spec k d) as Hpop.
    destruct (pop k d) as [[v d'] |]; [| exact I].
    destruct IH as (Hnd'' & Hnone). destruct Hpop as (_ & Hrest).
    split.
    + simpl. constructor; [| exact Hnd''].
      intros Hin. apply get_in_keys in Hin. rewrite Hrest in Hin by congruence.
      apply Hnotin. apply get_in_keys. exact Hin.
    + simpl. destruct (String.eqb_spec k j); [contradiction | exact Hnone].
Qed.

End DictNoDup.

Section RenameRemoves.
Context {A : Type}.

Implicit Types (d : dict (nn_Parameter A)) (ps : list (string * string)).

(** An old key is gone after the loop, when no pair writes it. *)
Lemma rename_all_removes (k : string) ps d :
  NoDup (keys d) ->
  NoDup (map fst ps) ->
  In k (map fst ps) ->
  (forall j, In j (map fst ps) -> get j d <> None) ->
  (forall j j', In (j, j') ps -> j' <> k) ->
  get k (snd (rename_all ps d)) = None.
Proof.
  revert d. induction ps as [| [j j'] ps IH]; intros d Hd Hnd Hin Hpresent Hwrite;
    simpl.
  - destruct Hin.
  - inversion Hnd as [| ? ? Hnotin Hnd']; subst.
    pose proof (pop_spec j d) as Hpop. pose proof (pop_NoDup j d Hd) as Hpop'.
    destruct (pop j d) as [[w d'] |].
    2:{ exfalso. apply (Hpresent j); [left; reflexivity | exact Hpop]. }
    destruct Hpop as (_ & Hrest). destruct Hpop' as (Hd' & Hgone).
    pose proof (Hwrite j j' (or_introl eq_refl)) as Hj'.
    assert (Hpresent' : forall j2, In j2 (map fst ps) -> get j2 (set j' w d') <> None).
    { intros j2 Hj2. rewrite get_set.
      destruct (j2 =? j')%string; [discriminate |].
      rewrite Hrest by (intros ->; contradiction).
      apply Hpresent. right. exact Hj2. }
    destruct (String.eqb_spec j k) as [-> | Hjk].
    + rewrite rename_all_keeps.
      * rewrite get_set. destruct (String.eqb_spec k j'); [congruence | exact Hgone].
      * intros j2 j2' Hin2. split.
        -- intros ->. apply Hnotin. apply in_map_iff. exists (k, j2'). auto.
        -- apply (Hwrite j2 j2'). right. exact Hin2.
    + apply IH.
      * apply set_NoDup. exact Hd'.
      * exact Hnd'.
      * destruct Hin as [E | Hin]; [simpl in E; congruence | exact Hin].
      * exact Hpresent'.
      * intros j2 j2' Hin2. apply (Hwrite j2 j2'). right. exact Hin2.
Qed.

End RenameRemoves.

(** *** The new name of a key *)

Lemma replace_from_differs (old new : string) :
  old <> "" ->
  (forall s r, String.prefix old s = true -> new ++ r <> s) ->
  forall s, contains old s = true -> replace_from old new 0 s <> s.
Proof.
  intros Hold Hprefix. induction s as [| c s IH]; intros Hc.
  - exfalso. destruct old; [congruence | discriminate Hc].
  - cbn [replace_from].
    destruct (String.prefix old (String c s)) eqn:Hp.
    + apply Hprefix. exact Hp.
    + cbn [contains] in Hc. rewrite Hp in Hc. simpl in Hc.
      intros E. injection E as E. exact (IH Hc E).
Qed.

Lemma replace_gamma_differs (s : string) :
  contains "gamma" s = true -> replace "gamma" "weight" s <> s.
Proof.
  apply replace_from_differs; [discriminate |].
  intros [| c t] r Hp; [discriminate Hp |].
  cbn [String.prefix] in Hp.
  destruct (Ascii.ascii_dec "g" c) as [<- | _]; [| discriminate Hp].
  simpl. discriminate.
Qed.

Lemma replace_beta_differs (s : string) :
  contains "beta" s = true -> replace "beta" "bias" s <> s.
Proof.
  apply replace_from_differs; [discriminate |].
  intros [| c [| c' t]] r Hp; try discriminate Hp.
  - cbn [String.prefix] in Hp.
    destruct (Ascii.ascii_dec "b" c); discriminate Hp.
  - cbn [String.prefix] in Hp.
    destruct (Ascii.ascii_dec "b" c) as [<- | _]; [| discriminate Hp].
    destruct (Ascii.ascii_dec "e" c') as [<- | _]; [| discriminate Hp].
    simpl. discriminate.
Qed.

Lemma new_key_of_cases (k k' : string) :
  new_key_of k = Some k' ->
  (contains "beta" k = true /\ k' = replace "beta" "bias" k) \/
  (contains "gamma" k = true /\ contains "beta" k = false /\
   k' = replace "gamma" "weight" k).
Proof.
  unfold new_key_of. intros E.
  destruct (contains "beta" k).
  - left. split; [reflexivity | congruence].
  - destruct (contains "gamma" k); [| discriminate E].
    right. repeat split. congruence.
Qed.

Lemma new_key_of_none (k : string) :
  new_key_of k = None <-> contains "gamma" k = false /\ contains "beta" k = false.
Proof.
  unfold new_key_of.
  destruct (contains "beta" k), (contains "gamma" k); split;
    try (intros (? & ?)); intros; try discriminate; auto.
Qed.

Lemma new_key_of_nonempty (k k' : string) : new_key_of k = Some k' -> k' <> "".
Proof.
  intros E. destruct (new_key_of_cases k k' E) as [(Hb & ->) | (Hg & _ & ->)].
  - apply replace_nonempty; [| discriminate].
    apply (contains_nonempty "beta"); [discriminate | exact Hb].
  - apply replace_nonempty; [| discriminate].
    apply (contains_nonempty "gamma"); [discriminate | exact Hg].
Qed.

Lemma new_key_of_differs (k k' : string) : new_key_of k = Some k' -> k' <> k.
Proof.
  intros E. destruct (new_key_of_cases k k' E) as [(Hb & ->) | (Hg & _ & ->)].
  - apply replace_beta_differs. exact Hb.
  - apply replace_gamma_differs. exact Hg.
Qed.

Lemma no_legacy_pairs (ks : list string) :
  (forall k, In k ks -> new_key_of k = None) -> flat_map legacy_pair ks = [].
Proof.
  induction ks as [| k ks IH]; intros Hnone; [reflexivity |].
  simpl. unfold legacy_pair at 1. rewrite (Hnone k (or_introl eq_refl)).
  apply IH. intros j Hj. apply Hnone. right. exact Hj.
Qed.

(** *** load_model, field by field *)

Section LoadModelFacts.
Context {A : Type}.

Implicit Types (m : nn_Module A) (sd : StateDict A).

Lemma returned_module m sd m' :
  returned (load_model m sd) = Ok m' -> m' = module_after (load_model m sd).
Proof.
  destruct (fst (rename_all (flat_map legacy_pair (keys (items sd))) (items sd)))
    as [[] | e0] eqn:Hr.
  - rewrite (load_model_loaded m sd Hr).
    destruct (load (metadata sd) (renamed_items sd) m "" no_lists) as [[m1 l] [e |]];
      cbn [returned module_after]; [discriminate |].
    destruct (0 <? List.length (error_msgs l))%nat; [discriminate | congruence].
  - rewrite (load_model_raised m sd e0 Hr). discriminate.
Qed.

(** X3.  [load_model] on a state dict with distinct keys (lines 321-349)
    raises exactly when some parameter of the target has an entry in the
    renamed checkpoint that does not fit it (an entry of another shape,
    where a 1-D entry with elements fits a 0-dimensional parameter), and
    returns the target exactly when there is none: parameters without an
    entry and checkpoint keys the target does not know never make the load
    fail. *)
Theorem load_fails_exactly_on_shape_conflict m sd :
  NoDup (keys (items sd)) ->
  (returned (load_model m sd) = Raise RuntimeError <->
   shape_conflict (items (state_dict_after (load_model m sd))) m) /\
  (returned (load_model m sd) = Ok (module_after (load_model m sd)) <->
   ~ shape_conflict (items (state_dict_after (load_model m sd))) m).
Proof.
  intros Hnd. rewrite (state_dict_after_renamed m sd Hnd). cbn [items].
  rewrite shape_conflict_cases.
  destruct (unreadable_entry_dec (renamed_items sd) m) as [Hun | Hread].
  - rewrite (load_model_unreadable m sd Hnd Hun). cbn [returned module_after].
    split; split; try discriminate; auto.
    intros Hno. exfalso. apply Hno. right. exact Hun.
  - rewrite (load_model_readable m sd Hnd Hread). cbn [returned module_after].
    rewrite <- load_errors_iff_other_shape.
    destruct (error_msgs (snd (quiet_load (renamed_items sd) m "" no_lists)))
      as [| e es]; simpl.
    + split; split; try discriminate; try congruence; auto.
      * intros [X | X]; [congruence | contradiction].
      * intros _ [X | X]; [congruence | contradiction].
    + split; split; try discriminate; auto.
      * intros _. left. discriminate.
      * intros Hno. exfalso. apply Hno. left. discriminate.
Qed.

(** X4.  Whatever the state dict (lines 306-352): [load_model] raises
    nothing but RuntimeError, what it returns is the target module it was
    given, loaded, and it prints that the weights were loaded exactly when
    it returns. *)
Theorem loaded_message_exactly_on_return m sd :
  (forall e, returned (load_model m sd) = Raise e -> e = RuntimeError) /\
  (forall m', returned (load_model m sd) = Ok m' ->
     m' = module_after (load_model m sd)) /\
  (In Weights_loaded (printed (load_model m sd)) <->
   exists m', returned (load_model m sd) = Ok m').
Proof.
  destruct (fst (rename_all (flat_map legacy_pair (keys (items sd))) (items sd)))
    as [[] | e0] eqn:Hr.
  - rewrite (load_model_loaded m sd Hr).
    destruct (load (metadata sd) (renamed_items sd) m "" no_lists) as [[m1 l] [e1 |]];
      cbn [returned module_after printed].
    + split; [intros e E; congruence |]. split; [discriminate |]. split.
      * intros [].
      * intros (m' & E). discriminate E.
    + destruct (0 <? List.length (error_msgs l))%nat.
      * split; [intros e E; congruence |]. split; [discriminate |].
        rewrite app_nil_r. split.
        -- intros Hin. exfalso. exact (loaded_not_in_warnings _ Hin).
        -- intros (m' & E). discriminate E.
      * split; [discriminate |]. split; [congruence |]. split.
        -- intros _. eexists. reflexivity.
        -- intros _. apply in_or_app. right. left. reflexivity.
  - rewrite (load_model_raised m sd e0 Hr). cbn [returned module_after printed].
    split; [intros e E; congruence |]. split; [discriminate |]. split.
    + intros [].
    + intros (m' & E). discriminate E.
Qed.

(** X5.  The warnings of a load with distinct keys (lines 339-344): a list
    of weights "not initialized" is printed only when it is not empty, and
    it names exactly the target's parameters that have no entry in the
    renamed checkpoint; a list of weights "not used" is printed only when it
    is not empty, and names keys of the renamed checkpoint only. *)
Theorem warnings_name_what_was_not_loaded m sd :
  NoDup (keys (items sd)) ->
  (forall ks, In (Weights_not_initialized ks) (printed (load_model m sd)) ->
     ks <> [] /\
     forall key, In key ks <->
       exists path name p,
         param_at m path name p /\ key = key_of path name /\
         get key (items (state_dict_after (load_model m sd))) = None) /\
  (forall ks, In (Weights_not_used ks) (printed (load_model m sd)) ->
     ks <> [] /\
     forall key, In key ks ->
       In key (keys (items (state_dict_after (load_model m sd))))).
Proof.
  intros Hnd. rewrite (state_dict_after_renamed m sd Hnd). cbn [items].
  destruct (unreadable_entry_dec (renamed_items sd) m) as [Hun | Hread].
  { rewrite (load_model_unreadable m sd Hnd Hun). cbn [printed].
    split; intros ks []. }
  rewrite (load_model_readable m sd Hnd Hread). cbn [printed].
  set (l := snd (quiet_load (renamed_items sd) m "" no_lists)).
  assert (Hin : forall msg, msg <> Weights_loaded ->
                  In msg (warnings l ++
                          if (0 <? List.length (error_msgs l))%nat
                          then [] else [Weights_loaded]) ->
                  In msg (warnings l)).
  { intros msg Hmsg Hin. apply in_app_or in Hin. destruct Hin as [Hin | Hin]; [exact Hin |].
    destruct (0 <? List.length (error_msgs l))%nat; [destruct Hin |].
    destruct Hin as [E | []]. congruence. }
  destruct (quiet_exact (renamed_items sd) m "" no_lists)
    as (Hmiss & _ & Hun).
  destruct (quiet_lists (renamed_items sd) m "" no_lists)
    as (_ & Hmissing & _).
  fold l in Hmiss, Hun, Hmissing.
  split; intros ks Hks; apply Hin in Hks; try discriminate.
  - apply in_warnings_missing in Hks. destruct Hks as (-> & Hne).
    split; [exact Hne |]. intros key. split.
    + intros Hkey.
      destruct (Hmiss key Hkey) as [[] | (path & name & p & Hat & -> & Hget)].
      exists path, name, p. auto.
    + intros (path & name & p & Hat & -> & Hget).
      apply (Hmissing path name p Hat). exact Hget.
  - apply in_warnings_unexpected in Hks. destruct Hks as (-> & Hne).
    split; [exact Hne |]. intros key Hkey.
    destruct (Hun key Hkey) as [[] | Hk]. exact Hk.
Qed.

(** X6.  The caller's state dict after [load_model] (lines 307-319, distinct
    keys): an entry under a key with a legacy component is found under the
    key's new name and no longer under the old one, provided no other
    renamed key is the new name or is renamed to the old or the new name; a
    key that no renamed key is, or is renamed to, keeps what it had; the
    metadata is untouched; and a state dict without legacy names is left as
    it was. *)
Theorem caller_state_dict_is_renamed_in_place m sd :
  NoDup (keys (items sd)) ->
  metadata (state_dict_after (load_model m sd)) = metadata sd /\
  (forall k k' v,
     get k (items sd) = Some v ->
     new_key_of k = Some k' ->
     (forall j j', In j (keys (items sd)) -> j <> k -> new_key_of j = Some j' ->
        j <> k' /\ j' <> k /\ j' <> k') ->
     get k (items (state_dict_after (load_model m sd))) = None /\
     get k' (items (state_dict_after (load_model m sd))) = Some v) /\
  (forall k,
     (forall j j', In j (keys (items sd)) -> new_key_of j = Some j' ->
        j <> k /\ j' <> k) ->
     get k (items (state_dict_after (load_model m sd))) = get k (items sd)) /\
  ((forall j, In j (keys (items sd)) -> new_key_of j = None) ->
   state_dict_after (load_model m sd) = sd).
Proof.
  intros Hnd. rewrite (state_dict_after_renamed m sd Hnd).
  cbn [items metadata].
  split; [reflexivity |]. split; [| split].
  - intros k k' v Hget Hnew Hother.
    assert (Hin : In k (keys (items sd))) by (apply get_in_keys; congruence).
    split.
    + unfold renamed_items. apply rename_all_removes.
      * exact Hnd.
      * apply legacy_pairs_NoDup. exact Hnd.
      * apply in_map_iff. exists (k, k'). split; [reflexivity |].
        apply in_legacy_pairs. repeat split; auto.
        apply (new_key_of_nonempty k). exact Hnew.
      * intros j Hj. apply legacy_pairs_fst_in in Hj. apply get_in_keys. exact Hj.
      * intros j j' Hpair. apply in_legacy_pairs in Hpair.
        destruct Hpair as (Hj & Hj' & _).
        destruct (String.eqb_spec j k) as [-> | Hjk].
        -- apply (new_key_of_differs k). exact Hj'.
        -- destruct (Hother j j' Hj Hjk Hj'); tauto.
    + apply (renamed_items_moves sd k k' v Hnd Hget Hnew).
      * apply (new_key_of_nonempty k). exact Hnew.
      * exact Hother.
  - intros k Hother. unfold renamed_items. apply rename_all_keeps.
    intros j j' Hpair. apply in_legacy_pairs in Hpair.
    destruct Hpair as (Hj & Hj' & _). apply (Hother j j'); assumption.
  - intros Hnone. unfold renamed_items. rewrite (no_legacy_pairs _ Hnone).
    destruct sd; reflexivity.
Qed.

(** X7.  Loading twice (lines 305-352).  After a load from a state dict with
    distinct keys, when no key of the state dict as the first call left it
    has a legacy component, a second call with the loaded module and that
    state dict changes neither and has the outcome of the first: the same
    module, the same lines printed, the same RuntimeError when the first
    call raised. *)
Theorem second_load_changes_nothing m sd :
  NoDup (keys (items sd)) ->
  (forall k, In k (keys (items (state_dict_after (load_model m sd)))) ->
     new_key_of k = None) ->
  load_model (module_after (load_model m sd)) (state_dict_after (load_model m sd)) =
  load_model m sd.
Proof.
  intros Hnd. rewrite (state_dict_after_renamed m sd Hnd). cbn [items]. intros Hnone.
  set (sd1 := {| items := renamed_items sd; metadata := metadata sd |}).
  assert (Hpairs : flat_map legacy_pair (keys (items sd1)) = [])
    by (apply no_legacy_pairs; exact Hnone).
  assert (Hits : renamed_items sd1 = renamed_items sd)
    by (unfold renamed_items at 1; rewrite Hpairs; reflexivity).
  rewrite (load_model_loaded (module_after (load_model m sd)) sd1)
    by (rewrite Hpairs; reflexivity).
  rewrite Hits. cbn [metadata sd1].
  rewrite (load_model_loaded m sd (rename_distinct_keys sd Hnd)).
  destruct (load (metadata sd) (renamed_items sd) m "" no_lists) as [[m' l] r] eqn:El.
  assert (Hm : module_after
                 match r with
                 | Some _ =>
                     {| returned := Raise RuntimeError;
                        module_after := m';
                        state_dict_after := sd1;
                        printed := [] |}
                 | None =>
                     {| returned := if (0 <? List.length (error_msgs l))%nat
                                    then Raise RuntimeError else Ok m';
                        module_after := m';
                        state_dict_after := sd1;
                        printed := (warnings l ++
                                    if (0 <? List.length (error_msgs l))%nat
                                    then [] else [Weights_loaded])%list |}
                 end = m')
    by (destruct r; reflexivity).
  fold sd1. rewrite Hm.
  rewrite (load_twice (metadata sd) (renamed_items sd) m "" no_lists m' l r El).
  reflexivity.
Qed.

End LoadModelFacts.

(** X3 on [mismatched_checkpoint], whose "bias" has two elements for a
    parameter of one; on [legacy_checkpoint], which has no conflict with
    [small_tree]; on [one_dim_checkpoint], whose 1-D "scale" fits the
    0-dimensional parameter of [scalar_target]; and on
    [empty_entry_checkpoint], whose empty "scale" does not. *)
Lemma load_fails_exactly_on_shape_conflict_witness :
  returned (load_model (layer_norm 1 0) mismatched_checkpoint) = Raise RuntimeError /\
  ~ shape_conflict (items (state_dict_after (load_model small_tree legacy_checkpoint)))
      small_tree /\
  ~ shape_conflict (items (state_dict_after (load_model scalar_target one_dim_checkpoint)))
      scalar_target /\
  returned (load_model scalar_target empty_entry_checkpoint) = Raise RuntimeError.
Proof.
  split; [| split; [| split]].
  - assert (Hnd : NoDup (keys (items mismatched_checkpoint))).
    { repeat constructor; simpl; intuition discriminate. }
    apply (load_fails_exactly_on_shape_conflict (layer_norm 1 0)
             mismatched_checkpoint Hnd).
    exists [], "bias", (weight [1%nat] [0%float]), (weight [2%nat] [3%float; 3%float]).
    split; [constructor; right; left; reflexivity |].
    split; [reflexivity |].
    intros [E | (E & _)]; discriminate E.
  - assert (Hnd : NoDup (keys (items legacy_checkpoint))).
    { repeat constructor; simpl; intuition discriminate. }
    apply (load_fails_exactly_on_shape_conflict small_tree legacy_checkpoint Hnd).
    reflexivity.
  - assert (Hnd : NoDup (keys (items one_dim_checkpoint))).
    { repeat constructor; simpl; intuition discriminate. }
    apply (load_fails_exactly_on_shape_conflict scalar_target one_dim_checkpoint Hnd).
    reflexivity.
  - assert (Hnd : NoDup (keys (items empty_entry_checkpoint))).
    { repeat constructor; simpl; intuition discriminate. }
    apply (load_fails_exactly_on_shape_conflict scalar_target
             empty_entry_checkpoint Hnd).
    exists [], "scale", (weight [] [1%float]), (weight [0%nat] []).
    split; [constructor; right; left; reflexivity |].
    split; [reflexivity |].
    intros [E | (_ & n & E)]; discriminate E.
Defined.

(** X5 on [small_tree] and [legacy_checkpoint]: the missing keys printed are
    "scale" alone, the unused keys are keys of the checkpoint. *)
Lemma warnings_name_what_was_not_loaded_witness :
  In (Weights_not_initialized ["scale"])
     (printed (load_model small_tree legacy_checkpoint)) /\
  (forall key, In key ["scale"] <->
     exists path name p,
       param_at small_tree path name p /\ key = key_of path name /\
       get key (items (state_dict_after (load_model small_tree legacy_checkpoint)))
       = None).
Proof.
  assert (Hnd : NoDup (keys (items legacy_checkpoint))).
  { repeat constructor; simpl; intuition discriminate. }
  assert (Hin : In (Weights_not_initialized ["scale"])
                   (printed (load_model small_tree legacy_checkpoint))).
  { vm_compute. left. reflexivity. }
  split; [exact Hin |].
  destruct (warnings_name_what_was_not_loaded small_tree legacy_checkpoint Hnd)
    as (Hmissing & _).
  exact (proj2 (Hmissing ["scale"] Hin)).
Defined.

(** X6 on [legacy_checkpoint]: "LayerNorm.gamma" is gone from the caller's
    dictionary, its tensor is under "LayerNorm.weight", and "pooler.dense"
    has kept its own. *)
Lemma caller_state_dict_is_renamed_in_place_witness :
  get "LayerNorm.gamma"
    (items (state_dict_after (load_model small_tree legacy_checkpoint))) = None /\
  get "LayerNorm.weight"
    (items (state_dict_after (load_model small_tree legacy_checkpoint)))
  = Some (weight [1%nat] [2%float]) /\
  get "pooler.dense"
    (items (state_dict_after (load_model small_tree legacy_checkpoint)))
  = Some (weight [1%nat] [4%float]).
Proof.
  assert (Hnd : NoDup (keys (items legacy_checkpoint))).
  { repeat constructor; simpl; intuition discriminate. }
  destruct (caller_state_dict_is_renamed_in_place small_tree legacy_checkpoint Hnd)
    as (_ & Hmoved & Hkept & _).
  destruct (Hmoved "LayerNorm.gamma" "LayerNorm.weight" (weight [1%nat] [2%float]))
    as (Hgone & Hnew).
  - reflexivity.
  - reflexivity.
  - intros j j' Hin Hj Hnew. simpl in Hin.
    destruct Hin as [<- | [<- | [<- | []]]]; try congruence;
      vm_compute in Hnew; try discriminate Hnew;
      injection Hnew as <-; repeat split; discriminate.
  - split; [exact Hgone |]. split; [exact Hnew |].
    rewrite (Hkept "pooler.dense"); [reflexivity |].
    intros j j' Hin Hnew'. simpl in Hin.
    destruct Hin as [<- | [<- | [<- | []]]];
      vm_compute in Hnew'; try discriminate Hnew';
      injection Hnew' as <-; split; discriminate.
Defined.

(** X7 on [small_tree] and [legacy_checkpoint]: the first call renames the
    two legacy keys, the second finds none. *)
Lemma second_load_changes_nothing_witness :
  load_model (module_after (load_model small_tree legacy_checkpoint))
    (state_dict_after (load_model small_tree legacy_checkpoint)) =
  load_model small_tree legacy_checkpoint.
Proof.
  assert (Hnd : NoDup (keys (items legacy_checkpoint))).
  { repeat constructor; simpl; intuition discriminate. }
  apply (second_load_changes_nothing small_tree legacy_checkpoint Hnd).
  intros k Hin. vm_compute in Hin.
  destruct Hin as [<- | [<- | [<- | []]]]; reflexivity.
Defined.

(** ** Further properties of construction: the encoders' constructors, the
    decoder and the pre-trained weights *)

Section EncoderConstructors.
Context {A : Type} `{Scalar A} `{Backend A}.

Lemma phonetic_init_transformer (config : Cfg.t) input_dim oa kmo wr (p : PE.t A) :
  PE.__init__ config input_dim oa kmo wr = Ok p ->
  PE.Transformer p =
    set_tm_module (TransformerModel_init config input_dim oa kmo None)
      (init_Transformer_weights (TransformerModel_new config input_dim None)) /\
  PE.output_attentions p = oa.
Proof.
  unfold PE.__init__. intros Hi. split_bind Hi.
  match type of Hi with
  | (let '(_, _) := ?x in _) = _ => destruct x as [r w]
  end.
  split_bind Hi. injection Hi as <-. split; reflexivity.
Qed.

Lemma speaker_init_transformer (config : Cfg.t) input_dim oa kmo wr (s : SE.t A) :
  SE.__init__ config input_dim oa kmo wr = Ok s ->
  SE.Transformer s =
    set_tm_module (TransformerModel_init config input_dim oa kmo None)
      (init_Transformer_weights (TransformerModel_new config input_dim None)) /\
  SE.output_attentions s = oa /\
  SE.average_pooling s = Cfg.average_pooling config.
Proof.
  unfold SE.__init__. intros Hi. split_bind Hi.
  match type of Hi with
  | (let '(_, _) := ?x in _) = _ => destruct x as [r w]
  end.
  split_bind Hi. injection Hi as <-. repeat split; reflexivity.
Qed.

(** X8.  [TransformerPhoneticEncoder.__init__] (lines 213-232), whatever
    [with_recognizer] is passed: it raises NotImplementedError when a
    recognizer is asked for and the phone type is none of 'l2', 'gb', 'gst',
    'linear', 'none'; otherwise it returns an encoder that has a recognizer
    exactly when one was asked for and the phone type is not 'none', whose
    [out_dim] is [phone_dim] with a recognizer and [hidden_size] without, and
    whose transformer was built for [input_dim] and initialised. *)
Theorem phonetic_encoder_constructor (config : Cfg.t) (input_dim : Z)
    (oa kmo wr : bool) :
  (wr = true /\
   ~ In (Cfg.phone_type config) ["l2"; "gb"; "gst"; "linear"; "none"] ->
   PE.__init__ (A := A) config input_dim oa kmo wr = Raise NotImplementedError) /\
  (wr = false \/
   In (Cfg.phone_type config) ["l2"; "gb"; "gst"; "linear"; "none"] ->
   exists p,
     PE.__init__ config input_dim oa kmo wr = Ok p /\
     PE.with_recognizer p = wr && negb (Cfg.phone_type config =? "none")%string /\
     (PE.with_recognizer p = true ->
      exists r, PE.PhoneRecognizer p = Some r /\
                Recognizer_out_dim r = Cfg.phone_dim config /\
                PE.out_dim p = Cfg.phone_dim config) /\
     (PE.with_recognizer p = false ->
      PE.PhoneRecognizer p = None /\ PE.out_dim p = Cfg.hidden_size config) /\
     PE.output_attentions p = oa /\
     tm_input_dim (PE.Transformer p) = input_dim /\
     tm_module (PE.Transformer p) =
       init_Transformer_weights (TransformerModel_new config input_dim None)).
Proof.
  split.
  - intros (-> & Hnot). unfold PE.__init__.
    destruct (String.eqb_spec (Cfg.phone_type config) "l2") as [E | _];
      [exfalso; apply Hnot; rewrite E; simpl; tauto |].
    destruct (String.eqb_spec (Cfg.phone_type config) "gb") as [E | _];
      [exfalso; apply Hnot; rewrite E; simpl; tauto |].
    destruct (String.eqb_spec (Cfg.phone_type config) "gst") as [E | _];
      [exfalso; apply Hnot; rewrite E; simpl; tauto |].
    destruct (String.eqb_spec (Cfg.phone_type config) "linear") as [E | _];
      [exfalso; apply Hnot; rewrite E; simpl; tauto |].
    destruct (String.eqb_spec (Cfg.phone_type config) "none") as [E | _];
      [exfalso; apply Hnot; rewrite E; simpl; tauto |].
    reflexivity.
  - intros [-> | Hin].
    + unfold PE.__init__. rewrite !andb_false_r. simpl.
      eexists. split; [reflexivity |]. simpl.
      repeat split; try discriminate; reflexivity.
    + destruct wr.
      * unfold PE.__init__. simpl in Hin.
        destruct Hin as [E | [E | [E | [E | [E | []]]]]]; rewrite <- E; simpl;
          (eexists; split; [reflexivity |]); simpl;
          (split; [reflexivity |]);
          (split; [first [discriminate | intros _; eexists; repeat split] |]);
          (split; [first [discriminate | intros _; split; reflexivity] |]);
          repeat split.
      * unfold PE.__init__. rewrite !andb_false_r. simpl.
        eexists. split; [reflexivity |]. simpl.
        repeat split; try discriminate; reflexivity.
Qed.

(** X9.  [TransformerSpeakerEncoder.__init__] (lines 262-278), whatever
    [with_recognizer] is passed: without a recognizer asked for, or with
    speaker type 'gst' or 'linear', or with the phone type 'none' (the tag
    line 270 reads), it returns an encoder, which has a recognizer exactly
    when one was asked for and the speaker type is 'gst' or 'linear', whose
    [out_dim] is [speaker_dim] with a recognizer and [hidden_size] without,
    and which takes over [average_pooling]; in every other case it raises
    NotImplementedError. *)
Theorem speaker_encoder_constructor (config : Cfg.t) (input_dim : Z)
    (oa kmo wr : bool) :
  (wr = true /\
   ~ In (Cfg.speaker_type config) ["gst"; "linear"] /\
   Cfg.phone_type config <> "none" ->
   SE.__init__ (A := A) config input_dim oa kmo wr = Raise NotImplementedError) /\
  (wr = false \/
   In (Cfg.speaker_type config) ["gst"; "linear"] \/
   Cfg.phone_type config = "none" ->
   exists s,
     SE.__init__ config input_dim oa kmo wr = Ok s /\
     SE.with_recognizer s =
       wr && ((Cfg.speaker_type config =? "gst")%string ||
              (Cfg.speaker_type config =? "linear")%string) /\
     (SE.with_recognizer s = true ->
      exists r, SE.SpeakerRecognizer s = Some r /\
                Recognizer_out_dim r = Cfg.speaker_dim config /\
                SE.out_dim s = Cfg.speaker_dim config) /\
     (SE.with_recognizer s = false ->
      SE.SpeakerRecognizer s = None /\ SE.out_dim s = Cfg.hidden_size config) /\
     SE.average_pooling s = Cfg.average_pooling config /\
     SE.output_attentions s = oa /\
     tm_input_dim (SE.Transformer s) = input_dim /\
     tm_module (SE.Transformer s) =
       init_Transformer_weights (TransformerModel_new config input_dim None)).
Proof.
  split.
  - intros (-> & Hnot & Hnone). unfold SE.__init__.
    destruct (String.eqb_spec (Cfg.speaker_type config) "gst") as [E | _];
      [exfalso; apply Hnot; rewrite E; simpl; tauto |].
    destruct (String.eqb_spec (Cfg.speaker_type config) "linear") as [E | _];
      [exfalso; apply Hnot; rewrite E; simpl; tauto |].
    destruct (String.eqb_spec (Cfg.phone_type config) "none") as [E | _];
      [contradiction |].
    reflexivity.
  - intros Hcase. destruct wr.
    2:{ unfold SE.__init__. rewrite !andb_false_r. simpl.
        eexists. split; [reflexivity |]. simpl.
        repeat split; try discriminate; reflexivity. }
    destruct Hcase as [Hwr | Hcase]; [discriminate Hwr |].
    unfold SE.__init__.
    destruct (String.eqb_spec (Cfg.speaker_type config) "gst") as [Eg | Hg]; simpl.
    { eexists. split; [reflexivity |]. simpl.
      repeat split; try discriminate. intros _. eexists. repeat split. }
    destruct (String.eqb_spec (Cfg.speaker_type config) "linear") as [El | Hl]; simpl.
    { eexists. split; [reflexivity |]. simpl.
      repeat split; try discriminate. intros _. eexists. repeat split. }
    destruct Hcase as [Hin | Hnone].
    { simpl in Hin. destruct Hin as [E | [E | []]]; congruence. }
    rewrite Hnone. simpl.
    eexists. split; [reflexivity |]. simpl.
    repeat split; try discriminate; reflexivity.
Qed.

End EncoderConstructors.

Section Stages.
Context {A : Type} `{Scalar A} `{Backend A}.

(** [__init__] by its three stages. *)
Lemma init_stages (config : Cfg.t) input_dim output_dim oa kmo (self : D.t A) :
  snd (D.__init__ config input_dim output_dim oa kmo) = Ok self ->
  exists self0 self1,
    D.build config input_dim output_dim oa kmo = Ok self0 /\
    D.weight_handling (D.normalize_pre_train config) self0 = Ok self1 /\
    self = D.apply_init self1.
Proof.
  unfold D.__init__.
  destruct (D.build config input_dim output_dim oa kmo) as [self0 |]; [| discriminate].
  simpl.
  destruct (D.weight_handling (D.normalize_pre_train config) self0) as [self1 |] eqn:Hw;
    [| discriminate].
  simpl. intros E. injection E as <-. exists self0, self1. repeat split. exact Hw.
Qed.

(** What lines 126-133 build. *)
Lemma build_parts (config : Cfg.t) input_dim output_dim oa kmo (self : D.t A) :
  D.build config input_dim output_dim oa kmo = Ok self ->
  exists cd,
    D.code_dim config (D.PhoneticTransformer self) (D.SpeakerTransformer self) = Ok cd /\
    D.SPE self =
      (if Cfg.decoder config && Cfg.intermediate_pe config then Some one else None) /\
    D.SpecTransformer self =
      (if Cfg.decoder config
       then Some (TransformerModel_init config cd oa kmo
                    (Some (Cfg.intermediate_pe config)))
       else None) /\
    D.SpecHead self =
      {| head_output_dim := match output_dim with Some d => d | None => input_dim end;
         head_input_dim := if Cfg.decoder config then None else Some cd |}.
Proof.
  unfold D.build. intros Hb.
  destruct (Cfg.dual_transformer config); [| discriminate]. simpl in Hb.
  match type of Hb with
  | Py.bind ?P _ = _ => destruct P as [P' |]; [| discriminate]
  end. simpl in Hb.
  match type of Hb with
  | Py.bind ?S _ = _ => destruct S as [S' |]; [| discriminate]
  end. simpl in Hb.
  destruct (D.code_dim config P' S') as [cd |] eqn:Ecd; [| discriminate].
  simpl in Hb. injection Hb as <-. simpl.
  exists cd. repeat split; auto.
  - destruct (Cfg.decoder config); [| reflexivity].
    destruct (Cfg.intermediate_pe config); reflexivity.
  - destruct (Cfg.decoder config); reflexivity.
Qed.

(** The encoders lines 111-112 build. *)
Lemma build_encoders (config : Cfg.t) input_dim output_dim oa kmo (self : D.t A) :
  D.build config input_dim output_dim oa kmo = Ok self ->
  D.phone_dim self = Cfg.phone_dim config /\
  D.speaker_dim self = Cfg.speaker_dim config /\
  (Cfg.phone_dim config <> 0 ->
   exists p, PE.__init__ config input_dim oa kmo true = Ok p /\
             D.PhoneticTransformer self = Some p) /\
  (Cfg.speaker_dim config <> 0 ->
   exists s, SE.__init__ config input_dim oa kmo true = Ok s /\
             D.SpeakerTransformer self = Some s).
Proof.
  unfold D.build. intros Hb.
  destruct (Cfg.dual_transformer config); [| discriminate]. simpl in Hb.
  match type of Hb with
  | Py.bind ?P _ = _ => destruct P as [P' |] eqn:EP; [| discriminate]
  end. simpl in Hb.
  match type of Hb with
  | Py.bind ?S _ = _ => destruct S as [S' |] eqn:ES; [| discriminate]
  end. simpl in Hb.
  destruct (D.code_dim config P' S') as [cd |]; [| discriminate].
  simpl in Hb. injection Hb as <-. simpl.
  split; [reflexivity |]. split; [reflexivity |]. split.
  - intros Hp. apply Z.eqb_neq in Hp. rewrite Hp in EP. simpl in EP.
    destruct (PE.__init__ config input_dim oa kmo true) as [p |]; [| discriminate].
    simpl in EP. injection EP as <-. exists p. auto.
  - intros Hs. apply Z.eqb_neq in Hs. rewrite Hs in ES. simpl in ES.
    destruct (SE.__init__ config input_dim oa kmo true) as [s |]; [| discriminate].
    simpl in ES. injection ES as <-. exists s. auto.
Qed.

(** The weight handling touches the encoders' transformers and nothing
    else. *)
Lemma weight_handling_frame (cfg' : Cfg.t) (self self' : D.t A) :
  D.weight_handling cfg' self = Ok self' ->
  D.SPE self' = D.SPE self /\
  D.SpecTransformer self' = D.SpecTransformer self /\
  D.SpecHead self' = D.SpecHead self /\
  option_map (@PE.out_dim A) (D.PhoneticTransformer self') =
    option_map (@PE.out_dim A) (D.PhoneticTransformer self) /\
  option_map (@SE.out_dim A) (D.SpeakerTransformer self') =
    option_map (@SE.out_dim A) (D.SpeakerTransformer self).
Proof.
  intros Hw. unfold D.weight_handling in Hw.
  destruct (0 <? Datatypes.length (Cfg.pre_train cfg'))%nat.
  2:{ injection Hw as <-. repeat split. }
  destruct (D.first_item (Cfg.pre_train cfg')); [| discriminate]. simpl in Hw.
  destruct (torch_load a); [| discriminate]. simpl in Hw.
  destruct (D.last_item (Cfg.pre_train cfg')); [| discriminate]. simpl in Hw.
  destruct (torch_load a1); [| discriminate]. simpl in Hw.
  match type of Hw with
  | Py.bind ?P _ = _ => destruct P as [P' |] eqn:EP; [| discriminate]
  end. simpl in Hw.
  match type of Hw with
  | Py.bind ?S _ = _ => destruct S as [S' |] eqn:ES; [| discriminate]
  end. simpl in Hw.
  injection Hw as <-. simpl.
  split; [reflexivity |]. split; [reflexivity |]. split; [reflexivity |]. split.
  - destruct (negb (D.phone_dim self =? 0)).
    + destruct (D.PhoneticTransformer self) as [p |]; [| discriminate EP].
      simpl in EP. split_bind EP. injection EP as <-. reflexivity.
    + injection EP as <-. reflexivity.
  - destruct (negb (D.speaker_dim self =? 0)).
    + destruct (D.SpeakerTransformer self) as [s |]; [| discriminate ES].
      simpl in ES. split_bind ES. injection ES as <-. reflexivity.
    + injection ES as <-. reflexivity.
Qed.

(** [code_dim] reads the encoders' [out_dim] and nothing else of them. *)
Lemma code_dim_out_dims (config : Cfg.t) (P P' : option (PE.t A))
    (S S' : option (SE.t A)) :
  option_map (@PE.out_dim A) P' = option_map (@PE.out_dim A) P ->
  option_map (@SE.out_dim A) S' = option_map (@SE.out_dim A) S ->
  D.code_dim config P' S' = D.code_dim config P S.
Proof.
  intros HP HS. unfold D.code_dim.
  destruct P as [p |], P' as [p' |]; try discriminate HP;
    destruct S as [s |], S' as [s' |]; try discriminate HS;
    simpl in *; try injection HP as ->; try injection HS as ->; reflexivity.
Qed.

Lemma apply_init_out_dims (self : D.t A) :
  option_map (@PE.out_dim A) (D.PhoneticTransformer (D.apply_init self)) =
    option_map (@PE.out_dim A) (D.PhoneticTransformer self) /\
  option_map (@SE.out_dim A) (D.SpeakerTransformer (D.apply_init self)) =
    option_map (@SE.out_dim A) (D.SpeakerTransformer self).
Proof.
  simpl. destruct (D.PhoneticTransformer self), (D.SpeakerTransformer self);
    split; reflexivity.
Qed.

(** The decoder, the scale and the head of a model [__init__] returns. *)
Lemma init_parts (config : Cfg.t) input_dim output_dim oa kmo (self : D.t A) :
  snd (D.__init__ config input_dim output_dim oa kmo) = Ok self ->
  exists cd,
    D.code_dim config (D.PhoneticTransformer self) (D.SpeakerTransformer self) = Ok cd /\
    D.SPE self =
      (if Cfg.decoder config && Cfg.intermediate_pe config then Some one else None) /\
    D.SpecTransformer self =
      (if Cfg.decoder config
       then Some (set_tm_module
                    (TransformerModel_init config cd oa kmo
                       (Some (Cfg.intermediate_pe config)))
                    (init_Transformer_weights
                       (TransformerModel_new config cd
                          (Some (Cfg.intermediate_pe config)))))
       else None) /\
    D.SpecHead self =
      {| head_output_dim := match output_dim with Some d => d | None => input_dim end;
         head_input_dim := if Cfg.decoder config then None else Some cd |}.
Proof.
  intros Hinit.
  destruct (init_stages config input_dim output_dim oa kmo self Hinit)
    as (self0 & self1 & Hb & Hw & ->).
  destruct (build_parts config input_dim output_dim oa kmo self0 Hb)
    as (cd & Hcd & Hspe & Hst & Hhead).
  destruct (weight_handling_frame _ self0 self1 Hw) as (Fspe & Fst & Fhead & FP & FS).
  destruct (apply_init_out_dims self1) as (IP & IS).
  exists cd. split.
  - rewrite <- Hcd. apply code_dim_out_dims; congruence.
  - cbn [D.apply_init D.SpecHead D.SpecTransformer D.SPE].
    rewrite Fspe, Fst, Fhead, Hspe, Hst, Hhead.
    repeat split. destruct (Cfg.decoder config); reflexivity.
Qed.

(** X10.  The decoder and the head of a model [__init__] returns (lines
    126-133), [cd] being the [code_dim] of its encoders: the head predicts
    [output_dim] features, [input_dim] when none is given; without decoder
    there is no SpecTransformer and no SPE, and the head is built for input
    width [cd]; with a decoder the head is given no input width, the
    SpecTransformer is a transformer for input width [cd] with an input
    module exactly when [intermediate_pe] is set, initialised, and the scale
    of the positional encoding SPE exists, with value one, exactly when
    [intermediate_pe] is set. *)
Theorem decoder_and_head_follow_config (config : Cfg.t) (input_dim : Z)
    (output_dim : option Z) (oa kmo : bool) (self : D.t A) :
  snd (D.__init__ config input_dim output_dim oa kmo) = Ok self ->
  exists cd,
    D.code_dim config (D.PhoneticTransformer self) (D.SpeakerTransformer self) = Ok cd /\
    head_output_dim (D.SpecHead self) =
      match output_dim with Some d => d | None => input_dim end /\
    (Cfg.decoder config = false ->
     D.SpecTransformer self = None /\ D.SPE self = None /\
     head_input_dim (D.SpecHead self) = Some cd) /\
    (Cfg.decoder config = true ->
     head_input_dim (D.SpecHead self) = None /\
     D.SPE self = (if Cfg.intermediate_pe config then Some one else None) /\
     exists tm,
       D.SpecTransformer self = Some tm /\
       tm_input_dim tm = cd /\
       tm_output_attentions tm = oa /\
       tm_keep_multihead_output tm = kmo /\
       tm_with_input_module tm = Some (Cfg.intermediate_pe config) /\
       tm_module tm =
         init_Transformer_weights
           (TransformerModel_new config cd (Some (Cfg.intermediate_pe config)))).
Proof.
  intros Hinit.
  destruct (init_parts config input_dim output_dim oa kmo self Hinit)
    as (cd & Hcd & Hspe & Hst & Hhead).
  exists cd. split; [exact Hcd |].
  rewrite Hspe, Hst, Hhead. cbn [head_output_dim head_input_dim].
  split; [reflexivity |]. split.
  - intros ->. repeat split.
  - intros ->. split; [reflexivity |]. split; [reflexivity |].
    eexists. split; [reflexivity |]. repeat split.
Qed.

(** The weight handling with two paths or more: the first and the last are
    the ones that count. *)
Lemma pre_train_two_paths (config : Cfg.t) (f1 f2 : pyobj) (mid : list pyobj) :
  Cfg.pre_train config = (f1 :: mid ++ [f2])%list ->
  D.normalize_pre_train config = config /\
  (0 <? List.length (Cfg.pre_train config))%nat = true /\
  D.first_item (Cfg.pre_train config) = Ok f1 /\
  D.last_item (Cfg.pre_train config) = Ok f2.
Proof.
  intros Hpre. unfold D.normalize_pre_train, D.first_item, D.last_item.
  rewrite Hpre. cbn [List.length Nat.ltb Nat.leb rev].
  rewrite length_app, rev_app_distr. cbn [List.length rev app].
  rewrite Nat.add_comm. repeat split.
Qed.

(** X11.  The encoders' weights of a model [__init__] returns (lines 136-142
    with the constructors' own initialisation, lines 231 and 277).  Without
    pre-trained paths each transformer is the new one, initialised by its
    encoder and again by the model.  With two paths or more, the phonetic
    transformer is loaded from the entry 'Transformer' of the file at the
    first path and the speaker transformer from that of the file at the last
    path, each load returning; and the model's initialisation is applied to
    the loaded weights afterwards. *)
Theorem weights_are_loaded_then_initialised (config : Cfg.t) (input_dim : Z)
    (output_dim : option Z) (oa kmo : bool) (self : D.t A) :
  snd (D.__init__ config input_dim output_dim oa kmo) = Ok self ->
  let fresh := init_Transformer_weights (TransformerModel_new config input_dim None) in
  (Cfg.pre_train config = [] ->
   (forall p, D.PhoneticTransformer self = Some p ->
      tm_module (PE.Transformer p) = init_Transformer_weights fresh) /\
   (forall s, D.SpeakerTransformer self = Some s ->
      tm_module (SE.Transformer s) = init_Transformer_weights fresh)) /\
  (forall f1 mid f2,
     Cfg.pre_train config = (PStr f1 :: mid ++ [PStr f2])%list ->
     (forall p, D.PhoneticTransformer self = Some p ->
        exists all_states state_dict,
          checkpoint_files f1 = Some all_states /\
          get "Transformer" all_states = Some state_dict /\
          returned (load_model fresh state_dict) =
            Ok (module_after (load_model fresh state_dict)) /\
          tm_module (PE.Transformer p) =
            init_Transformer_weights (module_after (load_model fresh state_dict))) /\
     (forall s, D.SpeakerTransformer self = Some s ->
        exists all_states state_dict,
          checkpoint_files f2 = Some all_states /\
          get "Transformer" all_states = Some state_dict /\
          returned (load_model fresh state_dict) =
            Ok (module_after (load_model fresh state_dict)) /\
          tm_module (SE.Transformer s) =
            init_Transformer_weights (module_after (load_model fresh state_dict)))).
Proof.
  intros Hinit fresh.
  destruct (init_stages config input_dim output_dim oa kmo self Hinit)
    as (self0 & self1 & Hb & Hw & ->).
  destruct (build_encoders config input_dim output_dim oa kmo self0 Hb)
    as (Hpd & Hsd & HP & HS).
  pose proof (build_constructed config input_dim output_dim oa kmo self0 Hb) as C.
  destruct C as [_ _ _ _ _ _ _ _ Cp Cs _ _].
  assert (HP0 : forall p0, D.PhoneticTransformer self0 = Some p0 ->
                  (D.phone_dim self0 =? 0) = false /\
                  tm_module (PE.Transformer p0) = fresh).
  { intros p0 Hp0. destruct (Cfg.phone_dim config =? 0) eqn:Ep; [congruence |].
    rewrite Hpd. split; [exact Ep |].
    apply Z.eqb_neq in Ep. destruct (HP Ep) as (p & Hi & Hp).
    assert (p = p0) as -> by congruence.
    destruct (phonetic_init_transformer config input_dim oa kmo true p0 Hi) as (-> & _).
    reflexivity. }
  assert (HS0 : forall s0, D.SpeakerTransformer self0 = Some s0 ->
                  (D.speaker_dim self0 =? 0) = false /\
                  tm_module (SE.Transformer s0) = fresh).
  { intros s0 Hs0. destruct (Cfg.speaker_dim config =? 0) eqn:Es; [congruence |].
    rewrite Hsd. split; [exact Es |].
    apply Z.eqb_neq in Es. destruct (HS Es) as (s & Hi & Hs).
    assert (s = s0) as -> by congruence.
    destruct (speaker_init_transformer config input_dim oa kmo true s0 Hi) as (-> & _).
    reflexivity. }
  clear HP HS Cp Cs.
  split.
  - intros Hpre. unfold D.normalize_pre_train, D.weight_handling in Hw.
    rewrite Hpre in Hw. simpl in Hw. rewrite Hpre in Hw. simpl in Hw.
    injection Hw as <-. cbn [D.apply_init D.PhoneticTransformer D.SpeakerTransformer].
    split.
    + intros p Hp. destruct (D.PhoneticTransformer self0) as [p0 |]; [| discriminate Hp].
      destruct (HP0 p0 eq_refl) as (_ & E0).
      simpl in Hp. injection Hp as <-. simpl. rewrite E0. reflexivity.
    + intros s Hs. destruct (D.SpeakerTransformer self0) as [s0 |]; [| discriminate Hs].
      destruct (HS0 s0 eq_refl) as (_ & E0).
      simpl in Hs. injection Hs as <-. simpl. rewrite E0. reflexivity.
  - intros f1 mid f2 Hpre.
    destruct (pre_train_two_paths config (PStr f1) (PStr f2) mid Hpre)
      as (Hnorm & Hlen & Hfirst & Hlast).
    rewrite Hnorm in Hw. unfold D.weight_handling in Hw.
    rewrite Hlen, Hfirst, Hlast in Hw. cbn [Py.bind torch_load] in Hw.
    destruct (checkpoint_files f1) as [a1 |]; [| discriminate Hw].
    destruct (checkpoint_files f2) as [a2 |]; [| discriminate Hw].
    cbn [Py.bind] in Hw.
    match type of Hw with
    | Py.bind ?P _ = _ => destruct P as [P' |] eqn:EP; [| discriminate]
    end. cbn [Py.bind] in Hw.
    match type of Hw with
    | Py.bind ?S _ = _ => destruct S as [S' |] eqn:ES; [| discriminate]
    end. cbn [Py.bind] in Hw.
    injection Hw as <-. cbn [D.apply_init D.PhoneticTransformer D.SpeakerTransformer].
    split.
    + intros p Hp. destruct P' as [p1 |]; [| discriminate Hp].
      simpl in Hp. injection Hp as <-.
      destruct (D.PhoneticTransformer self0) as [p0 |] eqn:Ep0.
      2:{ destruct (negb (D.phone_dim self0 =? 0)); simpl in EP; discriminate EP. }
      destruct (HP0 p0 eq_refl) as (Hdim & E0). rewrite Hdim in EP. simpl in EP.
      unfold getitem in EP.
      destruct (get "Transformer" a1) as [sd |] eqn:Esd; [| discriminate EP].
      simpl in EP. rewrite E0 in EP.
      destruct (returned (load_model fresh sd)) as [m |] eqn:Er; [| discriminate EP].
      simpl in EP. injection EP as <-.
      pose proof (returned_module fresh sd m Er) as ->.
      exists a1, sd. repeat split; assumption.
    + intros s Hs. destruct S' as [s1 |]; [| discriminate Hs].
      simpl in Hs. injection Hs as <-.
      destruct (D.SpeakerTransformer self0) as [s0 |] eqn:Es0.
      2:{ destruct (negb (D.speaker_dim self0 =? 0)); simpl in ES; discriminate ES. }
      destruct (HS0 s0 eq_refl) as (Hdim & E0). rewrite Hdim in ES. simpl in ES.
      unfold getitem in ES.
      destruct (get "Transformer" a2) as [sd |] eqn:Esd; [| discriminate ES].
      simpl in ES. rewrite E0 in ES.
      destruct (returned (load_model fresh sd)) as [m |] eqn:Er; [| discriminate ES].
      simpl in ES. injection ES as <-.
      pose proof (returned_module fresh sd m Er) as ->.
      exists a2, sd. repeat split; assumption.
Qed.

(** X12.  The failures of the weight handling with two paths or more (lines
    136-141), for a configuration whose model lines 100-133 build: the
    configuration object is left as it was; both files are read before
    either is used, so that construction raises FileNotFoundError when the
    file at the first or at the last path does not exist, whichever encoders
    the model has; with both files read, a file for the phonetic encoder
    without the entry 'Transformer' raises KeyError, and a load into the
    phonetic transformer that raises makes construction raise
    RuntimeError. *)
Theorem checkpoint_files_are_read_before_use (config : Cfg.t) (input_dim : Z)
    (output_dim : option Z) (oa kmo : bool) (self0 : D.t A)
    (f1 f2 : string) (mid : list pyobj) :
  D.build config input_dim output_dim oa kmo = Ok self0 ->
  Cfg.pre_train config = (PStr f1 :: mid ++ [PStr f2])%list ->
  fst (D.__init__ config input_dim output_dim oa kmo) = config /\
  (checkpoint_files f1 = None \/ checkpoint_files f2 = None ->
   snd (D.__init__ config input_dim output_dim oa kmo) = Raise FileNotFoundError) /\
  (forall a1 a2,
     checkpoint_files f1 = Some a1 -> checkpoint_files f2 = Some a2 ->
     Cfg.phone_dim config <> 0 ->
     (get "Transformer" a1 = None ->
      snd (D.__init__ config input_dim output_dim oa kmo) = Raise KeyError) /\
     (forall state_dict,
        get "Transformer" a1 = Some state_dict ->
        returned (load_model
                    (init_Transformer_weights (TransformerModel_new config input_dim None))
                    state_dict) = Raise RuntimeError ->
        snd (D.__init__ config input_dim output_dim oa kmo) = Raise RuntimeError)).
Proof.
  intros Hb Hpre.
  destruct (pre_train_two_paths config (PStr f1) (PStr f2) mid Hpre)
    as (Hnorm & Hlen & Hfirst & Hlast).
  unfold D.__init__. rewrite Hb, Hnorm. cbn [fst snd].
  split; [reflexivity |].
  unfold D.weight_handling. rewrite Hlen, Hfirst, Hlast. cbn [Py.bind torch_load].
  split.
  - intros [E | E].
    + rewrite E. reflexivity.
    + rewrite E. destruct (checkpoint_files f1); reflexivity.
  - intros a1 a2 E1 E2 Hp. rewrite E1, E2. cbn [Py.bind].
    destruct (build_encoders config input_dim output_dim oa kmo self0 Hb)
      as (Hpd & _ & HP & _).
    destruct (HP Hp) as (p0 & Hi & Hp0).
    destruct (phonetic_init_transformer config input_dim oa kmo true p0 Hi) as (Ht & _).
    apply Z.eqb_neq in Hp. rewrite Hpd, Hp, Hp0. cbn [negb attr Py.bind].
    unfold getitem. split.
    + intros ->. reflexivity.
    + intros sd -> Hr. cbn [Py.bind]. rewrite Ht. cbn [tm_module set_tm_module].
      rewrite Hr. reflexivity.
Qed.

End Stages.

(** X10 on [decoder_config]: a decoder for the code of width 64 + 16, with
    input module, and a head without input width. *)
Lemma decoder_and_head_follow_config_witness :
  exists self tm,
    snd (D.__init__ (A := float) decoder_config 80 None false false) = Ok self /\
    D.SpecTransformer self = Some tm /\
    tm_input_dim tm = 80 /\
    tm_with_input_module tm = Some true /\
    head_input_dim (D.SpecHead self) = None /\
    head_output_dim (D.SpecHead self) = 80.
Proof.
  let r := eval vm_compute in
    (snd (D.__init__ (A := float) decoder_config 80 None false false)) in
  match r with Ok ?m => exists m end.
  assert (Hinit : snd (D.__init__ (A := float) decoder_config 80 None false false) = Ok _)
    by (vm_compute; reflexivity).
  destruct (decoder_and_head_follow_config decoder_config 80 None false false _ Hinit)
    as (cd & Hcd & Hout & _ & Hdec).
  destruct (Hdec eq_refl) as (Hhead & _ & tm & Htm & Hin & _ & _ & Hwim & _).
  exists tm. split; [exact Hinit |]. split; [exact Htm |].
  assert (cd = 80) as -> by (vm_compute in Hcd; congruence).
  repeat split; assumption.
Defined.

(** X11 on the example backend, whose file "ckpt" holds 2 and 3 under the
    legacy names of the layer norm: both encoders end with them. *)
Lemma weights_are_loaded_then_initialised_witness :
  exists self p,
    snd (D.__init__ (A := float)
           (config_of true "concat" "l2" 64 "gst" 16 false [PStr "ckpt"; PStr "ckpt"])
           80 None false false) = Ok self /\
    D.PhoneticTransformer self = Some p /\
    exists state_dict,
      get "Transformer" checkpoint = Some state_dict /\
      tm_module (PE.Transformer p) = module_after (load_model small_tree state_dict).
Proof.
  let r := eval vm_compute in
    (snd (D.__init__ (A := float)
            (config_of true "concat" "l2" 64 "gst" 16 false [PStr "ckpt"; PStr "ckpt"])
            80 None false false)) in
  match r with Ok ?m => exists m end.
  match goal with
  | |- exists p, _ /\ D.PhoneticTransformer ?m = _ /\ _ =>
      let o := eval vm_compute in (D.PhoneticTransformer m) in
      match o with Some ?p => exists p end
  end.
  assert (Hinit : snd (D.__init__ (A := float)
                         (config_of true "concat" "l2" 64 "gst" 16 false
                            [PStr "ckpt"; PStr "ckpt"])
                         80 None false false) = Ok _)
    by (vm_compute; reflexivity).
  split; [exact Hinit |]. split; [reflexivity |].
  destruct (weights_are_loaded_then_initialised _ 80 None false false _ Hinit)
    as (_ & Hloaded).
  destruct (Hloaded "ckpt" [] "ckpt" eq_refl) as (Hp & _).
  destruct (Hp _ eq_refl) as (all_states & sd & Hfile & Hsd & _ & Hm).
  exists sd. split.
  - vm_compute in Hfile. injection Hfile as <-. exact Hsd.
  - exact Hm.
Defined.

(** X12 on the example backend: the second path names no file. *)
Lemma checkpoint_files_are_read_before_use_witness :
  snd (D.__init__ (A := float)
         (config_of true "concat" "l2" 64 "gst" 0 false [PStr "ckpt"; PStr "nowhere"])
         80 None false false) = Raise FileNotFoundError.
Proof.
  assert (Hb : exists self0,
             D.build (A := float)
               (config_of true "concat" "l2" 64 "gst" 0 false
                  [PStr "ckpt"; PStr "nowhere"]) 80 None false false = Ok self0)
    by (eexists; vm_compute; reflexivity).
  destruct Hb as (self0 & Hb).
  destruct (checkpoint_files_are_read_before_use
              (config_of true "concat" "l2" 64 "gst" 0 false
                 [PStr "ckpt"; PStr "nowhere"])
              80 None false false self0 "ckpt" "nowhere" [] Hb eq_refl)
    as (_ & Hfiles & _).
  apply Hfiles. right. reflexivity.
Defined.

(** ** Further properties of the forward pass *)

Section ForwardFacts.
Context {A : Type} `{Scalar A} `{Backend A}.

(** Without both labels the last stage returns the predictions. *)
Lemma compute_objective_without_labels (self : D.t A) all_attentions
    (pred_spec pred_state : Tensor A) spec_label mask_label :
  mask_label = None \/ spec_label = None ->
  D.compute_objective self all_attentions pred_spec pred_state spec_label mask_label =
  if D.output_attentions self
  then Ok (D.Attentions_and_pred all_attentions pred_spec)
  else Ok (D.Pred_and_state pred_spec pred_state).
Proof.
  unfold D.compute_objective.
  intros [-> | ->]; [destruct spec_label | destruct mask_label]; reflexivity.
Qed.

Lemma compute_objective_pred (self : D.t A) all_attentions
    (pred_spec pred_state : Tensor A) spec_label mask_label out :
  D.compute_objective self all_attentions pred_spec pred_state spec_label mask_label
    = Ok out ->
  pred_spec_of out = pred_spec.
Proof.
  unfold D.compute_objective. intros E.
  destruct spec_label as [sl |], mask_label as [ml |];
    try (destruct (D.output_attentions self); injection E as <-; reflexivity).
  destruct (0 <? mask_sum ml)%nat; [| discriminate E].
  split_bind E. injection E as <-. reflexivity.
Qed.

(** X13.  The labels of [forward] (lines 193-202), for any model and any
    inputs: with only one of [mask_label] and [spec_label], or none, the
    call is the call without labels; a call without labels that raises
    raises the same with labels; and when both calls return, they carry the
    same predicted spectrogram: the labels add the loss and change nothing
    else. *)
Theorem labels_only_add_the_loss (self : D.t A)
    (phonetic_input speaker_input pos_enc : Tensor A)
    (mask_label : option (Tensor bool)) (attention_mask : option Mask)
    (spec_label : option (Tensor A)) (head_mask : option Mask) :
  (mask_label = None \/ spec_label = None ->
   D.forward self phonetic_input speaker_input pos_enc mask_label attention_mask
     spec_label head_mask =
   D.forward self phonetic_input speaker_input pos_enc None attention_mask
     None head_mask) /\
  (forall e,
     D.forward self phonetic_input speaker_input pos_enc None attention_mask
       None head_mask = Raise e ->
     D.forward self phonetic_input speaker_input pos_enc mask_label attention_mask
       spec_label head_mask = Raise e) /\
  (forall out out',
     D.forward self phonetic_input speaker_input pos_enc None attention_mask
       None head_mask = Ok out ->
     D.forward self phonetic_input speaker_input pos_enc mask_label attention_mask
       spec_label head_mask = Ok out' ->
     pred_spec_of out' = pred_spec_of out).
Proof.
  unfold D.forward.
  destruct (D.dual_encoder_forward self phonetic_input speaker_input pos_enc
              attention_mask head_mask) as [[[atts pc] sc] | e0]; cbn [Py.bind].
  2:{ repeat split; intros; congruence. }
  destruct (D.replicate_code self pc sc) as [sc' | e0]; cbn [Py.bind].
  2:{ repeat split; intros; congruence. }
  destruct (D.combine_code self pc sc') as [code | e0]; cbn [Py.bind].
  2:{ repeat split; intros; congruence. }
  destruct (D.tensor_of code TypeError) as [code' | e0]; cbn [Py.bind].
  2:{ repeat split; intros; congruence. }
  destruct (D.decoder_forward self code' pos_enc attention_mask head_mask atts)
    as [[atts' out0] | e0]; cbn [Py.bind].
  2:{ repeat split; intros; congruence. }
  destruct (SpecHead_forward (D.SpecHead self) out0) as [pred_spec pred_state].
  split; [| split].
  - intros Hnone. rewrite !compute_objective_without_labels; auto.
  - intros e E. rewrite compute_objective_without_labels in E by auto.
    destruct (D.output_attentions self); discriminate E.
  - intros out out' E E'.
    apply compute_objective_pred in E, E'. congruence.
Qed.

Lemma phonetic_forward_attentions (p : PE.t A) spec_input pos_enc attention_mask
    oael head_mask a c :
  PE.forward p spec_input pos_enc attention_mask oael head_mask = Ok (a, c) ->
  (a = None <-> PE.output_attentions p = false).
Proof.
  unfold PE.forward.
  destruct (TransformerModel_forward (PE.Transformer p) spec_input (Some pos_enc)
              attention_mask oael head_mask) as [att out].
  intros E. split_bind E.
  destruct (PE.output_attentions p); injection E as <- <-;
    split; congruence.
Qed.

Lemma speaker_forward_attentions (s : SE.t A) spec_input pos_enc attention_mask
    oael head_mask a c :
  SE.forward s spec_input pos_enc attention_mask oael head_mask = Ok (a, c) ->
  (a = None <-> SE.output_attentions s = false).
Proof.
  unfold SE.forward.
  destruct (TransformerModel_forward (SE.Transformer s) spec_input (Some pos_enc)
              attention_mask oael head_mask) as [att out].
  intros E. split_bind E.
  destruct (SE.output_attentions s); injection E as <- <-;
    split; congruence.
Qed.

(** The attentions of the encoder stage of a constructed model that returns
    attentions. *)
Lemma dual_encoder_attentions (config : Cfg.t) input_dim kmo (self : D.t A)
    phonetic_input speaker_input pos_enc attention_mask head_mask
    all_attentions phonetic_code speaker_code :
  constructed config input_dim true kmo self ->
  D.dual_encoder_forward self phonetic_input speaker_input pos_enc
    attention_mask head_mask = Ok (all_attentions, phonetic_code, speaker_code) ->
  exists pa sa,
    all_attentions = [pa; sa] /\
    (pa = None <-> Cfg.phone_dim config = 0) /\
    (sa = None <-> Cfg.speaker_dim config = 0).
Proof.
  intros [Coa Cdec Cpe Ccomb Cpd Csd Cavg Csome Cp Cs Cst Cspe].
  unfold D.dual_encoder_forward. rewrite Cpd, Csd. intros E.
  match type of E with
  | Py.bind ?P _ = _ => destruct P as [[pa pc] |] eqn:EP; [| discriminate]
  end. simpl in E.
  match type of E with
  | Py.bind ?S _ = _ => destruct S as [[sa sc] |] eqn:ES; [| discriminate]
  end. simpl in E.
  injection E as <- <- <-.
  exists pa, sa. split; [reflexivity |]. split.
  - destruct (Z.eqb_spec (Cfg.phone_dim config) 0) as [Ep | Np]; simpl in EP.
    + injection EP as <- <-. tauto.
    + destruct Cp as (p0 & tm & E0 & Eself). rewrite Eself in EP. simpl in EP.
      match type of EP with
      | Py.bind ?F _ = _ => destruct F as [[a c] |] eqn:EF; [| discriminate]
      end. simpl in EP. injection EP as <- <-.
      apply phonetic_forward_attentions in EF. simpl in EF.
      destruct (phonetic_init_inv config input_dim true kmo p0 E0) as (Ho & _).
      rewrite Ho in EF. split; [| contradiction].
      intros Ha. apply EF in Ha. discriminate Ha.
  - destruct (Z.eqb_spec (Cfg.speaker_dim config) 0) as [Es | Ns]; simpl in ES.
    + injection ES as <- <-. tauto.
    + destruct Cs as (s0 & tm & E0 & Eself). rewrite Eself in ES. simpl in ES.
      match type of ES with
      | Py.bind ?F _ = _ => destruct F as [[a c] |] eqn:EF; [| discriminate]
      end. simpl in ES. injection ES as <- <-.
      apply speaker_forward_attentions in EF. simpl in EF.
      destruct (speaker_init_inv config input_dim true kmo s0 E0) as (Ho & _).
      rewrite Ho in EF. split; [| contradiction].
      intros Ha. apply EF in Ha. discriminate Ha.
Qed.

(** The decoder stage of a model [__init__] returns (lines 180-192). *)
Lemma decoder_forward_constructed (config : Cfg.t) input_dim output_dim oa kmo
    (self : D.t A) code pos_enc attention_mask head_mask all_attentions :
  snd (D.__init__ config input_dim output_dim oa kmo) = Ok self ->
  (Cfg.decoder config = false ->
   D.decoder_forward self code pos_enc attention_mask head_mask all_attentions =
   Ok (all_attentions, code)) /\
  (Cfg.decoder config = true ->
   exists tm,
     D.SpecTransformer self = Some tm /\
     D.decoder_forward self code pos_enc attention_mask head_mask all_attentions =
     let outputs :=
       TransformerModel_forward tm code
         (if Cfg.intermediate_pe config then Some (scale one pos_enc) else None)
         attention_mask false head_mask in
     Ok ((if oa then all_attentions ++ [Some (fst outputs)] else all_attentions)%list,
         snd outputs)).
Proof.
  intros Hinit.
  destruct (init_parts config input_dim output_dim oa kmo self Hinit)
    as (cd & _ & Hspe & Hst & _).
  pose proof (init_constructed config input_dim output_dim oa kmo self Hinit) as C.
  destruct C as [Coa Cdec Cpe _ _ _ _ _ _ _ _ _].
  unfold D.decoder_forward. rewrite Cdec, Cpe, Coa, Hspe, Hst.
  split.
  - intros ->. reflexivity.
  - intros ->. eexists. split; [reflexivity |]. cbv zeta.
    destruct (Cfg.intermediate_pe config); cbn [andb attr Py.bind];
      match goal with
      | |- context [TransformerModel_forward ?tm ?c ?pe ?am ?b ?hm] =>
          destruct (TransformerModel_forward tm c pe am b hm) as [da out]
      end; destruct oa; reflexivity.
Qed.

(** X14.  What [forward] returns without both labels (lines 156-162, 186-188
    and 200-202), for a model [__init__] returns: built without
    [output_attentions], the prediction and the state; built with it, the
    attentions and the prediction, the attentions being a list of the
    phonetic encoder's, the speaker encoder's and, with a decoder, the
    decoder's, in this order, where an encoder that does not exist has the
    entry None and every other entry is present. *)
Theorem attentions_follow_the_encoders (config : Cfg.t) (input_dim : Z)
    (output_dim : option Z) (oa kmo : bool) (self : D.t A)
    (phonetic_input speaker_input pos_enc : Tensor A)
    (mask_label : option (Tensor bool)) (attention_mask : option Mask)
    (spec_label : option (Tensor A)) (head_mask : option Mask)
    (out : D.Output A Attentions) :
  snd (D.__init__ config input_dim output_dim oa kmo) = Ok self ->
  mask_label = None \/ spec_label = None ->
  D.forward self phonetic_input speaker_input pos_enc mask_label attention_mask
    spec_label head_mask = Ok out ->
  (oa = false -> exists pred_spec pred_state, out = D.Pred_and_state pred_spec pred_state) /\
  (oa = true ->
   exists all_attentions pred_spec,
     out = D.Attentions_and_pred all_attentions pred_spec /\
     List.length all_attentions = (if Cfg.decoder config then 3 else 2)%nat /\
     (nth 0 all_attentions None = None <-> Cfg.phone_dim config = 0) /\
     (nth 1 all_attentions None = None <-> Cfg.speaker_dim config = 0) /\
     (Cfg.decoder config = true -> nth 2 all_attentions None <> None)).
Proof.
  intros Hinit Hlabels. unfold D.forward.
  pose proof (init_constructed config input_dim output_dim oa kmo self Hinit) as C.
  destruct (D.dual_encoder_forward self phonetic_input speaker_input pos_enc
              attention_mask head_mask) as [[[atts pc] sc] |] eqn:Henc;
    cbn [Py.bind]; [| discriminate].
  destruct (D.replicate_code self pc sc) as [sc' |]; cbn [Py.bind]; [| discriminate].
  destruct (D.combine_code self pc sc') as [code |]; cbn [Py.bind]; [| discriminate].
  destruct (D.tensor_of code TypeError) as [code' |]; cbn [Py.bind]; [| discriminate].
  destruct (decoder_forward_constructed config input_dim output_dim oa kmo self
              code' pos_enc attention_mask head_mask atts Hinit) as (Hno & Hdec).
  destruct (D.decoder_forward self code' pos_enc attention_mask head_mask atts)
    as [[atts' out0] |] eqn:Hd; cbn [Py.bind]; [| discriminate].
  destruct (SpecHead_forward (D.SpecHead self) out0) as [pred_spec pred_state].
  rewrite compute_objective_without_labels by exact Hlabels.
  rewrite (c_output_attentions _ _ _ _ _ C).
  intros E. split; intros ->; injection E as <-.
  - do 2 eexists. reflexivity.
  - exists atts', pred_spec. split; [reflexivity |].
    destruct (dual_encoder_attentions config input_dim kmo self _ _ _ _ _ _ _ _ C Henc)
      as (pa & sa & -> & Hpa & Hsa).
    destruct (Cfg.decoder config).
    + destruct (Hdec eq_refl) as (tm & _ & E). cbv zeta in E.
      cbn [app] in E. injection E as -> _.
      cbn [List.length nth]. repeat split; try tauto. discriminate.
    + specialize (Hno eq_refl). injection Hno as -> _.
      cbn [List.length nth]. repeat split; try tauto. discriminate.
Qed.

(** X15.  The input of an encoder that does not exist (lines 147-154), for a
    model [__init__] returns: without speaker encoder the result of
    [forward] does not depend on [speaker_input], without phonetic encoder
    it does not depend on [phonetic_input]. *)
Theorem unused_input_is_ignored (config : Cfg.t) (input_dim : Z)
    (output_dim : option Z) (oa kmo : bool) (self : D.t A)
    (phonetic_input speaker_input pos_enc : Tensor A)
    (mask_label : option (Tensor bool)) (attention_mask : option Mask)
    (spec_label : option (Tensor A)) (head_mask : option Mask) :
  snd (D.__init__ config input_dim output_dim oa kmo) = Ok self ->
  (Cfg.speaker_dim config = 0 ->
   forall speaker_input',
     D.forward self phonetic_input speaker_input' pos_enc mask_label attention_mask
       spec_label head_mask =
     D.forward self phonetic_input speaker_input pos_enc mask_label attention_mask
       spec_label head_mask) /\
  (Cfg.phone_dim config = 0 ->
   forall phonetic_input',
     D.forward self phonetic_input' speaker_input pos_enc mask_label attention_mask
       spec_label head_mask =
     D.forward self phonetic_input speaker_input pos_enc mask_label attention_mask
       spec_label head_mask).
Proof.
  intros Hinit.
  pose proof (init_constructed config input_dim output_dim oa kmo self Hinit) as C.
  destruct C as [_ _ _ _ Cpd Csd _ _ _ _ _ _].
  split; intros Hzero x; unfold D.forward, D.dual_encoder_forward.
  - rewrite Csd, Hzero. reflexivity.
  - rewrite Cpd, Hzero. reflexivity.
Qed.

(** X16.  From the fused code to the prediction (lines 180-202), for a model
    [__init__] returns: once the encoder stage, the replication and the
    fusion have yielded a code, [forward] without labels returns, and the
    predicted spectrogram is the head applied to the code itself without
    decoder, and with a decoder to the output of the SpecTransformer on the
    code, with the positional encoding scaled by SPE, which is one, when
    [intermediate_pe] is set and with no positional encoding otherwise. *)
Theorem prediction_is_the_head_of_the_decoded_code (config : Cfg.t) (input_dim : Z)
    (output_dim : option Z) (oa kmo : bool) (self : D.t A)
    (phonetic_input speaker_input pos_enc : Tensor A)
    (attention_mask head_mask : option Mask)
    (all_attentions : list (option Attentions))
    (phonetic_code speaker_code replicated : option (Tensor A)) (code : Tensor A) :
  snd (D.__init__ config input_dim output_dim oa kmo) = Ok self ->
  D.dual_encoder_forward self phonetic_input speaker_input pos_enc
    attention_mask head_mask = Ok (all_attentions, phonetic_code, speaker_code) ->
  D.replicate_code self phonetic_code speaker_code = Ok replicated ->
  D.combine_code self phonetic_code replicated = Ok (Some code) ->
  exists sequence_output out,
    (Cfg.decoder config = false -> sequence_output = code) /\
    (Cfg.decoder config = true ->
     exists tm,
       D.SpecTransformer self = Some tm /\
       sequence_output =
         snd (TransformerModel_forward tm code
                (if Cfg.intermediate_pe config then Some (scale one pos_enc) else None)
                attention_mask false head_mask)) /\
    D.forward self phonetic_input speaker_input pos_enc None attention_mask
      None head_mask = Ok out /\
    pred_spec_of out = fst (SpecHead_forward (D.SpecHead self) sequence_output).
Proof.
  intros Hinit Henc Hrep Hcomb.
  destruct (decoder_forward_constructed config input_dim output_dim oa kmo self
              code pos_enc attention_mask head_mask all_attentions Hinit)
    as (Hno & Hdec).
  unfold D.forward. rewrite Henc. cbn [Py.bind]. rewrite Hrep. cbn [Py.bind].
  rewrite Hcomb. cbn [Py.bind D.tensor_of].
  destruct (Cfg.decoder config).
  - destruct (Hdec eq_refl) as (tm & Htm & ->). cbv zeta. cbn [Py.bind].
    match goal with
    | |- context [SpecHead_forward ?h ?x] =>
        exists x; destruct (SpecHead_forward h x) as [pred_spec pred_state] eqn:Hhead
    end.
    rewrite compute_objective_without_labels by (left; reflexivity).
    destruct (D.output_attentions self); eexists;
      (split; [discriminate |]);
      (split; [intros _; exists tm; split; [exact Htm | reflexivity] |]);
      (split; [reflexivity | reflexivity]).
  - rewrite (Hno eq_refl). cbn [Py.bind].
    exists code. destruct (SpecHead_forward (D.SpecHead self) code)
      as [pred_spec pred_state] eqn:Hhead.
    rewrite compute_objective_without_labels by (left; reflexivity).
    destruct (D.output_attentions self); eexists;
      (split; [reflexivity |]);
      (split; [discriminate |]);
      (split; [reflexivity | reflexivity]).
Qed.

End ForwardFacts.

(** X14 on [decoder_config] built with [output_attentions]: three entries,
    all present. *)
Lemma attentions_follow_the_encoders_witness :
  exists self all_attentions pred_spec,
    snd (D.__init__ (A := float) decoder_config 80 None true false) = Ok self /\
    D.forward self
      (of_list 0%float [[[1%float]; [2%float]]])
      (of_list 0%float [[[4%float]; [8%float]]])
      (of_list 0%float [[[0%float]; [0%float]]])
      None None None None = Ok (D.Attentions_and_pred all_attentions pred_spec) /\
    List.length all_attentions = 3%nat /\
    nth 0 all_attentions None <> None /\
    nth 1 all_attentions None <> None /\
    nth 2 all_attentions None <> None.
Proof.
  let r := eval vm_compute in
    (snd (D.__init__ (A := float) decoder_config 80 None true false)) in
  match r with Ok ?m => exists m end.
  assert (Hinit : snd (D.__init__ (A := float) decoder_config 80 None true false) = Ok _)
    by (vm_compute; reflexivity).
  match goal with
  | |- exists a p, _ /\ ?f = _ /\ _ => destruct f as [out |] eqn:Hf
  end.
  2:{ exfalso. vm_compute in Hf. discriminate Hf. }
  destruct (attentions_follow_the_encoders decoder_config 80 None true false _
              _ _ _ None None None None out Hinit (or_introl eq_refl) Hf)
    as (_ & Hatt).
  destruct (Hatt eq_refl) as (atts & pred & -> & Hlen & Hp & Hs & Hd).
  exists atts, pred. split; [exact Hinit |]. split; [reflexivity |].
  split; [exact Hlen |]. split; [| split].
  - intros E. apply Hp in E. discriminate E.
  - intros E. apply Hs in E. discriminate E.
  - apply Hd. reflexivity.
Defined.

(** X15 on a model with the phonetic encoder alone: two speaker inputs, one
    result. *)
Lemma unused_input_is_ignored_witness :
  exists self,
    snd (D.__init__ (A := float) (config_of true "concat" "l2" 64 "gst" 0 false [])
           80 None false false) = Ok self /\
    D.forward self
      (of_list 0%float [[[1%float]; [2%float]]])
      (of_list 0%float [[[4%float]; [8%float]]])
      (of_list 0%float [[[0%float]; [0%float]]])
      None None None None =
    D.forward self
      (of_list 0%float [[[1%float]; [2%float]]])
      (of_list 0%float [[[5%float]]])
      (of_list 0%float [[[0%float]; [0%float]]])
      None None None None.
Proof.
  let r := eval vm_compute in
    (snd (D.__init__ (A := float) (config_of true "concat" "l2" 64 "gst" 0 false [])
            80 None false false)) in
  match r with Ok ?m => exists m end.
  assert (Hinit : snd (D.__init__ (A := float)
                         (config_of true "concat" "l2" 64 "gst" 0 false [])
                         80 None false false) = Ok _)
    by (vm_compute; reflexivity).
  split; [exact Hinit |].
  destruct (unused_input_is_ignored _ 80 None false false _
              (of_list 0%float [[[1%float]; [2%float]]])
              (of_list 0%float [[[5%float]]])
              (of_list 0%float [[[0%float]; [0%float]]])
              None None None None Hinit) as (Hspeaker & _).
  apply Hspeaker. reflexivity.
Defined.

(** X16 on [decoder_config]: the call returns, and with the example backend,
    whose transformers and head return their input, the prediction is the
    fused code. *)
Lemma prediction_is_the_head_of_the_decoded_code_witness :
  exists self code out,
    snd (D.__init__ (A := float) decoder_config 80 None false false) = Ok self /\
    D.forward self
      (of_list 0%float [[[1%float]; [2%float]]])
      (of_list 0%float [[[4%float]; [8%float]]])
      (of_list 0%float [[[0%float]; [0%float]]])
      None None None None = Ok out /\
    pred_spec_of out = code /\
    shape code = (1%nat, 2%nat, 80%nat).
Proof.
  let r := eval vm_compute in
    (snd (D.__init__ (A := float) decoder_config 80 None false false)) in
  match r with Ok ?m => exists m end.
  assert (Hinit : snd (D.__init__ (A := float) decoder_config 80 None false false) = Ok _)
    by (vm_compute; reflexivity).
  match type of Hinit with
  | _ = Ok ?m =>
      let r := eval vm_compute in
        (D.dual_encoder_forward m
           (of_list 0%float [[[1%float]; [2%float]]])
           (of_list 0%float [[[4%float]; [8%float]]])
           (of_list 0%float [[[0%float]; [0%float]]]) None None) in
      match r with
      | Ok (?a, ?p, ?s) =>
          assert (Henc : D.dual_encoder_forward m
                           (of_list 0%float [[[1%float]; [2%float]]])
                           (of_list 0%float [[[4%float]; [8%float]]])
                           (of_list 0%float [[[0%float]; [0%float]]]) None None
                         = Ok (a, p, s)) by (vm_compute; reflexivity);
          let c := eval vm_compute in (D.combine_code m p s) in
          match c with
          | Ok (Some ?code) =>
              assert (Hcomb : D.combine_code m p s = Ok (Some code))
                by (vm_compute; reflexivity)
          end
      end
  end.
  destruct (prediction_is_the_head_of_the_decoded_code decoder_config 80 None
              false false _ _ _ _ None None _ _ _ _ _ Hinit Henc eq_refl Hcomb)
    as (seq_out & out & _ & Hdec & Hfwd & Hpred).
  destruct (Hdec eq_refl) as (tm & _ & Hseq).
  exists seq_out, out. split; [exact Hinit |]. split; [exact Hfwd |].
  split; [rewrite Hpred; reflexivity |].
  rewrite Hseq. reflexivity.
Defined.

(** ** The width of the fused code *)

Section CodeWidth.
Context {A : Type} `{Scalar A} `{Backend A}.

(** The recognizers produce [out_dim] features. *)
Hypothesis Recognizer_width :
  forall r (x : Tensor A), size2 (Recognizer_forward r x) = Z.to_nat (Recognizer_out_dim r).

Lemma phonetic_code_width (config : Cfg.t) input_dim oa kmo (p0 : PE.t A) tm
    spec_input pos_enc attention_mask oael head_mask a c :
  In (Cfg.phone_type config) ["l2"; "gb"; "gst"; "linear"] ->
  PE.__init__ config input_dim oa kmo true = Ok p0 ->
  PE.forward (PE.set_Transformer p0 tm) spec_input pos_enc attention_mask oael head_mask
    = Ok (a, c) ->
  PE.out_dim p0 = Cfg.phone_dim config /\
  size2 c = Z.to_nat (Cfg.phone_dim config).
Proof.
  intros Hin Hi Hf. unfold PE.__init__ in Hi. simpl in Hin.
  destruct Hin as [E | [E | [E | [E | []]]]]; rewrite <- E in Hi; simpl in Hi;
    injection Hi as <-; unfold PE.forward in Hf; simpl in Hf;
    match type of Hf with
    | context [TransformerModel_forward ?m ?x ?pe ?am ?b ?hm] =>
        destruct (TransformerModel_forward m x pe am b hm) as [att out]
    end;
    destruct oa; injection Hf as <- <-;
    (split; [reflexivity | rewrite Recognizer_width; reflexivity]).
Qed.

Lemma speaker_code_width (config : Cfg.t) input_dim oa kmo (s0 : SE.t A) tm
    spec_input pos_enc attention_mask oael head_mask a c :
  In (Cfg.speaker_type config) ["gst"; "linear"] ->
  SE.__init__ config input_dim oa kmo true = Ok s0 ->
  SE.forward (SE.set_Transformer s0 tm) spec_input pos_enc attention_mask oael head_mask
    = Ok (a, c) ->
  SE.out_dim s0 = Cfg.speaker_dim config /\
  size2 c = Z.to_nat (Cfg.speaker_dim config).
Proof.
  intros Hin Hi Hf. unfold SE.__init__ in Hi. simpl in Hin.
  destruct Hin as [E | [E | []]]; rewrite <- E in Hi; simpl in Hi;
    injection Hi as <-; unfold SE.forward in Hf; simpl in Hf;
    match type of Hf with
    | context [TransformerModel_forward ?m ?x ?pe ?am ?b ?hm] =>
        destruct (TransformerModel_forward m x pe am b hm) as [att out]
    end;
    destruct (Cfg.average_pooling config); destruct oa; injection Hf as <- <-;
    (split; [reflexivity | rewrite Recognizer_width; reflexivity]).
Qed.

(** X17.  The width of the fused code (lines 114-124 against lines 147-178),
    for a model [__init__] returns whose encoders have a recognizer (phone
    type 'l2', 'gb', 'gst' or 'linear', speaker type 'gst' or 'linear'),
    with dimensions that are not negative and recognizers that produce
    [out_dim] features: whenever the encoder stage, the replication and the
    fusion yield a code, its feature width is the [code_dim] the
    constructor computed, which is the input width the head was built for
    when there is no decoder. *)
Theorem fused_code_has_the_width_of_code_dim (config : Cfg.t) (input_dim : Z)
    (output_dim : option Z) (oa kmo : bool) (self : D.t A)
    (phonetic_input speaker_input pos_enc : Tensor A)
    (attention_mask head_mask : option Mask)
    (all_attentions : list (option Attentions))
    (phonetic_code speaker_code replicated : option (Tensor A)) (code : Tensor A) :
  snd (D.__init__ config input_dim output_dim oa kmo) = Ok self ->
  (Cfg.phone_dim config <> 0 ->
   In (Cfg.phone_type config) ["l2"; "gb"; "gst"; "linear"]) ->
  (Cfg.speaker_dim config <> 0 -> In (Cfg.speaker_type config) ["gst"; "linear"]) ->
  0 <= Cfg.phone_dim config ->
  0 <= Cfg.speaker_dim config ->
  D.dual_encoder_forward self phonetic_input speaker_input pos_enc
    attention_mask head_mask = Ok (all_attentions, phonetic_code, speaker_code) ->
  D.replicate_code self phonetic_code speaker_code = Ok replicated ->
  D.combine_code self phonetic_code replicated = Ok (Some code) ->
  exists cd,
    D.code_dim config (D.PhoneticTransformer self) (D.SpeakerTransformer self) = Ok cd /\
    size2 code = Z.to_nat cd /\
    (Cfg.decoder config = false -> head_input_dim (D.SpecHead self) = Some cd).
Proof.
  intros Hinit Hptype Hstype Hp0 Hs0 Henc Hrep Hcomb.
  destruct (init_parts config input_dim output_dim oa kmo self Hinit)
    as (cd & Hcd & _ & _ & Hhead).
  exists cd. split; [exact Hcd |]. split.
  2:{ intros Hd. rewrite Hhead, Hd. reflexivity. }
  pose proof (init_constructed config input_dim output_dim oa kmo self Hinit) as C.
  destruct C as [Coa Cdec Cpe Ccomb Cpd Csd Cavg Csome Cp Cs Cst Cspe].
  unfold D.dual_encoder_forward in Henc. rewrite Cpd, Csd in Henc.
  unfold D.replicate_code in Hrep. rewrite Csd in Hrep.
  unfold D.combine_code in Hcomb. rewrite Cpd, Csd, Ccomb in Hcomb.
  unfold D.code_dim in Hcd.
  match type of Henc with
  | Py.bind ?P _ = _ => destruct P as [[pa pc] |] eqn:EP; [| discriminate]
  end. simpl in Henc.
  match type of Henc with
  | Py.bind ?S _ = _ => destruct S as [[sa sc] |] eqn:ES; [| discriminate]
  end. simpl in Henc.
  injection Henc as <- <- <-.
  assert (HP : Cfg.phone_dim config <> 0 ->
               exists p0 tm p,
                 D.PhoneticTransformer self = Some (PE.set_Transformer p0 tm) /\
                 PE.out_dim p0 = Cfg.phone_dim config /\
                 pc = Some p /\ size2 p = Z.to_nat (Cfg.phone_dim config)).
  { intros Hp. pose proof Hp as Hp'. apply Z.eqb_neq in Hp'.
    rewrite Hp' in Cp, EP. simpl in EP.
    destruct Cp as (p0 & tm & E0 & Eself). rewrite Eself in EP. simpl in EP.
    match type of EP with
    | Py.bind ?F _ = _ => destruct F as [[a c] |] eqn:EF; [| discriminate]
    end. simpl in EP. injection EP as <- <-.
    destruct (phonetic_code_width config input_dim oa kmo p0 tm _ _ _ _ _ _ _
                (Hptype Hp) E0 EF) as (Hout & Hw).
    exists p0, tm, c. auto. }
  assert (HS : Cfg.speaker_dim config <> 0 ->
               exists s0 tm s,
                 D.SpeakerTransformer self = Some (SE.set_Transformer s0 tm) /\
                 SE.out_dim s0 = Cfg.speaker_dim config /\
                 sc = Some s /\ size2 s = Z.to_nat (Cfg.speaker_dim config)).
  { intros Hs. pose proof Hs as Hs'. apply Z.eqb_neq in Hs'.
    rewrite Hs' in Cs, ES. simpl in ES.
    destruct Cs as (s0 & tm & E0 & Eself). rewrite Eself in ES. simpl in ES.
    match type of ES with
    | Py.bind ?F _ = _ => destruct F as [[a c] |] eqn:EF; [| discriminate]
    end. simpl in ES. injection ES as <- <-.
    destruct (speaker_code_width config input_dim oa kmo s0 tm _ _ _ _ _ _ _
                (Hstype Hs) E0 EF) as (Hout & Hw).
    exists s0, tm, c. auto. }
  assert (HR : forall s, sc = Some s ->
               exists s', replicated = Some s' /\ size2 s' = size2 s).
  { intros s ->.
    destruct (negb (Cfg.speaker_dim config =? 0) && D.average_pooling self).
    - simpl in Hrep. destruct pc as [p |]; [| discriminate Hrep].
      simpl in Hrep. injection Hrep as <-. eexists. split; reflexivity.
    - injection Hrep as <-. eexists. split; reflexivity. }
  clear EP ES Cp Cs.
  destruct (Z.eqb_spec (Cfg.speaker_dim config) 0) as [Es | Ns].
  - (* the phonetic encoder alone *)
    injection Hcomb as ->.
    destruct (Z.eqb_spec (Cfg.phone_dim config) 0) as [Ep | Np]; [tauto |].
    destruct (HP Np) as (p0 & tm & p & _ & _ & Hpc & Hw).
    injection Hpc as <-. simpl in Hcd. injection Hcd as <-.
    rewrite Hw, Es. f_equal. lia.
  - destruct (HS Ns) as (s0 & tms & s & Hself_s & Hout_s & Hsc & Hws).
    destruct (HR s Hsc) as (s' & -> & Hws').
    destruct (Z.eqb_spec (Cfg.phone_dim config) 0) as [Ep | Np].
    + (* the speaker encoder alone *)
      injection Hcomb as ->. simpl in Hcd. injection Hcd as <-.
      rewrite Hws', Hws, Ep. f_equal. lia.
    + destruct (HP Np) as (p0 & tmp & p & Hself_p & Hout_p & -> & Hwp).
      rewrite Hself_p, Hself_s in Hcd. simpl in Hcd, Hcomb.
      destruct (Cfg.combine config =? "concat")%string.
      * (* concat *)
        injection Hcd as <-. unfold cat2 in Hcomb.
        destruct ((size0 p =? size0 s')%nat && (size1 p =? size1 s')%nat);
          [| discriminate Hcomb].
        simpl in Hcomb. injection Hcomb as <-. simpl.
        rewrite Hwp, Hws', Hws, Hout_p, Hout_s. rewrite Z2Nat.inj_add; auto.
      * destruct (Cfg.combine config =? "add")%string; [| discriminate Hcd].
        (* add *)
        simpl in Hcd. rewrite Hout_p, Hout_s in Hcd.
        destruct (Z.eqb_spec (Cfg.phone_dim config) (Cfg.speaker_dim config))
          as [Eq | _]; [| discriminate Hcd].
        injection Hcd as <-. unfold tensor_add, broadcast_shape, shape in Hcomb.
        rewrite Hwp, Hws', Hws, <- Eq, broadcast_dim_same in Hcomb.
        destruct (broadcast_dim (size0 p) (size0 s')); [| discriminate Hcomb].
        destruct (broadcast_dim (size1 p) (size1 s')); [| discriminate Hcomb].
        simpl in Hcomb. injection Hcomb as <-. reflexivity.
Qed.

End CodeWidth.

(** X17 on a model with both encoders and 'concat' (out_dims 64 and 16): the
    fused code has 80 features. *)
Lemma fused_code_has_the_width_of_code_dim_witness :
  exists self all_attentions phonetic_code speaker_code code,
    snd (D.__init__ (A := float) (config_of true "concat" "l2" 64 "gst" 16 false [])
           80 None false false) = Ok self /\
    D.dual_encoder_forward self
      (of_list 0%float [[[1%float]; [2%float]]])
      (of_list 0%float [[[4%float]; [8%float]]])
      (of_list 0%float [[[0%float]; [0%float]]]) None None
    = Ok (all_attentions, phonetic_code, speaker_code) /\
    D.combine_code self phonetic_code speaker_code = Ok (Some code) /\
    size2 code = 80%nat.
Proof.
  let r := eval vm_compute in
    (snd (D.__init__ (A := float) (config_of true "concat" "l2" 64 "gst" 16 false [])
            80 None false false)) in
  match r with Ok ?m => exists m end.
  match goal with
  | |- exists a p s c, _ /\ ?f = _ /\ _ =>
      let r := eval vm_compute in f in
      match r with Ok (?a, ?p, ?s) => exists a, p, s end
  end.
  match goal with
  | |- exists c, _ /\ _ /\ ?f = _ /\ _ =>
      let r := eval vm_compute in f in
      match r with Ok (Some ?c) => exists c end
  end.
  match goal with
  | |- ?I = Ok ?m /\ ?F = Ok ?x /\ ?G = Ok ?y /\ _ =>
      assert (Hinit : I = Ok m) by (vm_compute; reflexivity);
      assert (Henc : F = Ok x) by (vm_compute; reflexivity);
      assert (Hcomb : G = Ok y) by (vm_compute; reflexivity)
  end.
  split; [exact Hinit |]. split; [exact Henc |]. split; [exact Hcomb |].
  assert (Hrec : forall r (x : Tensor float),
             size2 (Recognizer_forward r x) = Z.to_nat (Recognizer_out_dim r))
    by (intros r x; reflexivity).
  destruct (fused_code_has_the_width_of_code_dim Hrec
              (config_of true "concat" "l2" 64 "gst" 16 false [])
              80 None false false _ _ _ _ None None _ _ _ _ _
              Hinit
              (fun _ => or_introl eq_refl) (fun _ => or_introl eq_refl)
              ltac:(discriminate) ltac:(discriminate)
              Henc eq_refl Hcomb)
    as (cd & Hcd & Hw & _).
  rewrite Hw. vm_compute in Hcd. injection Hcd as <-. reflexivity.
Defined.

(** ** The encoders' forward passes *)

(** The case of a constructor that built a recognizer: [Hi] is what it
    returned, the type tag being among the hypotheses. *)
Ltac with_recognizer_case Hi oa :=
  injection Hi as <-; simpl;
  destruct oa; eexists; (split; [reflexivity |]); split;
  [ intros [X | X]; [discriminate X | exfalso; first [congruence | apply X; simpl; auto]]
  | intros _ _; eexists; repeat split
  | intros [X | X]; [discriminate X | exfalso; first [congruence | apply X; simpl; auto]]
  | intros _ _; eexists; repeat split ].

Section EncoderForward.
Context {A : Type} `{Scalar A} `{Backend A}.

(** X18.  [TransformerPhoneticEncoder.forward] (lines 234-251) on an encoder
    its constructor returned, whatever [with_recognizer] was passed: the
    call returns; the attentions are the transformer's when the encoder was
    built with [output_attentions] and are left out otherwise; the code is
    the transformer's output itself when no recognizer was asked for or the
    phone type is 'none', and the recognizer, built for [phone_dim], applied
    to that output when one was asked for and the phone type is 'l2', 'gb',
    'gst' or 'linear'. *)
Theorem phonetic_encoder_forward_of_constructed (config : Cfg.t) (input_dim : Z)
    (oa kmo wr : bool) (p : PE.t A) (spec_input pos_enc : Tensor A)
    (attention_mask : option Mask) (output_all_encoded_layers : bool)
    (head_mask : option Mask) :
  PE.__init__ config input_dim oa kmo wr = Ok p ->
  exists code,
    PE.forward p spec_input pos_enc attention_mask output_all_encoded_layers head_mask =
    Ok ((if oa
         then Some (fst (TransformerModel_forward (PE.Transformer p) spec_input
                           (Some pos_enc) attention_mask output_all_encoded_layers
                           head_mask))
         else None), code) /\
    (wr = false \/ Cfg.phone_type config = "none" ->
     code = snd (TransformerModel_forward (PE.Transformer p) spec_input
                   (Some pos_enc) attention_mask output_all_encoded_layers head_mask)) /\
    (wr = true -> In (Cfg.phone_type config) ["l2"; "gb"; "gst"; "linear"] ->
     exists r,
       PE.PhoneRecognizer p = Some r /\
       Recognizer_out_dim r = Cfg.phone_dim config /\
       code = Recognizer_forward r
                (snd (TransformerModel_forward (PE.Transformer p) spec_input
                        (Some pos_enc) attention_mask output_all_encoded_layers
                        head_mask))).
Proof.
  intros Hi. unfold PE.forward.
  destruct (TransformerModel_forward (PE.Transformer p) spec_input (Some pos_enc)
              attention_mask output_all_encoded_layers head_mask) as [att out].
  cbn [fst snd]. unfold PE.__init__ in Hi.
  destruct wr.
  2:{ rewrite !andb_false_r in Hi. simpl in Hi. injection Hi as <-. simpl.
      destruct oa; eexists; (split; [reflexivity |]); split;
        try (intros _; reflexivity); intros X; discriminate X. }
  destruct (String.eqb_spec (Cfg.phone_type config) "l2") as [E | N1]; simpl in Hi.
  { with_recognizer_case Hi oa. }
  destruct (String.eqb_spec (Cfg.phone_type config) "gb") as [E | N2]; simpl in Hi.
  { with_recognizer_case Hi oa. }
  destruct (String.eqb_spec (Cfg.phone_type config) "gst") as [E | N3]; simpl in Hi.
  { with_recognizer_case Hi oa. }
  destruct (String.eqb_spec (Cfg.phone_type config) "linear") as [E | N4]; simpl in Hi.
  { with_recognizer_case Hi oa. }
  destruct (String.eqb_spec (Cfg.phone_type config) "none") as [E | N5]; simpl in Hi;
    [| discriminate Hi].
  injection Hi as <-. simpl.
  destruct oa; eexists; (split; [reflexivity |]); split;
    try (intros _; reflexivity);
    intros _ Hin; simpl in Hin; destruct Hin as [X | [X | [X | [X | []]]]]; congruence.
Qed.

(** X19.  [TransformerSpeakerEncoder.forward] (lines 280-299) on an encoder
    its constructor returned, whatever [with_recognizer] was passed: the
    call returns; the attentions are the transformer's when the encoder was
    built with [output_attentions]; the transformer's output is averaged
    over time, keeping one timestep, exactly when [average_pooling] is set,
    each element of the average being the sum over time of the output's
    elements at its batch and feature indices divided by the number of
    timesteps; and the code is that output itself when no recognizer was
    asked for or the speaker type is neither 'gst' nor 'linear', and the
    recognizer, built for [speaker_dim], applied to it otherwise. *)
Theorem speaker_encoder_forward_of_constructed (config : Cfg.t) (input_dim : Z)
    (oa kmo wr : bool) (s : SE.t A) (spec_input pos_enc : Tensor A)
    (attention_mask : option Mask) (output_all_encoded_layers : bool)
    (head_mask : option Mask) :
  SE.__init__ config input_dim oa kmo wr = Ok s ->
  let outputs :=
    TransformerModel_forward (SE.Transformer s) spec_input (Some pos_enc)
      attention_mask output_all_encoded_layers head_mask in
  let sequence_output :=
    if Cfg.average_pooling config then mean1_unsqueeze (snd outputs) else snd outputs in
  (Cfg.average_pooling config = true ->
   shape sequence_output = (size0 (snd outputs), 1%nat, size2 (snd outputs)) /\
   forall b t f,
     item sequence_output b t f =
     div_count
       (fold_left add
          (map (fun t' => item (snd outputs) b t' f) (seq 0 (size1 (snd outputs))))
          zero)
       (size1 (snd outputs))) /\
  (Cfg.average_pooling config = false -> sequence_output = snd outputs) /\
  exists code,
    SE.forward s spec_input pos_enc attention_mask output_all_encoded_layers head_mask =
    Ok ((if oa then Some (fst outputs) else None), code) /\
    (wr = false \/ ~ In (Cfg.speaker_type config) ["gst"; "linear"] ->
     code = sequence_output) /\
    (wr = true -> In (Cfg.speaker_type config) ["gst"; "linear"] ->
     exists r,
       SE.SpeakerRecognizer s = Some r /\
       Recognizer_out_dim r = Cfg.speaker_dim config /\
       code = Recognizer_forward r sequence_output).
Proof.
  intros Hi. cbv zeta.
  split.
  { intros ->. apply mean1_unsqueeze_items. }
  split.
  { intros ->. reflexivity. }
  unfold SE.forward.
  destruct (TransformerModel_forward (SE.Transformer s) spec_input (Some pos_enc)
              attention_mask output_all_encoded_layers head_mask) as [att out].
  cbn [fst snd]. unfold SE.__init__ in Hi.
  destruct wr.
  2:{ rewrite !andb_false_r in Hi. simpl in Hi. injection Hi as <-. simpl.
      destruct oa; eexists; (split; [reflexivity |]); split;
        try (intros _; reflexivity); intros X; discriminate X. }
  destruct (String.eqb_spec (Cfg.speaker_type config) "gst") as [E | N1]; simpl in Hi.
  { with_recognizer_case Hi oa. }
  destruct (String.eqb_spec (Cfg.speaker_type config) "linear") as [E | N2]; simpl in Hi.
  { with_recognizer_case Hi oa. }
  destruct (String.eqb_spec (Cfg.phone_type config) "none") as [E | N3]; simpl in Hi;
    [| discriminate Hi].
  injection Hi as <-. simpl.
  destruct oa; eexists; (split; [reflexivity |]); split;
    try (intros _; reflexivity);
    intros _ Hin; simpl in Hin; destruct Hin as [X | [X | []]]; congruence.
Qed.

End EncoderForward.

(** X18 on an encoder with phone type 'none' and the example backend, whose
    transformers return their input: the code is the input. *)
Lemma phonetic_encoder_forward_of_constructed_witness :
  exists p,
    PE.__init__ (A := float) (config_of true "concat" "none" 64 "gst" 16 false [])
      80 false false true = Ok p /\
    PE.forward p
      (of_list 0%float [[[1%float]; [2%float]]])
      (of_list 0%float [[[0%float]; [0%float]]]) None false None =
    Ok (None, of_list 0%float [[[1%float]; [2%float]]]).
Proof.
  eexists. split; [reflexivity |].
  match goal with
  | |- PE.forward ?p ?x ?pe None false None = _ =>
      destruct (phonetic_encoder_forward_of_constructed
                  (config_of true "concat" "none" 64 "gst" 16 false [])
                  80 false false true p x pe None false None eq_refl)
        as (code & -> & Hnone & _)
  end.
  rewrite Hnone by (right; reflexivity). reflexivity.
Defined.

(** X19 on an encoder with average pooling, speaker type 'gst' and the
    example backend, whose transformers return their input and whose
    recognizers copy the first feature: on the input 4 then 8 the code is
    one timestep of [speaker_dim] features, each the average 6. *)
Lemma speaker_encoder_forward_of_constructed_witness :
  exists s code,
    SE.__init__ (A := float) (config_of true "concat" "l2" 64 "gst" 16 true [])
      80 false false true = Ok s /\
    SE.forward s
      (of_list 0%float [[[4%float]; [8%float]]])
      (of_list 0%float [[[0%float]; [0%float]]]) None false None = Ok (None, code) /\
    shape code = (1%nat, 1%nat, 16%nat) /\
    item code 0 0 0 = 6%float.
Proof.
  eexists.
  match goal with
  | |- exists code, _ /\ SE.forward ?s ?x ?pe None false None = _ /\ _ =>
      destruct (speaker_encoder_forward_of_constructed
                  (config_of true "concat" "l2" 64 "gst" 16 true [])
                  80 false false true s x pe None false None eq_refl)
        as (Hmean & _ & code & Hf & _ & Hrec)
  end.
  destruct (Hmean eq_refl) as (_ & Hitem).
  destruct (Hrec eq_refl (or_introl eq_refl)) as (r & Hr & _ & Hcode).
  exists code. split; [reflexivity |]. split; [exact Hf |].
  rewrite Hcode. vm_compute in Hr. injection Hr as <-.
  split; [reflexivity |].
  match goal with
  | |- item (Recognizer_forward _ ?x) 0 0 0 = _ => change (item x 0 0 0 = 6%float)
  end.
  rewrite Hitem. vm_compute. reflexivity.
Defined.
